(** * HouseDCC: the PiDCC transport/encoder and the fleet registry

    A shallow embedding of [housedcc_pidcc.c], [housedcc_fleet.c] and the
    request handlers of [housedcc.c].

    Conventions of the embedding:
    - a C [int], [short], [char] or [time_t] is a [Z]; where the source
      narrows a value (the [short] function mask) the wrap-around is written
      out;
    - a C string is a [string] (no embedded NUL); a cleared identifier
      ([id[0] = 0], a tombstone) is the empty string;
    - a [char *] into the receive buffer is the list of the bytes from the
      pointer on, in which a C string ends at the first NUL;
    - the module-level [static] variables of each file are the fields of a
      record that every function receives and returns;
    - what the operating system answers ([write], [waitpid], [pipe], [fork],
      [time]) is an explicit argument of the function that asks;
    - [housecapture_record] appends to the capture log carried in the state;
      [houselog_event] and the [DEBUG] traces leave the program state alone
      and are not represented. *)

From Stdlib Require Import ZArith Lia Ascii String DecimalString.
From stdpp Require Import base list strings.

Local Open Scope Z_scope.

(** ** C library helpers *)

(** [printf ("%d")] of an integer. *)
Definition fmt_d (z : Z) : string := NilZero.string_of_int (Z.to_int z).

(** [snprintf (buffer, size, "%s", s)]: at most [size - 1] characters are
    kept. *)
Definition snprintf (size : nat) (s : string) : string :=
  String.substring 0 (size - 1) s.

(** [snprintf (command, sizeof(command), "send %d %d", a, i)] with
    [char command[32]]. *)
Definition send_command (a i : Z) : string :=
  snprintf 32 ("send " +:+ fmt_d a +:+ " " +:+ fmt_d i).

(** The characters of a string from position [n] on ([line + n]). *)
Definition string_from (n : nat) (s : string) : string :=
  String.substring n (String.length s) s.

(** The range of an [int]. *)
Definition INT_MIN : Z := -2147483648.
Definition INT_MAX : Z := 2147483647.

Definition is_int (z : Z) : Prop := INT_MIN <= z <= INT_MAX.

(** Memory is a list of bytes. The C string that starts at the head of [l]:
    the characters before the first NUL; the end of the list reads as a
    NUL. *)
Fixpoint cstring (l : list ascii) : string :=
  match l with
  | [] => ""
  | c :: rest => if Ascii.eqb c Ascii.zero then "" else String c (cstring rest)
  end.

(** The characters of a string. *)
Definition bytes_of (s : string) : list ascii := list_ascii_of_string s.

(** ** housedcc_pidcc.c *)

Record PiDcc := mkPiDcc {
  PiDccProcess : Z;
  PiDccTransmit : Z;
  PiDccListen : Z;
  PiDccState : ascii;
  PiDccStateDeadline : Z;
  GpioPinA : Z;
  GpioPinB : Z;
  (** the records handed to [housecapture_record]: (action, text) *)
  PiDccCaptured : list (string * string);
  (** the bytes [write (PiDccTransmit, ...)] accepted, one entry per call *)
  PiDccWritten : list string
}.

(** The [static] initialisers of the file. *)
Definition PiDcc_initial : PiDcc :=
  mkPiDcc 0 0 0 Ascii.zero 0 0 0 [] [].

Definition set_PiDccState (c : ascii) (st : PiDcc) : PiDcc :=
  mkPiDcc (PiDccProcess st) (PiDccTransmit st) (PiDccListen st) c
          (PiDccStateDeadline st) (GpioPinA st) (GpioPinB st)
          (PiDccCaptured st) (PiDccWritten st).

Definition set_PiDccStateDeadline (t : Z) (st : PiDcc) : PiDcc :=
  mkPiDcc (PiDccProcess st) (PiDccTransmit st) (PiDccListen st)
          (PiDccState st) t (GpioPinA st) (GpioPinB st)
          (PiDccCaptured st) (PiDccWritten st).

Definition set_GpioPins (a b : Z) (st : PiDcc) : PiDcc :=
  mkPiDcc (PiDccProcess st) (PiDccTransmit st) (PiDccListen st)
          (PiDccState st) (PiDccStateDeadline st) a b
          (PiDccCaptured st) (PiDccWritten st).

Definition set_PiDccLink (process transmit listen : Z) (st : PiDcc) : PiDcc :=
  mkPiDcc process transmit listen
          (PiDccState st) (PiDccStateDeadline st) (GpioPinA st) (GpioPinB st)
          (PiDccCaptured st) (PiDccWritten st).

(** [housecapture_record (PiDccCapture, "PIDCC", action, text)]. *)
Definition housecapture_record (action text : string) (st : PiDcc) : PiDcc :=
  mkPiDcc (PiDccProcess st) (PiDccTransmit st) (PiDccListen st)
          (PiDccState st) (PiDccStateDeadline st) (GpioPinA st) (GpioPinB st)
          (PiDccCaptured st ++ [(action, text)]) (PiDccWritten st).

(** The pipe accepted [n] bytes of [line]. *)
Definition pipe_accepts (n : Z) (line : string) (st : PiDcc) : PiDcc :=
  mkPiDcc (PiDccProcess st) (PiDccTransmit st) (PiDccListen st)
          (PiDccState st) (PiDccStateDeadline st) (GpioPinA st) (GpioPinB st)
          (PiDccCaptured st)
          (PiDccWritten st ++ [String.substring 0 (Z.to_nat n) line]).

Definition housedcc_pidcc_enabled (st : PiDcc) : bool :=
  (0 <? GpioPinA st) || (0 <? GpioPinB st).

(** [os_write] is what [write (PiDccTransmit, line, total)] returns when the
    call is made: the number of bytes accepted, or a value [<= 0]. *)
Definition housedcc_pidcc_write (os_write : Z) (text : string) (st : PiDcc)
  : Z * PiDcc :=
  let submit := housedcc_pidcc_enabled st in
  let st := housecapture_record (if submit then "WRITE" else "BUILT") text st in
  if negb submit then (0, st)
  else
    let line := snprintf 256 (text +:+ String "010"%char "") in
    if os_write <=? 0 then (0, st)
    else (1, pipe_accepts os_write line st).

Definition housedcc_pidcc_config (os_write pina pinb : Z) (st : PiDcc) : PiDcc :=
  let st := set_GpioPins pina pinb st in
  if negb (housedcc_pidcc_enabled st) then st
  else
    let text := snprintf 256 ("pin " +:+ fmt_d (GpioPinA st) +:+ " "
                                     +:+ fmt_d (GpioPinB st)) in
    snd (housedcc_pidcc_write os_write text st).

(** [line] is the memory that the pointer designates, from [line[0]] on.
    [line + 2] is read as a C string where it lies: inside the line when the
    line has two characters or more, past its terminator when it has one.
    [now] is what [time(0)] returns. *)
Definition housedcc_pidcc_decode (now : Z) (line : list ascii) (st : PiDcc)
  : PiDcc :=
  let c := hd Ascii.zero line in
  let text := cstring (drop 2 line) in
  if Ascii.eqb c Ascii.zero then st
  else if Ascii.eqb c "#"%char then
    set_PiDccState c (housecapture_record "IDLE" text st)
  else if Ascii.eqb c "%"%char then
    set_PiDccStateDeadline (now + 3)
      (set_PiDccState c (housecapture_record "BUSY" text st))
  else if Ascii.eqb c "*"%char then
    set_PiDccStateDeadline (now + 3)
      (set_PiDccState c (housecapture_record "FULL" text st))
  else if Ascii.eqb c "!"%char then
    housecapture_record "ERROR" text st
  else if Ascii.eqb c "$"%char then
    housecapture_record "DEBUG" text st
  else st.

(** What the operating system answers during one supervision pass. *)
Record OsAnswers := mkOsAnswers {
  os_waitpid : Z;                      (* waitpid (PiDccProcess, 0, WNOHANG) *)
  os_pipe_listen : option (Z * Z);     (* pipe (listen_pipe), None when < 0 *)
  os_pipe_transmit : option (Z * Z);   (* pipe (transmit_pipe) *)
  os_fork : Z                          (* fork (), as the parent sees it *)
}.

Definition housedcc_pidcc_launch (os : OsAnswers) (st : PiDcc) : PiDcc :=
  match os_pipe_listen os with
  | None => st
  | Some listen_pipe =>
      match os_pipe_transmit os with
      | None => st
      | Some transmit_pipe =>
          let st := set_PiDccLink (os_fork os) (PiDccTransmit st)
                                  (PiDccListen st) st in
          if PiDccProcess st <? 0 then st
          else set_PiDccLink (PiDccProcess st) (snd transmit_pipe)
                             (fst listen_pipe) st
      end
  end.

Definition speed2cssss : list Z :=
  [0;    0x2;  0x12; 0x3;  0x13;
   0x4;  0x14; 0x5;  0x15; 0x6;
   0x16; 0x7;  0x17; 0x8;  0x18;
   0x9;  0x19; 0xa;  0x1a; 0xb;
   0x1b; 0xc;  0x1c; 0xd;  0x1d;
   0xe;  0x1e; 0xf;  0x1f].

(** [speed] is an [int] above [INT_MIN]: the source takes [abs (speed)],
    which C leaves undefined at [INT_MIN]. *)
Definition housedcc_pidcc_move (os_write address speed : Z) (st : PiDcc)
  : Z * PiDcc :=
  if (address <=? 0) || (address >=? 128) then (0, st)
  else if Ascii.eqb (PiDccState st) "*"%char then (0, st)
  else
    let dir := if speed >? 0 then 0x20 else 0 in
    let speed := Z.abs speed in
    if speed >? 28 then (0, st)
    else
      housedcc_pidcc_write os_write
        (send_command (Z.land address 0x7f)
           (0x40 + dir + Z.land (nth (Z.to_nat speed) speed2cssss 0) 0x1f))
        st.

Definition housedcc_pidcc_stop (os_write address emergency : Z) (st : PiDcc)
  : Z * PiDcc :=
  if (address <? 0) || (address >=? 128) then (0, st)
  else
    housedcc_pidcc_write os_write
      (send_command (Z.land address 0x7f)
         (0x40 + (if emergency =? 0 then 0 else 1)))
      st.

Definition housedcc_pidcc_function (os_write address instruction : Z)
                                   (st : PiDcc) : Z * PiDcc :=
  if address >=? 128 then (0, st)
  else if Ascii.eqb (PiDccState st) "*"%char then (0, st)
  else
    housedcc_pidcc_write os_write
      (send_command (Z.land address 0x7f) instruction) st.

Definition housedcc_pidcc_accessory (os_write address device value : Z)
                                    (st : PiDcc) : Z * PiDcc :=
  if address >=? 512 then (0, st)
  else if Ascii.eqb (PiDccState st) "*"%char then (0, st)
  else
    let value := if value =? 0 then 0 else 0x08 in
    let device := Z.land device 0x0f in
    housedcc_pidcc_write os_write
      (send_command
         (0x80 + Z.land address 0x3f)
         (0x80 + Z.lxor 0 (Z.shiftr (Z.land address 0x1c0) 2) + value + device))
      st.

Definition housedcc_pidcc_deceased (os : OsAnswers) (st : PiDcc) : Z * PiDcc :=
  if PiDccProcess st <=? 0 then (1, st)
  else if os_waitpid os =? PiDccProcess st then
    let transmit := if 0 <? PiDccTransmit st then 0 else PiDccTransmit st in
    let listen := if 0 <? PiDccListen st then 0 else PiDccListen st in
    (1, set_PiDccLink 0 transmit listen st)
  else (0, st).

Definition housedcc_pidcc_periodic (os : OsAnswers) (now : Z) (st : PiDcc)
  : PiDcc :=
  let st :=
    if Ascii.eqb (PiDccState st) "*"%char then
      if PiDccStateDeadline st <? now then
        housecapture_record "TIMEOUT" "" (set_PiDccState "#"%char st)
      else st
    else st in
  if Z.rem now 5 =? 0 then
    let (dead, st) := housedcc_pidcc_deceased os st in
    if dead =? 0 then st
    else housedcc_pidcc_launch os (housecapture_record "ERROR" "PiDCC died" st)
  else st.

(** ** housedcc_fleet.c *)

Definition FUNCTION_MAX : Z := 16.

Definition VEHICLE_TYPE_NODCC : Z := 0.
Definition VEHICLE_TYPE_CAR : Z := 1.
Definition VEHICLE_TYPE_ENGINE : Z := 2.

Record DccFunction := mkDccFunction {
  fn_name : string;
  fn_index : Z                    (* a [char] *)
}.

(** [m_functions] holds the first [count] entries of the [functions] array,
    the only ones the code reads; [count] is its length. *)
Record DccModel := mkDccModel {
  m_name : string;
  m_type : Z;
  m_functions : list DccFunction
}.

(** [v_model] is the [DccModel *]: the position in [Models] it points to, or
    [None] for the null pointer. *)
Record DccVehicle := mkDccVehicle {
  v_id : string;
  v_address : Z;                  (* a [short] *)
  v_speed : Z;                    (* a [short] *)
  v_functions : Z;                (* a [short] *)
  v_model : option nat
}.

(** [ModelsCount] and [VehiclesCount] are the lengths of the two tables. *)
Record Fleet := mkFleet {
  Models : list DccModel;
  Vehicles : list DccVehicle
}.

Definition Fleet_initial : Fleet := mkFleet [] [].

Definition ModelsCount (f : Fleet) : Z := Z.of_nat (length (Models f)).
Definition VehiclesCount (f : Fleet) : Z := Z.of_nat (length (Vehicles f)).

(** [for (i = from; i < count; ++i) if (p (table[i])) return i; return -1;] *)
Fixpoint scan {A : Type} (p : A -> bool) (table : list A) (from : Z) : Z :=
  match table with
  | [] => -1
  | x :: rest => if p x then from else scan p rest (from + 1)
  end.

(** [for (cursor = 0; cursor < count; ++cursor) if (p (table[cursor])) break;]
    leaves [cursor] at the first hit, or at [count]. *)
Definition scan_break {A : Type} (p : A -> bool) (table : list A) : Z :=
  let i := scan p table 0 in
  if i <? 0 then Z.of_nat (length table) else i.

Definition set_id (id : string) (v : DccVehicle) : DccVehicle :=
  mkDccVehicle id (v_address v) (v_speed v) (v_functions v) (v_model v).
Definition set_address (a : Z) (v : DccVehicle) : DccVehicle :=
  mkDccVehicle (v_id v) a (v_speed v) (v_functions v) (v_model v).
Definition set_speed (s : Z) (v : DccVehicle) : DccVehicle :=
  mkDccVehicle (v_id v) (v_address v) s (v_functions v) (v_model v).
Definition set_functions (m : Z) (v : DccVehicle) : DccVehicle :=
  mkDccVehicle (v_id v) (v_address v) (v_speed v) m (v_model v).
Definition set_model (m : option nat) (v : DccVehicle) : DccVehicle :=
  mkDccVehicle (v_id v) (v_address v) (v_speed v) (v_functions v) m.

Definition set_m_name (n : string) (m : DccModel) : DccModel :=
  mkDccModel n (m_type m) (m_functions m).

(** [Vehicles[cursor] = g (Vehicles[cursor])], for a cursor inside the table. *)
Definition update_vehicle (cursor : Z) (g : DccVehicle -> DccVehicle)
                          (f : Fleet) : Fleet :=
  mkFleet (Models f) (alter g (Z.to_nat cursor) (Vehicles f)).

Definition update_model (cursor : Z) (g : DccModel -> DccModel)
                        (f : Fleet) : Fleet :=
  mkFleet (alter g (Z.to_nat cursor) (Models f)) (Vehicles f).

(** [Vehicles[cursor]] once [cursor < 0] has been excluded; a cursor that
    [housedcc_fleet_find] returned is never past the end of the table. *)
Definition vehicle_at (cursor : Z) (f : Fleet) : option DccVehicle :=
  if cursor <? 0 then None else Vehicles f !! Z.to_nat cursor.

(** The slot that [realloc] adds at the end of a table; every field is
    assigned before it is read. *)
Definition fresh_vehicle : DccVehicle := mkDccVehicle "" 0 0 0 None.
Definition fresh_model : DccModel := mkDccModel "" 0 [].

Definition housedcc_fleet_find_model (model : option string) (f : Fleet) : Z :=
  match model with
  | None => -1
  | Some "" => -1
  | Some model => scan (fun m => String.eqb model (m_name m)) (Models f) 0
  end.

Definition housedcc_fleet_find (id : string) (f : Fleet) : Z :=
  scan (fun v => String.eqb id (v_id v)) (Vehicles f) 0.

Definition housedcc_fleet_find_address (address : Z) (f : Fleet) : Z :=
  scan (fun v => address =? v_address v) (Vehicles f) 0.

Definition housedcc_fleet_totype (type : string) : Z :=
  if String.eqb type "engine" then VEHICLE_TYPE_ENGINE
  else if String.eqb type "locomotive" then VEHICLE_TYPE_ENGINE
  else if String.eqb type "car" then VEHICLE_TYPE_CAR
  else if String.eqb type "dummy" then VEHICLE_TYPE_NODCC
  else VEHICLE_TYPE_NODCC.

Definition housedcc_fleet_valid_address (address : Z) : bool :=
  (0 <? address) && (address <? 128).

Definition housedcc_fleet_add (id : string) (model : option string)
                              (address : Z) (f : Fleet) : Fleet :=
  if negb (housedcc_fleet_valid_address address) then f
  else
    let thismodel :=
      match model with
      | None => None
      | Some _ =>
          let cursor := housedcc_fleet_find_model model f in
          if 0 <=? cursor then Some (Z.to_nat cursor) else None
      end in
    let cursor := housedcc_fleet_find id f in
    let synonym := housedcc_fleet_find_address address f in
    if (0 <=? synonym) && negb (cursor =? synonym) then f
    else
      let '(cursor, f) :=
        if cursor <? 0 then
          let cursor := scan_break (fun v => String.eqb (v_id v) "") (Vehicles f) in
          let f := if cursor >=? VehiclesCount f
                   then mkFleet (Models f) (Vehicles f ++ [fresh_vehicle])
                   else f in
          (cursor, update_vehicle cursor (set_id (snprintf 15 id)) f)
        else (cursor, f) in
      update_vehicle cursor
        (fun v => set_model thismodel
                    (set_functions 0 (set_speed 0 (set_address address v))))
        f.

Definition housedcc_fleet_delete (id : string) (f : Fleet) : Fleet :=
  let cursor := housedcc_fleet_find id f in
  if 0 <=? cursor then update_vehicle cursor (set_id "") f
  else
    let cursor := housedcc_fleet_find_model (Some id) f in
    if 0 <=? cursor then update_model cursor (set_m_name "") f
    else f.

Definition housedcc_fleet_exists (id : string) (f : Fleet) : Z :=
  if 0 <=? housedcc_fleet_find id f then 1 else 0.

(** The registry and the transport, as the fleet functions see them. *)
Definition World : Type := Fleet * PiDcc.

Definition housedcc_fleet_move (os_write : Z) (id : string) (speed : Z)
                               (w : World) : Z * World :=
  let '(f, st) := w in
  let cursor := housedcc_fleet_find id f in
  match vehicle_at cursor f with
  | None => (0, w)
  | Some v =>
      let speed := if speed <? -31 then -31
                   else if speed >? 31 then 31 else speed in
      let f := update_vehicle cursor (set_speed speed) f in
      let '(r, st) := housedcc_pidcc_move os_write (v_address v) speed st in
      (r, (f, st))
  end.

Definition housedcc_fleet_stop (os_write : Z) (id : string) (emergency : Z)
                               (w : World) : Z * World :=
  let '(f, st) := w in
  let cursor := housedcc_fleet_find id f in
  match vehicle_at cursor f with
  | None => (0, w)
  | Some v =>
      let f := update_vehicle cursor (set_speed 0) f in
      let '(r, st) := housedcc_pidcc_stop os_write (v_address v) emergency st in
      (r, (f, st))
  end.

Definition housedcc_fleet_stopped (f : Fleet) : Fleet :=
  mkFleet (Models f)
          (map (fun v => if String.eqb (v_id v) "" then v else set_speed 0 v)
               (Vehicles f)).

(** Conversion of an [int] to [short] (16 bits, two's complement). *)
Definition short_of_int (z : Z) : Z := (z + 32768) mod 65536 - 32768.

Section Platform.

(** Whether plain [char] is signed on the target. *)
Variable char_signed : bool.

(** What [1 << n] yields on the target when [n] is negative or [n >= 31],
    which C leaves undefined. *)
Variable shl_undefined : Z -> Z.

Definition char_of_int (z : Z) : Z :=
  if char_signed then (z + 128) mod 256 - 128 else z mod 256.

Definition int_shl_1 (n : Z) : Z :=
  if (0 <=? n) && (n <? 31) then Z.shiftl 1 n else shl_undefined n.

Definition is_space (c : ascii) : bool :=
  let n := nat_of_ascii c in
  (n =? 32)%nat || ((9 <=? n)%nat && (n <=? 13)%nat).

Definition is_digit (c : ascii) : bool :=
  let n := nat_of_ascii c in (48 <=? n)%nat && (n <=? 57)%nat.

Fixpoint atoi_digits (s : string) (acc : Z) : Z :=
  match s with
  | String c rest =>
      if is_digit c
      then atoi_digits rest (acc * 10 + Z.of_nat (nat_of_ascii c - 48))
      else acc
  | EmptyString => acc
  end.

(** The value of the numeral at the head of [s]. The [atoi] of the C
    library returns this value when an [int] holds it, and is undefined
    otherwise. *)
Fixpoint atoi (s : string) : Z :=
  match s with
  | EmptyString => 0
  | String c rest =>
      if is_space c then atoi rest
      else if Ascii.eqb c "-"%char then - atoi_digits rest 0
      else if Ascii.eqb c "+"%char then atoi_digits rest 0
      else atoi_digits s 0
  end.

(** One pass of the loop of [housedcc_fleet_declare] over [functions[i]]. *)
Definition declare_function (text : string) : DccFunction :=
  let name := snprintf 15 text in
  match String.index 0 ":" name with
  | None => mkDccFunction name (char_of_int (-1))
  | Some sep =>
      mkDccFunction (String.substring 0 sep name)
                    (char_of_int (atoi (string_from (S sep) name)))
  end.

(** [functions] has at least [count] entries. *)
Definition housedcc_fleet_declare (model type : string) (count : Z)
                                  (functions : list string) (f : Fleet)
  : Fleet :=
  let cursor := housedcc_fleet_find_model (Some model) f in
  let '(cursor, f) :=
    if cursor <? 0 then
      let cursor := scan_break (fun m => String.eqb (m_name m) "") (Models f) in
      let f := if cursor >=? ModelsCount f
               then mkFleet (Models f ++ [fresh_model]) (Vehicles f)
               else f in
      (cursor, update_model cursor (set_m_name (snprintf 15 model)) f)
    else (cursor, f) in
  let count := if count >? FUNCTION_MAX then FUNCTION_MAX else count in
  update_model cursor
    (fun m => mkDccModel (m_name m) (housedcc_fleet_totype type)
                         (map declare_function
                              (take (Z.to_nat count) functions)))
    f.

(** The function mask after [functions |= mask] or [functions &= ~mask],
    with [short mask = 1 << (index - 1)]. *)
Definition housedcc_fleet_set_mask (index state functions : Z) : Z :=
  let mask := short_of_int (int_shl_1 (index - 1)) in
  if state =? 0
  then short_of_int (Z.land functions (Z.lnot mask))
  else short_of_int (Z.lor functions mask).

(** The value of [instruction] when the call of [housedcc_pidcc_function]
    is reached; [None] where the source returns 0 before it. *)
Definition housedcc_fleet_set_instruction (index functions : Z) : option Z :=
  if (index <=? 4) || (index =? 13) then
    Some (0x80 + Z.land functions 0xf
          + (if Z.land functions 0x1000 =? 0 then 0 else 0x10))
  else if index <=? 8 then
    Some (0xb0 + Z.land (Z.shiftr functions 4) 0xf)
  else if index <=? 12 then
    Some (0xa0 + Z.land (Z.shiftr functions 8) 0xf)
  else None.

Definition housedcc_fleet_set (os_write : Z) (id name : string) (state : Z)
                              (w : World) : Z * World :=
  let '(f, st) := w in
  let cursor := housedcc_fleet_find id f in
  match vehicle_at cursor f with
  | None => (0, w)
  | Some v =>
      match v_model v ≫= (fun m => Models f !! m) with
      | None => (0, w)
      | Some model =>
          let i := scan (fun fn => String.eqb name (fn_name fn))
                        (m_functions model) 0 in
          match (if i <? 0 then None else m_functions model !! Z.to_nat i) with
          | None => (0, w)
          | Some fn =>
              let index := fn_index fn in
              let functions :=
                housedcc_fleet_set_mask index state (v_functions v) in
              let f := update_vehicle cursor (set_functions functions) f in
              match housedcc_fleet_set_instruction index functions with
              | None => (0, (f, st))
              | Some instruction =>
                  let '(r, st) :=
                    housedcc_pidcc_function os_write (v_address v)
                                            instruction st in
                  (r, (f, st))
              end
          end
      end
  end.

End Platform.

(** ** Definitions that come from the specification *)

(** Stated from the specification: the inverse of the speed table, the step
    whose table entry is [code] (or [-1] when there is none). *)
Definition cssss2speed (code : Z) : Z := scan (Z.eqb code) speed2cssss 0.

(** Stated from the specification: a live (not tombstoned) vehicle other than
    [id] holds [address]. *)
Definition held_by_other_live (id : string) (address : Z) (f : Fleet) : bool :=
  existsb (fun v => negb (String.eqb (v_id v) "")
                    && negb (String.eqb (v_id v) id)
                    && (v_address v =? address))
          (Vehicles f).

(** Stated from the specification: the second accessory field with the
    three high address bits inverted (exclusive-or with [0x70]). *)
Definition accessory_field_inverted (address device value : Z) : Z :=
  0x80 + Z.lxor 0x70 (Z.shiftr (Z.land address 0x1c0) 2)
  + (if value =? 0 then 0 else 0x08) + Z.land device 0x0f.

(** A transport with a transmission pin configured and no status line
    received yet. *)
Definition PiDcc_configured : PiDcc := set_GpioPins 18 0 PiDcc_initial.

(** The scenario of the specification: model "E8" with a headlight and a
    bell, vehicle "UP844" at address 44. *)
Definition fleet_UP844 : Fleet :=
  housedcc_fleet_add "UP844" (Some "E8") 44
    (housedcc_fleet_declare true "E8" "engine" 2 ["Light:13"; "Bell:1"]
       Fleet_initial).

(** A shift outside the defined range taken modulo 32, as x86 does. *)
Definition shl_mod32 (n : Z) : Z := Z.shiftl 1 (n mod 32).

(** "UP844" after [move -20] and [set Light on]. *)
Definition world_UP844_running : World :=
  snd (housedcc_fleet_set shl_mod32 12 "UP844" "Light" 1
         (snd (housedcc_fleet_move 12 "UP844" (-20)
                 (fleet_UP844, PiDcc_configured)))).

(** A model whose functions carry the index 0, no index at all (the
    unassigned [-1] of a signed [char]) and the index 14. *)
Definition fleet_unassigned : Fleet :=
  housedcc_fleet_add "UP844" (Some "E8") 44
    (housedcc_fleet_declare true "E8" "engine" 3 ["Horn:0"; "Bell"; "Aux:14"]
       Fleet_initial).

(** "UP844" added, then deleted. *)
Definition fleet_UP844_deleted : Fleet :=
  housedcc_fleet_delete "UP844" fleet_UP844.

(** A supervision pass during which nothing happens to the worker. *)
Definition os_quiet : OsAnswers := mkOsAnswers 0 None None 0.

(** ** Abbreviations used in the statements *)

(** Everything the move encoder computes from a step in [-28, 28], checked
    entry by entry: the sum of the three fields is their bitwise OR, and the
    inverse table gives the magnitude back. *)
Definition move_step_ok (s : Z) : bool :=
  let code := Z.land (nth (Z.to_nat (Z.abs s)) speed2cssss 0) 0x1f in
  let dir := if s >? 0 then 0x20 else 0 in
  (0x40 + dir + code =? Z.lor (Z.lor 0x40 dir) code)
  && (cssss2speed code =? Z.abs s)
  && (code =? nth (Z.to_nat (Z.abs s)) speed2cssss 0).

(** The fields that every accepted call assigns. *)
Definition added (thismodel : option nat) (a : Z) (v : DccVehicle) : DccVehicle :=
  set_model thismodel (set_functions 0 (set_speed 0 (set_address a v))).

Definition model_of_add (model : option string) (f : Fleet) : option nat :=
  match model with
  | None => None
  | Some _ =>
      let cursor := housedcc_fleet_find_model model f in
      if 0 <=? cursor then Some (Z.to_nat cursor) else None
  end.

(** The three ways the transport fails: the worker reported a full queue, no
    transmission pin is configured, or [write] did not take the line. *)
Definition transport_fails (w : Z) (st : PiDcc) : Prop :=
  PiDccState st = "*"%char \/ housedcc_pidcc_enabled st = false \/ w <= 0.

(** The clamp of [housedcc_fleet_move]. *)
Definition clamp31 (speed : Z) : Z :=
  if speed <? -31 then -31 else if speed >? 31 then 31 else speed.

(** The function named [name] in the model that vehicle [v] points to. *)
Definition function_of (name : string) (v : DccVehicle) (f : Fleet)
  : option DccFunction :=
  model ← v_model v ≫= (fun m => Models f !! m);
  let i := scan (fun fn => String.eqb name (fn_name fn)) (m_functions model) 0 in
  if i <? 0 then None else m_functions model !! Z.to_nat i.

(** ** housedcc_pidcc.c: the status receive mechanism *)

(** [sizeof (PiDccBuffer)]. *)
Definition PIDCC_BUFFER_SIZE : Z := 1024.

(** The three [static] variables of the receive mechanism. *)
Record PiDccReceiver := mkPiDccReceiver {
  PiDccBuffer : list ascii;           (* [char PiDccBuffer[1024]] *)
  PiDccBufferConsumer : Z;
  PiDccBufferProducer : Z
}.

Definition PiDccReceiver_initial : PiDccReceiver :=
  mkPiDccReceiver (replicate 1024 Ascii.zero) 0 0.

(** [c == '\n' || c == '\r'] *)
Definition is_line_end (c : ascii) : bool :=
  Ascii.eqb c "010"%char || Ascii.eqb c "013"%char.

(** The [for] loop of [housedcc_pidcc_receive], [n] iterations from [i]. *)
Fixpoint receive_loop (n : nat) (now i : Z) (buffer : list ascii)
                      (consumer : Z) (st : PiDcc)
  : list ascii * Z * PiDcc :=
  match n with
  | O => (buffer, consumer, st)
  | S n' =>
      let c := nth (Z.to_nat i) buffer Ascii.zero in
      if is_line_end c then
        if i <=? consumer then receive_loop n' now (i + 1) buffer consumer st
        else
          let buffer := <[Z.to_nat i := Ascii.zero]> buffer in
          let st := housedcc_pidcc_decode now
                      (drop (Z.to_nat consumer) buffer) st in
          receive_loop n' now (i + 1) buffer (i + 1) st
      else receive_loop n' now (i + 1) buffer consumer st
  end.

(** What [read (PiDccListen, ...)] finds: the bytes pending in the pipe
    ([None] when the call fails with -1), of which it delivers at most the
    count asked for, and the text of [strerror (errno)]. *)
Record OsRead := mkOsRead {
  os_pending : option (list ascii);
  os_strerror : string
}.

(** [now] is what [time(0)] returns while the callback runs. *)
Definition housedcc_pidcc_receive (os : OsRead) (now : Z)
                                  (rx : PiDccReceiver) (st : PiDcc)
  : PiDccReceiver * PiDcc :=
  let producer := PiDccBufferProducer rx in
  let count := PIDCC_BUFFER_SIZE - producer - 1 in
  let data := match os_pending os with
              | None => []
              | Some bytes => take (Z.to_nat count) bytes
              end in
  let received := match os_pending os with
                  | None => -1
                  | Some _ => Z.of_nat (length data)
                  end in
  if received <=? 0 then
    (rx, housecapture_record "ERROR" ("read(): " +:+ os_strerror os) st)
  else
    let buffer := take (Z.to_nat producer) (PiDccBuffer rx) ++ data
                  ++ drop (Z.to_nat (producer + received)) (PiDccBuffer rx) in
    let buffer := <[Z.to_nat (producer + received) := Ascii.zero]> buffer in
    let producer := producer + received in
    let '(buffer, consumer, st) :=
      receive_loop (Z.to_nat (producer - PiDccBufferConsumer rx)) now
                   (PiDccBufferConsumer rx) buffer
                   (PiDccBufferConsumer rx) st in
    if consumer >=? producer then (mkPiDccReceiver buffer 0 0, st)
    else if producer >=? PIDCC_BUFFER_SIZE - 128 then
      let length := producer - consumer in
      (mkPiDccReceiver
         (take (Z.to_nat length) (drop (Z.to_nat consumer) buffer)
          ++ drop (Z.to_nat length) buffer)
         0 length, st)
    else (mkPiDccReceiver buffer consumer producer, st).

(** ** Abbreviations for the receive mechanism *)

(** The bytes received and not yet consumed. *)
Definition pending (rx : PiDccReceiver) : list ascii :=
  take (Z.to_nat (PiDccBufferProducer rx - PiDccBufferConsumer rx))
       (drop (Z.to_nat (PiDccBufferConsumer rx)) (PiDccBuffer rx)).

(** The indices stay inside the buffer, with room for the terminator. *)
Definition receiver_ok (rx : PiDccReceiver) : Prop :=
  length (PiDccBuffer rx) = 1024%nat
  /\ 0 <= PiDccBufferConsumer rx <= PiDccBufferProducer rx
  /\ PiDccBufferProducer rx <= 1023.

(** No line end past the first pending byte. *)
Definition unframed (bytes : list ascii) : bool :=
  forallb (fun c => negb (is_line_end c)) (tail bytes).

(** The framing that the loop performs, on the byte stream alone:
    [segment] is what follows the last consumed line. A line end closes a
    non-empty segment, which is handed over as the decoder finds it in
    memory: the segment, the NUL that replaces the line end, and the bytes
    that follow. A line end that meets an empty segment opens the next one
    by staying in it. *)
Fixpoint frame (segment bytes : list ascii)
  : list (list ascii) * list ascii :=
  match bytes with
  | [] => ([], segment)
  | c :: rest =>
      if is_line_end c then
        match segment with
        | [] => frame [c] rest
        | _ :: _ =>
            let '(lines, remainder) := frame [] rest in
            ((segment ++ Ascii.zero :: rest) :: lines, remainder)
        end
      else frame (segment ++ [c]) rest
  end.

(** The decoder applied to each line in turn. *)
Definition decode_lines (now : Z) (lines : list (list ascii)) (st : PiDcc)
  : PiDcc :=
  fold_left (fun st line => housedcc_pidcc_decode now line st) lines st.

(** The two properties of the receiver that every call keeps. *)
Definition receiver_inv (rx : PiDccReceiver) : Prop :=
  receiver_ok rx /\ unframed (pending rx) = true.


Definition LF : ascii := "010"%char.
Definition CR : ascii := "013"%char.




(** The producer index that a call ends with: [reached] is the producer
    after the read, [left_over] the bytes that stay pending. *)
Definition new_producer (reached : Z) (left_over : list ascii) : Z :=
  match left_over with
  | [] => 0
  | _ :: _ =>
      if 896 <=? reached then Z.of_nat (length left_over) else reached
  end.

(** ** The transport as the event loop drives it *)

(** The calls that reach [housedcc_pidcc.c], each with what the operating
    system answers during the call. *)
Inductive PiDccEvent :=
| EvReceive (os : OsRead) (now : Z)
| EvPeriodic (os : OsAnswers) (now : Z)
| EvConfig (os_write pina pinb : Z)
| EvMove (os_write address speed : Z)
| EvStop (os_write address emergency : Z)
| EvFunction (os_write address instruction : Z)
| EvAccessory (os_write address device value : Z).

Definition pidcc_step (e : PiDccEvent) (s : PiDccReceiver * PiDcc)
  : PiDccReceiver * PiDcc :=
  let '(rx, st) := s in
  match e with
  | EvReceive os now => housedcc_pidcc_receive os now rx st
  | EvPeriodic os now => (rx, housedcc_pidcc_periodic os now st)
  | EvConfig w pina pinb => (rx, housedcc_pidcc_config w pina pinb st)
  | EvMove w address speed => (rx, snd (housedcc_pidcc_move w address speed st))
  | EvStop w address emergency =>
      (rx, snd (housedcc_pidcc_stop w address emergency st))
  | EvFunction w address instruction =>
      (rx, snd (housedcc_pidcc_function w address instruction st))
  | EvAccessory w address device value =>
      (rx, snd (housedcc_pidcc_accessory w address device value st))
  end.

Definition pidcc_run (events : list PiDccEvent) (s : PiDccReceiver * PiDcc)
  : PiDccReceiver * PiDcc :=
  fold_left (fun s e => pidcc_step e s) events s.

(** The readiness characters that the decoder stores, and the initial NUL. *)
Definition readiness_known (c : ascii) : bool :=
  Ascii.eqb c Ascii.zero || Ascii.eqb c "#"%char
  || Ascii.eqb c "%"%char || Ascii.eqb c "*"%char.

(** The part of the transport state that only status lines and the
    periodic tick may change. *)
Definition link_state (st : PiDcc) : Z * Z * Z * ascii * Z :=
  (PiDccProcess st, PiDccTransmit st, PiDccListen st,
   PiDccState st, PiDccStateDeadline st).

(** Each command either gives up before the transport, leaving the state as
    it is, or hands one line to [housedcc_pidcc_write]. *)
Definition gives_up_or_writes (w : Z) (st : PiDcc) (r : Z * PiDcc) : Prop :=
  r = (0, st) \/ exists text, r = housedcc_pidcc_write w text st.

(** The 28-step speed field of the protocol: the low four bits count the
    steps in pairs from 2 up, bit 4 tells the two steps of a pair apart. *)
Definition cssss_of_step (step : Z) : Z :=
  (step + 3) / 2 + 16 * ((step + 1) mod 2).

(** The worker process and the two descriptors. *)
Definition worker_link (st : PiDcc) : Z * Z * Z :=
  (PiDccProcess st, PiDccTransmit st, PiDccListen st).

(** ** The registry as the request handlers drive it *)

(** The calls that reach [housedcc_fleet.c] from the request handlers. *)
Inductive FleetCommand :=
| CmdDeclare (model type : string) (count : Z) (functions : list string)
| CmdAdd (id : string) (model : option string) (address : Z)
| CmdDelete (id : string)
| CmdMove (os_write : Z) (id : string) (speed : Z)
| CmdStop (os_write : Z) (id : string) (emergency : Z)
| CmdSet (os_write : Z) (id name : string) (state : Z)
| CmdStopped.

Definition fleet_step (char_signed : bool) (shl : Z -> Z) (c : FleetCommand)
                      (w : World) : World :=
  match c with
  | CmdDeclare model type count functions =>
      (housedcc_fleet_declare char_signed model type count functions (fst w),
       snd w)
  | CmdAdd id model address =>
      (housedcc_fleet_add id model address (fst w), snd w)
  | CmdDelete id => (housedcc_fleet_delete id (fst w), snd w)
  | CmdMove os_write id speed => snd (housedcc_fleet_move os_write id speed w)
  | CmdStop os_write id emergency =>
      snd (housedcc_fleet_stop os_write id emergency w)
  | CmdSet os_write id name state =>
      snd (housedcc_fleet_set shl os_write id name state w)
  | CmdStopped => (housedcc_fleet_stopped (fst w), snd w)
  end.

Definition fleet_run (char_signed : bool) (shl : Z -> Z)
                     (commands : list FleetCommand) (w : World) : World :=
  fold_left (fun w c => fleet_step char_signed shl c w) commands w.

(** The addresses of all the slots, tombstones included. *)
Definition addresses (f : Fleet) : list Z := v_address <$> Vehicles f.

(** Every slot holds a valid address and no two slots hold the same. *)
Definition addresses_inv (f : Fleet) : Prop :=
  NoDup (addresses f) /\ Forall (fun a => 1 <= a <= 127) (addresses f).

(** What the fields of the C structures can hold. *)
Definition vehicle_fits (models : nat) (v : DccVehicle) : Prop :=
  (String.length (v_id v) <= 14)%nat
  /\ -31 <= v_speed v <= 31
  /\ -32768 <= v_functions v < 32768
  /\ match v_model v with Some m => (m < models)%nat | None => True end.

Definition function_fits (fn : DccFunction) : Prop :=
  (String.length (fn_name fn) <= 14)%nat /\ -128 <= fn_index fn <= 255.

Definition model_fits (m : DccModel) : Prop :=
  (String.length (m_name m) <= 14)%nat
  /\ (length (m_functions m) <= 16)%nat
  /\ Forall function_fits (m_functions m).

Definition storage_inv (f : Fleet) : Prop :=
  Forall (vehicle_fits (length (Models f))) (Vehicles f)
  /\ Forall model_fits (Models f).

(** What move, stop and set do to the slot they update: the identifier, the
    address and the model stay, speed and mask stay within their types. *)
Definition state_update (g : DccVehicle -> DccVehicle) : Prop :=
  forall v : DccVehicle,
    v_id (g v) = v_id v /\ v_address (g v) = v_address v
    /\ v_model (g v) = v_model v
    /\ (-31 <= v_speed v <= 31 -> -31 <= v_speed (g v) <= 31)
    /\ (-32768 <= v_functions v < 32768 ->
        -32768 <= v_functions (g v) < 32768).

(** No two slots carry the same non-empty identifier. *)
Definition ids_inv (f : Fleet) : Prop :=
  forall (i j : nat) (x y : DccVehicle),
    Vehicles f !! i = Some x -> Vehicles f !! j = Some y ->
    v_id x = v_id y -> v_id x <> "" -> i = j.

(** The identifier of an add fits the [char[15]] field. *)
Definition short_ids (c : FleetCommand) : Prop :=
  match c with
  | CmdAdd id _ _ => (String.length id <= 14)%nat
  | _ => True
  end.

(** ** housedcc_fleet.c: the status in JSON *)

Definition housedcc_fleet_toname (type : Z) : string :=
  if type =? VEHICLE_TYPE_ENGINE then "engine"
  else if type =? VEHICLE_TYPE_CAR then "car"
  else "dummy".

(** The double quote of the JSON texts. *)
Definition dq : string := String "034"%char "".

(** ["name":] *)
Definition json_key (name : string) : string := dq +:+ name +:+ dq +:+ ":".

(** ["text"] *)
Definition json_string (text : string) : string := dq +:+ text +:+ dq.

(** [cursor += snprintf (buffer+cursor, size-cursor, ...); if (cursor >=
    size) goto overflow;] on the text built so far; [None] once the jump to
    [overflow] is taken. *)
Definition print (size : Z) (piece : string) (buffer : option string)
  : option string :=
  match buffer with
  | None => None
  | Some text =>
      if Z.of_nat (String.length (text +:+ piece)) >=? size then None
      else Some (text +:+ piece)
  end.

(** The loop over the functions of a model: ["name":0] or ["name":1]. *)
Fixpoint status_devices (shl : Z -> Z) (size mask : Z) (prefix2 : string)
                        (functions : list DccFunction)
                        (buffer : option string) : option string :=
  match functions with
  | [] => buffer
  | fn :: rest =>
      let on := Z.land mask (int_shl_1 shl (fn_index fn - 1)) in
      let buffer :=
        print size (prefix2 +:+ json_key (fn_name fn)
                            +:+ fmt_d (if on =? 0 then 0 else 1)) buffer in
      status_devices shl size mask "," rest buffer
  end.

(** The body of the loop over the vehicles, for a slot in use. *)
Definition status_vehicle (shl : Z -> Z) (size : Z) (models : list DccModel)
                          (v : DccVehicle) (prefix : string)
                          (buffer : option string) : option string :=
  let model := v_model v ≫= (fun m => models !! m) in
  let modelinfo :=
    match model with
    | Some m =>
        snprintf 72 ("," +:+ json_key "model" +:+ json_string (m_name m)
                     +:+ "," +:+ json_key "type"
                     +:+ json_string (housedcc_fleet_toname (m_type m)))
    | None => ""
    end in
  let buffer :=
    print size (prefix +:+ "{" +:+ json_key "id" +:+ json_string (v_id v)
                +:+ "," +:+ json_key "address" +:+ fmt_d (v_address v)
                +:+ "," +:+ json_key "speed" +:+ fmt_d (v_speed v)
                +:+ modelinfo) buffer in
  let buffer :=
    match model with
    | Some m =>
        if (0 <? length (m_functions m))%nat then
          print size "}"
            (status_devices shl size (v_functions v)
               ("," +:+ json_key "devices" +:+ "{")
               (m_functions m) buffer)
        else buffer
    | None => buffer
    end in
  print size "}" buffer.

(** The loop over the vehicles; the result is [listed] and the buffer. *)
Fixpoint status_vehicles (shl : Z -> Z) (size : Z) (models : list DccModel)
                         (vehicles : list DccVehicle) (prefix : string)
                         (listed : Z) (buffer : option string)
  : Z * option string :=
  match vehicles with
  | [] => (listed, buffer)
  | v :: rest =>
      if String.eqb (v_id v) "" then
        status_vehicles shl size models rest prefix listed buffer
      else
        status_vehicles shl size models rest "," (listed + 1)
                        (status_vehicle shl size models v prefix buffer)
  end.

(** The result is the value returned and what the call wrote at the start
    of [buffer]: [None] when it wrote nothing, [Some ""] after an
    overflow. [size] is positive. *)
Definition housedcc_fleet_status (shl : Z -> Z) (size : Z) (f : Fleet)
  : Z * option string :=
  if VehiclesCount f <=? 0 then (0, None)
  else
    let '(listed, buffer) :=
      status_vehicles shl size (Models f) (Vehicles f)
                      ("," +:+ json_key "vehicles" +:+ "[") 0 (Some "") in
    let buffer := if 0 <? listed then print size "]" buffer else buffer in
    match buffer with
    | None => (0, Some "")
    | Some text =>
        (Z.of_nat (String.length text), if 0 <? listed then Some text else None)
    end.

(** The slots that are not tombstones. *)
Definition live_vehicles (f : Fleet) : list DccVehicle :=
  filter (fun v => v_id v <> "") (Vehicles f).

(** The text built so far leaves room for its terminator. *)
Definition fits (size : Z) (buffer : option string) : Prop :=
  match buffer with
  | Some text => Z.of_nat (String.length text) < size
  | None => True
  end.

(** ** housedcc_consist.c: what the handlers call *)

Definition housedcc_consist_move (id : string) (speed : Z) : Z := 0.

Definition housedcc_consist_stop (id : string) (emergency : Z) : Z := 0.

Definition housedcc_consist_status (size : Z) : Z := 0.

(** ** housedcc.c: the request handlers *)

(** The service: the change counter, the registry and the transport. *)
Record Server := mkServer {
  DccLatest : Z;
  Trains : World
}.

Definition set_Trains (w : World) (s : Server) : Server :=
  mkServer (DccLatest s) w.

(** What a handler answers: [echttp_error (code, text); return "";] or the
    JSON text of [JsonBuffer]. *)
Inductive Reply :=
| ReplyError (code : Z) (text : string)
| ReplyJson (body : string).

Definition JsonBuffer_size : Z := 65537.

(** [now] is [time(0)]. *)
Definition dcc_initial (now : Z) (s : Server) : Server :=
  if DccLatest s =? 0
  then mkServer (Z.land now 0xffff * 100) (Trains s)
  else s.

Definition dcc_changed (now : Z) (s : Server) : Server :=
  let s := dcc_initial now s in
  mkServer (DccLatest s + 1) (Trains s).

(** [known] is the request parameter of that name. *)
Definition dcc_same (now : Z) (known : option string) (s : Server)
  : bool * Server :=
  let s := dcc_initial now s in
  match known with
  | Some text => (atoi text =? DccLatest s, s)
  | None => (false, s)
  end.

(** [header] is the text that [dcc_header] prints (host, time, group and the
    change counter), shorter than [JsonBuffer]. *)
Definition dcc_status (shl : Z -> Z) (now : Z) (header : string)
                      (known : option string) (s : Server) : Reply * Server :=
  let '(same, s) := dcc_same now known s in
  if same then (ReplyError 304 "Not Modified", s)
  else
    let cursor := Z.of_nat (String.length header) in
    let '(n, written) :=
      housedcc_fleet_status shl (JsonBuffer_size - cursor) (fst (Trains s)) in
    let text := match written with Some t => t | None => "" end in
    let cursor := cursor + n in
    let cursor' := cursor + housedcc_consist_status (JsonBuffer_size - cursor) in
    (ReplyJson (header +:+ text
                +:+ snprintf (Z.to_nat (JsonBuffer_size - cursor')) "}}"), s).

(** [isdigit(id[0])] *)
Definition starts_with_digit (id : string) : bool :=
  match id with
  | String c _ => is_digit c
  | EmptyString => false
  end.

(** [w] is the answer of [write], should the request reach it. *)
Definition dcc_move (shl : Z -> Z) (now : Z) (header : string) (w : Z)
                    (id speed known : option string) (s : Server)
  : Reply * Server :=
  match id, speed with
  | None, _ => (ReplyError 404 "missing device ID", s)
  | Some _, None => (ReplyError 400 "missing speed value", s)
  | Some id, Some speed =>
      let speedvalue := atoi speed in
      if starts_with_digit id then
        let '(r, st) :=
          housedcc_pidcc_move w (atoi id) speedvalue (snd (Trains s)) in
        let s := set_Trains (fst (Trains s), st) s in
        if r =? 0 then (ReplyError 500 "DCC failure", s)
        else dcc_status shl now header known (dcc_changed now s)
      else if housedcc_consist_move id speedvalue =? 0 then
        let '(r, t) := housedcc_fleet_move w id speedvalue (Trains s) in
        let s := set_Trains t s in
        if r =? 0 then (ReplyError 404 "invalid ID", s)
        else dcc_status shl now header known (dcc_changed now s)
      else dcc_status shl now header known (dcc_changed now s)
  end.

Definition dcc_stop (shl : Z -> Z) (now : Z) (header : string) (w : Z)
                    (id urgent known : option string) (s : Server)
  : Reply * Server :=
  let emergency := match urgent with Some text => atoi text | None => 0 end in
  match id with
  | None =>
      let '(r, st) := housedcc_pidcc_stop w 0 emergency (snd (Trains s)) in
      if r =? 0 then
        (ReplyError 500 "DCC failure", set_Trains (fst (Trains s), st) s)
      else
        let s := set_Trains (housedcc_fleet_stopped (fst (Trains s)), st) s in
        dcc_status shl now header known (dcc_changed now s)
  | Some id =>
      if starts_with_digit id then
        let '(r, st) :=
          housedcc_pidcc_stop w (atoi id) emergency (snd (Trains s)) in
        let s := set_Trains (fst (Trains s), st) s in
        if r =? 0 then (ReplyError 500 "DCC failure", s)
        else dcc_status shl now header known (dcc_changed now s)
      else if housedcc_consist_stop id emergency =? 0 then
        let '(r, t) := housedcc_fleet_stop w id emergency (Trains s) in
        let s := set_Trains t s in
        if r =? 0 then (ReplyError 404 "invalid ID", s)
        else dcc_status shl now header known (dcc_changed now s)
      else dcc_status shl now header known (dcc_changed now s)
  end.

Definition dcc_set (shl : Z -> Z) (now : Z) (header : string) (w : Z)
                   (id device state known : option string) (s : Server)
  : Reply * Server :=
  match id, device, state with
  | None, _, _ => (ReplyError 404 "missing vehicle ID", s)
  | Some _, None, _ => (ReplyError 400 "missing device", s)
  | Some _, Some _, None => (ReplyError 400 "missing state value", s)
  | Some id, Some device, Some state =>
      if starts_with_digit id then
        let '(r, st) :=
          housedcc_pidcc_function w (atoi id) (atoi state) (snd (Trains s)) in
        let s := set_Trains (fst (Trains s), st) s in
        if r =? 0 then (ReplyError 500 "DCC failure", s)
        else dcc_status shl now header known (dcc_changed now s)
      else
        match (if String.eqb state "on" then Some 1
               else if String.eqb state "off" then Some 0 else None) with
        | None => (ReplyError 400 "invalid state", s)
        | Some statevalue =>
            let '(r, t) :=
              housedcc_fleet_set shl w id device statevalue (Trains s) in
            let s := set_Trains t s in
            if r =? 0 then (ReplyError 404 "invalid ID", s)
            else dcc_status shl now header known (dcc_changed now s)
        end
  end.

(** The three requests that drive the trains. *)
Inductive Request :=
| ReqMove (id speed : option string)
| ReqStop (id urgent : option string)
| ReqSet (id device state : option string).

Definition dcc_request (shl : Z -> Z) (now : Z) (header : string) (w : Z)
                       (known : option string) (r : Request) (s : Server)
  : Reply * Server :=
  match r with
  | ReqMove id speed => dcc_move shl now header w id speed known s
  | ReqStop id urgent => dcc_stop shl now header w id urgent known s
  | ReqSet id device state => dcc_set shl now header w id device state known s
  end.

(** A numeral that [atoi] reads is the value of an [int]: the C library
    leaves [atoi] undefined when it is not, and [atoi] of this file gives
    the value of the numeral. *)
Definition numeral_is_int (text : option string) : Prop :=
  match text with
  | Some t => is_int (atoi t)
  | None => True
  end.

(** The numerals of a request are [int] values, and the speed is above
    [INT_MIN], where the [abs] of [housedcc_pidcc_move] is defined. *)
Definition request_defined (r : Request) : Prop :=
  match r with
  | ReqMove id speed =>
      numeral_is_int id /\ numeral_is_int speed
      /\ match speed with Some t => INT_MIN < atoi t | None => True end
  | ReqStop id urgent => numeral_is_int id /\ numeral_is_int urgent
  | ReqSet id device state => numeral_is_int id /\ numeral_is_int state
  end.

(** What the status needs to be printed as the source prints it: the header
    leaves room in [JsonBuffer], and the numeral of [known], which [atol]
    reads, is the value of a [long]. *)
Definition status_defined (header : string) (known : option string) : Prop :=
  Z.of_nat (String.length header) < JsonBuffer_size
  /\ match known with
     | Some t => -9223372036854775808 <= atoi t <= 9223372036854775807
     | None => True
     end.

(** The request was carried out: the answer is the status, or 304 when the
    client happens to know the new counter. *)
Definition carried_out (r : Reply) : bool :=
  match r with
  | ReplyJson _ => true
  | ReplyError code _ => code =? 304
  end.

(** * Properties *)

(** ** Arithmetic of the C types *)

Lemma land_0x7f (a : Z) : 0 <= a < 128 -> Z.land a 0x7f = a.
Proof.
  intros Ha. change 0x7f with (Z.ones 7).
  rewrite Z.land_ones by lia. apply Z.mod_small. lia.
Qed.

Lemma snprintf_short (size : nat) (s : string) :
  (String.length s <= size - 1)%nat -> snprintf size s = s.
Proof.
  unfold snprintf. generalize (size - 1)%nat as n.
  induction s as [|c s IH]; intros [|n] Hn; simpl in *; try reflexivity; try lia.
  f_equal. apply IH. lia.
Qed.

(** ** The transport: [housedcc_pidcc_write] *)

Lemma housedcc_pidcc_write_dry_run w text st :
  housedcc_pidcc_enabled st = false ->
  housedcc_pidcc_write w text st = (0, housecapture_record "BUILT" text st).
Proof. intros H. unfold housedcc_pidcc_write. rewrite H. reflexivity. Qed.

Lemma housedcc_pidcc_write_failed w text st :
  housedcc_pidcc_enabled st = true -> w <= 0 ->
  housedcc_pidcc_write w text st = (0, housecapture_record "WRITE" text st).
Proof.
  intros H Hw. unfold housedcc_pidcc_write. rewrite H. simpl.
  destruct (Z.leb_spec w 0); [reflexivity | lia].
Qed.

Lemma housedcc_pidcc_write_done w text st :
  housedcc_pidcc_enabled st = true -> 0 < w ->
  housedcc_pidcc_write w text st =
    (1, pipe_accepts w (snprintf 256 (text +:+ String "010"%char ""))
          (housecapture_record "WRITE" text st)).
Proof.
  intros H Hw. unfold housedcc_pidcc_write. rewrite H. simpl.
  destruct (Z.leb_spec w 0); [lia | reflexivity].
Qed.

(** A failed transmission leaves the pipe and the readiness state alone. *)
Lemma housedcc_pidcc_write_zero w text st :
  fst (housedcc_pidcc_write w text st) = 0 ->
  PiDccWritten (snd (housedcc_pidcc_write w text st)) = PiDccWritten st.
Proof.
  unfold housedcc_pidcc_write.
  destruct (housedcc_pidcc_enabled st); simpl; [|reflexivity].
  destruct (w <=? 0); simpl; [reflexivity | discriminate].
Qed.

Lemma housedcc_pidcc_write_capture w text st :
  exists action,
    PiDccCaptured (snd (housedcc_pidcc_write w text st)) =
      PiDccCaptured st ++ [(action, text)].
Proof.
  unfold housedcc_pidcc_write.
  destruct (housedcc_pidcc_enabled st); simpl.
  - exists "WRITE". destruct (w <=? 0); reflexivity.
  - exists "BUILT". reflexivity.
Qed.

Lemma pins_unset_disabled st :
  GpioPinA st <= 0 -> GpioPinB st <= 0 -> housedcc_pidcc_enabled st = false.
Proof.
  intros Ha Hb. unfold housedcc_pidcc_enabled.
  destruct (Z.ltb_spec 0 (GpioPinA st)); [lia|].
  destruct (Z.ltb_spec 0 (GpioPinB st)); [lia|reflexivity].
Qed.

Lemma not_queue_full st :
  PiDccState st <> "*"%char -> Ascii.eqb (PiDccState st) "*" = false.
Proof. intros H. apply Ascii.eqb_neq. exact H. Qed.

(** ** The speed table *)

Lemma move_step_ok_all (s : Z) : -28 <= s <= 28 -> move_step_ok s = true.
Proof.
  intros Hs.
  assert (H : Forall (fun s => move_step_ok s = true) (seqZ (-28) 57))
    by (vm_compute; repeat constructor).
  rewrite Forall_forall in H. apply H. apply elem_of_seqZ. lia.
Qed.

Lemma speed2cssss_injective (i j : Z) :
  0 <= i <= 28 -> 0 <= j <= 28 ->
  nth (Z.to_nat i) speed2cssss 0 = nth (Z.to_nat j) speed2cssss 0 -> i = j.
Proof.
  intros Hi Hj Heq.
  pose proof (move_step_ok_all i ltac:(lia)) as Ci.
  pose proof (move_step_ok_all j ltac:(lia)) as Cj.
  unfold move_step_ok in Ci, Cj.
  rewrite !andb_true_iff, !Z.eqb_eq in Ci, Cj.
  destruct Ci as [[_ Di] Ei], Cj as [[_ Dj] Ej].
  rewrite Z.abs_eq in * by lia.
  rewrite Ei in Di. rewrite Ej in Dj. rewrite Heq in Di. congruence.
Qed.

(** ** What each encoder hands to the transport *)

Lemma housedcc_pidcc_move_sends (w a s : Z) (st : PiDcc) :
  1 <= a <= 127 -> Z.abs s <= 28 -> PiDccState st <> "*"%char ->
  housedcc_pidcc_move w a s st =
    housedcc_pidcc_write w
      (send_command a
         (0x40 + (if s >? 0 then 0x20 else 0)
          + Z.land (nth (Z.to_nat (Z.abs s)) speed2cssss 0) 0x1f)) st.
Proof.
  intros Ha Hs Hst. unfold housedcc_pidcc_move.
  destruct (Z.leb_spec a 0); [lia|].
  destruct (Z.geb_spec a 128); [lia|]. simpl orb. cbv iota.
  rewrite (not_queue_full _ Hst).
  destruct (Z.gtb_spec (Z.abs s) 28); [lia|].
  rewrite land_0x7f by lia. reflexivity.
Qed.

Lemma housedcc_pidcc_move_over_limit (w a s : Z) (st : PiDcc) :
  28 < Z.abs s -> housedcc_pidcc_move w a s st = (0, st).
Proof.
  intros Hs. unfold housedcc_pidcc_move.
  destruct ((a <=? 0) || (a >=? 128)); [reflexivity|].
  destruct (Ascii.eqb (PiDccState st) "*"); [reflexivity|].
  destruct (Z.gtb_spec (Z.abs s) 28); [reflexivity|lia].
Qed.

Lemma housedcc_pidcc_stop_sends (w a emergency : Z) (st : PiDcc) :
  0 <= a <= 127 ->
  housedcc_pidcc_stop w a emergency st =
    housedcc_pidcc_write w
      (send_command a (if emergency =? 0 then 64 else 65)) st.
Proof.
  intros Ha. unfold housedcc_pidcc_stop.
  destruct (Z.ltb_spec a 0); [lia|].
  destruct (Z.geb_spec a 128); [lia|]. simpl orb. cbv iota.
  rewrite land_0x7f by lia. destruct (emergency =? 0); reflexivity.
Qed.

Lemma housedcc_pidcc_function_sends (w a instruction : Z) (st : PiDcc) :
  a < 128 -> PiDccState st <> "*"%char ->
  housedcc_pidcc_function w a instruction st =
    housedcc_pidcc_write w (send_command (Z.land a 0x7f) instruction) st.
Proof.
  intros Ha Hst. unfold housedcc_pidcc_function.
  destruct (Z.geb_spec a 128); [lia|].
  rewrite (not_queue_full _ Hst). reflexivity.
Qed.

(** The second field carries bits 6..8 of the address as they are: the
    exclusive-or in the source is with 0. *)
Lemma housedcc_pidcc_accessory_sends (w a device value : Z) (st : PiDcc) :
  a < 512 -> PiDccState st <> "*"%char ->
  housedcc_pidcc_accessory w a device value st =
    housedcc_pidcc_write w
      (send_command
         (0x80 + Z.land a 0x3f)
         (0x80 + Z.shiftr (Z.land a 0x1c0) 2
          + (if value =? 0 then 0 else 0x08) + Z.land device 0x0f)) st.
Proof.
  intros Ha Hst. unfold housedcc_pidcc_accessory.
  destruct (Z.geb_spec a 512); [lia|].
  rewrite (not_queue_full _ Hst), Z.lxor_0_l. reflexivity.
Qed.

Lemma housedcc_pidcc_accessory_rejects (w a device value : Z) (st : PiDcc) :
  512 <= a -> housedcc_pidcc_accessory w a device value st = (0, st).
Proof.
  intros Ha. unfold housedcc_pidcc_accessory.
  destruct (Z.geb_spec a 512); [reflexivity|lia].
Qed.

(** ** Encoder claims *)

(** What a call of [housedcc_pidcc_write] leaves behind, field by field. *)
Lemma housedcc_pidcc_write_outcome (w : Z) (text : string) (st : PiDcc) :
  let r := housedcc_pidcc_write w text st in
  PiDccCaptured (snd r) =
    PiDccCaptured st
    ++ [(if housedcc_pidcc_enabled st then "WRITE" else "BUILT", text)]
  /\ (housedcc_pidcc_enabled st = true -> 0 < w ->
        fst r = 1
        /\ PiDccWritten (snd r) =
             PiDccWritten st
             ++ [String.substring 0 (Z.to_nat w)
                   (snprintf 256 (text +:+ String "010"%char ""))])
  /\ (housedcc_pidcc_enabled st = false \/ w <= 0 ->
        fst r = 0 /\ PiDccWritten (snd r) = PiDccWritten st).
Proof.
  unfold housedcc_pidcc_write.
  destruct (housedcc_pidcc_enabled st) eqn:Hen; cbn [negb].
  - destruct (Z.leb_spec w 0) as [Hw|Hw]; cbn.
    + split; [reflexivity|]. split; [intros _ Hpos; lia|].
      intros _. split; reflexivity.
    + split; [reflexivity|]. split; [intros _ _; split; reflexivity|].
      intros [Hoff|Hneg]; [discriminate Hoff | lia].
  - cbn. split; [reflexivity|]. split; [intros Hon; discriminate Hon|].
    intros _. split; reflexivity.
Qed.

(** C1, the claim as stated fails: once the worker has reported a full
    queue, a move at address 44 and step 10, both within the ranges of the
    claim and with a transmission pin configured, returns 0 and emits no
    byte: nothing is written to the pipe and nothing is recorded. *)
Lemma housedcc_pidcc_move_not_emitted_when_full :
  let full := housedcc_pidcc_decode 100 (bytes_of "* queue full")
                PiDcc_configured in
  1 <= 44 <= 127 /\ 0 <= Z.abs 10 <= 28
  /\ housedcc_pidcc_enabled full = true
  /\ housedcc_pidcc_move 12 44 10 full = (0, full)
  /\ PiDccWritten (snd (housedcc_pidcc_move 12 44 10 full)) = []
  /\ PiDccCaptured (snd (housedcc_pidcc_move 12 44 10 full)) =
       [("FULL", "queue full")].
Proof.
  cbv zeta. split; [lia|]. split; [simpl; lia|].
  split; [reflexivity|]. split; [reflexivity|]. split; reflexivity.
Qed.

(** C1, amended: for every address in 1..127 and every step [s] with
    [|s| <= 28], [housedcc_pidcc_move], unless the readiness state is
    QueueFull (then it returns 0 and leaves the state as it is), emits the
    line [send address byte] where [byte] is [0x40] OR'd with the direction
    bit [0x20] exactly when [s > 0], OR'd with the low five bits of the table
    entry at [|s|]: the line is recorded, and with a pin configured and a
    pipe that takes bytes it is written and 1 is returned, otherwise 0 is
    returned and nothing is written. The table is injective on 0..28, so
    the inverse table gives [|s|] back from the five-bit field; and for
    [29 <= |s| <= 31] the encoder returns 0 and does nothing, although
    [housedcc_fleet_move] let the value through its clamp and stored it. *)
Theorem housedcc_pidcc_move_encoding (w a s : Z) (st : PiDcc) :
  1 <= a <= 127 ->
  (Z.abs s <= 28 ->
     let code := Z.land (nth (Z.to_nat (Z.abs s)) speed2cssss 0) 0x1f in
     let text :=
       send_command a (Z.lor (Z.lor 0x40 (if 0 <? s then 0x20 else 0)) code) in
     let r := housedcc_pidcc_move w a s st in
     (PiDccState st <> "*"%char ->
        r = housedcc_pidcc_write w text st
        /\ PiDccCaptured (snd r) =
             PiDccCaptured st
             ++ [(if housedcc_pidcc_enabled st then "WRITE" else "BUILT", text)]
        /\ (housedcc_pidcc_enabled st = true -> 0 < w ->
              fst r = 1
              /\ PiDccWritten (snd r) =
                   PiDccWritten st
                   ++ [String.substring 0 (Z.to_nat w)
                         (snprintf 256 (text +:+ String "010"%char ""))])
        /\ (housedcc_pidcc_enabled st = false \/ w <= 0 ->
              fst r = 0 /\ PiDccWritten (snd r) = PiDccWritten st))
     /\ (PiDccState st = "*"%char -> r = (0, st))
     /\ cssss2speed code = Z.abs s)
  /\ (forall i j : Z, 0 <= i <= 28 -> 0 <= j <= 28 ->
        nth (Z.to_nat i) speed2cssss 0 = nth (Z.to_nat j) speed2cssss 0 ->
        i = j)
  /\ (29 <= Z.abs s <= 31 ->
        housedcc_pidcc_move w a s st = (0, st)
        /\ forall (id : string) (f : Fleet) (v : DccVehicle),
             vehicle_at (housedcc_fleet_find id f) f = Some v ->
             v_address v = a ->
             housedcc_fleet_move w id s (f, st) =
               (0, (update_vehicle (housedcc_fleet_find id f) (set_speed s) f,
                    st))).
Proof.
  intros Ha. split; [|split].
  - intros Hs code text r.
    pose proof (move_step_ok_all s ltac:(lia)) as Hok.
    unfold move_step_ok in Hok. fold code in Hok.
    rewrite !andb_true_iff, !Z.eqb_eq in Hok. destruct Hok as [[Hor Hinv] _].
    split; [|split; [|exact Hinv]].
    + intros Hst.
      assert (Hr : r = housedcc_pidcc_write w text st).
      { subst r text. rewrite housedcc_pidcc_move_sends by assumption.
        fold code. rewrite Hor, (Z.gtb_ltb s 0). reflexivity. }
      split; [exact Hr|]. rewrite Hr.
      apply housedcc_pidcc_write_outcome.
    + intros Hfull. subst r. unfold housedcc_pidcc_move.
      destruct ((a <=? 0) || (a >=? 128)); [reflexivity|].
      rewrite Hfull. reflexivity.
  - apply speed2cssss_injective.
  - intros Hs.
    split; [apply housedcc_pidcc_move_over_limit; lia|].
    intros id f v Hv Hadr. unfold housedcc_fleet_move. rewrite Hv.
    destruct (Z.ltb_spec s (-31)); [lia|].
    destruct (Z.gtb_spec s 31); [lia|].
    rewrite housedcc_pidcc_move_over_limit by lia. reflexivity.
Qed.

Lemma housedcc_pidcc_move_encoding_witness :
  1 <= 44 <= 127 /\ Z.abs (-20) <= 28
  /\ PiDccState PiDcc_configured <> "*"%char
  /\ housedcc_pidcc_enabled PiDcc_configured = true /\ 0 < 12
  /\ fst (housedcc_pidcc_move 12 44 (-20) PiDcc_configured) = 1
  /\ PiDccWritten (snd (housedcc_pidcc_move 12 44 (-20) PiDcc_configured)) =
       ["send 44 91" +:+ String "010"%char ""]
  /\ PiDccCaptured (snd (housedcc_pidcc_move 12 44 (-20) PiDcc_configured)) =
       [("WRITE", "send 44 91")]
  /\ cssss2speed (Z.land 91 0x1f) = 20
  /\ 29 <= Z.abs 30 <= 31
  /\ housedcc_pidcc_move 12 44 30 PiDcc_configured = (0, PiDcc_configured)
  /\ housedcc_fleet_move 12 "UP844" 30 (fleet_UP844, PiDcc_configured) =
       (0, (update_vehicle 0 (set_speed 30) fleet_UP844, PiDcc_configured)).
Proof.
  assert (Ha : 1 <= 44 <= 127) by lia.
  assert (Hs : Z.abs (-20) <= 28) by (simpl; lia).
  assert (Hst : PiDccState PiDcc_configured <> "*"%char) by discriminate.
  assert (Hen : housedcc_pidcc_enabled PiDcc_configured = true) by reflexivity.
  assert (Hw : 0 < 12) by lia.
  assert (Hs' : 29 <= Z.abs 30 <= 31) by (simpl; lia).
  pose proof (housedcc_pidcc_move_encoding 12 44 (-20) PiDcc_configured Ha)
    as [Hlow _].
  pose proof (housedcc_pidcc_move_encoding 12 44 30 PiDcc_configured Ha)
    as [_ [_ Hhigh]].
  destruct (Hlow Hs) as (Hopen & _ & Hinv).
  destruct (Hopen Hst) as (_ & Hcaptured & Hsent & _).
  destruct (Hsent Hen Hw) as [Hone Hwritten].
  destruct (Hhigh Hs') as [Hzero Hfleet].
  split; [exact Ha|]. split; [exact Hs|]. split; [exact Hst|].
  split; [exact Hen|]. split; [exact Hw|].
  split; [exact Hone|]. split; [exact Hwritten|]. split; [exact Hcaptured|].
  split; [exact Hinv|].
  split; [exact Hs'|]. split; [exact Hzero|].
  exact (Hfleet "UP844" fleet_UP844
           (mkDccVehicle "UP844" 44 0 0 (Some 0%nat)) eq_refl eq_refl).
Defined.

(** C2: for every address in 0..127 (0 is "stop all") and whatever the
    readiness state, [housedcc_pidcc_stop] hands the transport the line
    [send address byte], the byte being [0x40 + 1] for an emergency stop and
    [0x40 + 0] for a normal one; with pins configured and a pipe that takes
    the bytes the line is written and 1 is returned, also under QueueFull. *)
Theorem housedcc_pidcc_stop_never_gated (w a emergency : Z) (st : PiDcc) :
  0 <= a <= 127 ->
  housedcc_pidcc_stop w a emergency st =
    housedcc_pidcc_write w
      (send_command a (if emergency =? 0 then 0x40 + 0 else 0x40 + 1)) st
  /\ (housedcc_pidcc_enabled st = true -> 0 < w ->
        forall readiness : ascii,
          let st' := set_PiDccState readiness st in
          let text := send_command a (if emergency =? 0 then 64 else 65) in
          housedcc_pidcc_stop w a emergency st' =
            (1, pipe_accepts w (snprintf 256 (text +:+ String "010"%char ""))
                  (housecapture_record "WRITE" text st'))).
Proof.
  intros Ha. split.
  - rewrite housedcc_pidcc_stop_sends by exact Ha.
    destruct (emergency =? 0); reflexivity.
  - intros Hen Hw readiness st' text.
    rewrite housedcc_pidcc_stop_sends by exact Ha.
    apply housedcc_pidcc_write_done; [exact Hen | exact Hw].
Qed.

Lemma housedcc_pidcc_stop_never_gated_witness :
  0 <= 0 <= 127
  /\ housedcc_pidcc_enabled PiDcc_configured = true /\ 0 < 12
  /\ housedcc_pidcc_stop 12 0 1 (set_PiDccState "*" PiDcc_configured) =
       (1, pipe_accepts 12 ("send 0 65" +:+ String "010"%char "")
             (housecapture_record "WRITE" "send 0 65"
                (set_PiDccState "*" PiDcc_configured))).
Proof.
  assert (Ha : 0 <= 0 <= 127) by lia.
  assert (Hen : housedcc_pidcc_enabled PiDcc_configured = true) by reflexivity.
  assert (Hw : 0 < 12) by lia.
  split; [exact Ha|]. split; [exact Hen|]. split; [exact Hw|].
  exact (proj2 (housedcc_pidcc_stop_never_gated 12 0 1 PiDcc_configured Ha)
               Hen Hw "*"%char).
Defined.

(** C3: when the readiness state is QueueFull (['*']), each of
    [housedcc_pidcc_move], [housedcc_pidcc_function] and
    [housedcc_pidcc_accessory] returns 0, whatever its arguments, and leaves
    the whole transport state (pipe and capture log included) as it was. *)
Theorem housedcc_pidcc_queue_full_gating
    (w address speed instruction device value : Z) (st : PiDcc) :
  PiDccState st = "*"%char ->
  housedcc_pidcc_move w address speed st = (0, st)
  /\ housedcc_pidcc_function w address instruction st = (0, st)
  /\ housedcc_pidcc_accessory w address device value st = (0, st).
Proof.
  intros Hfull.
  unfold housedcc_pidcc_move, housedcc_pidcc_function, housedcc_pidcc_accessory.
  rewrite Hfull. simpl.
  repeat split.
  - destruct ((address <=? 0) || (address >=? 128)); reflexivity.
  - destruct (address >=? 128); reflexivity.
  - destruct (address >=? 512); reflexivity.
Qed.

Lemma housedcc_pidcc_queue_full_gating_witness :
  let full := housedcc_pidcc_decode 100 (bytes_of "* queue full")
                PiDcc_configured in
  PiDccState full = "*"%char
  /\ housedcc_pidcc_move 12 44 10 full = (0, full)
  /\ housedcc_pidcc_function 12 44 0x90 full = (0, full)
  /\ housedcc_pidcc_accessory 12 5 1 1 full = (0, full).
Proof.
  intros full.
  assert (Hfull : PiDccState full = "*"%char) by reflexivity.
  split; [exact Hfull|].
  exact (housedcc_pidcc_queue_full_gating 12 44 10 0x90 1 1 full Hfull).
Defined.

(** C10, the claim as stated fails: with no pin configured and the queue
    reported full, a move, a function and an accessory command with valid
    arguments return 0 without recording the line they would send: the
    capture log is what it was. *)
Lemma housedcc_pidcc_dry_run_not_recorded_when_full :
  let full := housedcc_pidcc_decode 100 (bytes_of "* queue full")
                PiDcc_initial in
  GpioPinA full <= 0 /\ GpioPinB full <= 0
  /\ PiDccCaptured full = [("FULL", "queue full")]
  /\ housedcc_pidcc_move 12 44 10 full = (0, full)
  /\ PiDccCaptured (snd (housedcc_pidcc_move 12 44 10 full)) =
       [("FULL", "queue full")]
  /\ PiDccCaptured (snd (housedcc_pidcc_function 12 44 0x90 full)) =
       [("FULL", "queue full")]
  /\ PiDccCaptured (snd (housedcc_pidcc_accessory 12 5 1 1 full)) =
       [("FULL", "queue full")].
Proof.
  cbv zeta. split; [simpl; lia|]. split; [simpl; lia|].
  split; [reflexivity|]. split; [reflexivity|]. split; [reflexivity|].
  split; reflexivity.
Qed.

(** C10, amended: with no transmission pin configured (both GPIO pins
    [<= 0]), every call of [housedcc_pidcc_stop] with a valid address, and
    every call of [housedcc_pidcc_move], [housedcc_pidcc_function] and
    [housedcc_pidcc_accessory] with valid arguments made while the readiness
    state is not QueueFull, records the built line under "BUILT", writes
    nothing, and returns 0, the value of a failure; under QueueFull these
    three return 0 and record nothing. *)
Theorem housedcc_pidcc_dry_run_returns_failure (w : Z) (st : PiDcc) :
  GpioPinA st <= 0 -> GpioPinB st <= 0 ->
  let built (text : string) (r : Z * PiDcc) :=
    r = (0, housecapture_record "BUILT" text st)
    /\ fst r = 0
    /\ PiDccCaptured (snd r) = PiDccCaptured st ++ [("BUILT", text)]
    /\ PiDccWritten (snd r) = PiDccWritten st in
  (forall a emergency : Z, 0 <= a <= 127 ->
     built (send_command a (if emergency =? 0 then 64 else 65))
           (housedcc_pidcc_stop w a emergency st))
  /\ (PiDccState st <> "*"%char ->
      (forall a s : Z, 1 <= a <= 127 -> Z.abs s <= 28 ->
         built (send_command a
                  (0x40 + (if 0 <? s then 0x20 else 0)
                   + nth (Z.to_nat (Z.abs s)) speed2cssss 0))
               (housedcc_pidcc_move w a s st))
      /\ (forall a instruction : Z, 0 <= a <= 127 ->
           built (send_command a instruction)
                 (housedcc_pidcc_function w a instruction st))
      /\ (forall a device value : Z, 0 <= a < 512 ->
           built (send_command
                    (0x80 + Z.land a 0x3f)
                    (0x80 + Z.shiftr (Z.land a 0x1c0) 2
                     + (if value =? 0 then 0 else 0x08)
                     + Z.land device 0x0f))
                 (housedcc_pidcc_accessory w a device value st)))
  /\ (PiDccState st = "*"%char ->
      forall a x y : Z,
        housedcc_pidcc_move w a x st = (0, st)
        /\ housedcc_pidcc_function w a x st = (0, st)
        /\ housedcc_pidcc_accessory w a x y st = (0, st)).
Proof.
  intros HA HB built. pose proof (pins_unset_disabled st HA HB) as Hdis.
  assert (Hbuilt : forall text,
             built text (0, housecapture_record "BUILT" text st)).
  { intros text. unfold built. cbn. repeat split; reflexivity. }
  split; [|split; [intros Hst; split; [|split]|]].
  - intros a e Ha. rewrite housedcc_pidcc_stop_sends by exact Ha.
    rewrite housedcc_pidcc_write_dry_run by exact Hdis. apply Hbuilt.
  - intros a s Ha Hs.
    pose proof (move_step_ok_all s ltac:(lia)) as Hok.
    unfold move_step_ok in Hok.
    rewrite !andb_true_iff, !Z.eqb_eq in Hok. destruct Hok as [_ Hcode].
    rewrite housedcc_pidcc_move_sends by assumption.
    rewrite Hcode, (Z.gtb_ltb s 0).
    rewrite housedcc_pidcc_write_dry_run by exact Hdis. apply Hbuilt.
  - intros a i Ha. rewrite housedcc_pidcc_function_sends by (lia || assumption).
    rewrite land_0x7f by lia.
    rewrite housedcc_pidcc_write_dry_run by exact Hdis. apply Hbuilt.
  - intros a d v Ha. rewrite housedcc_pidcc_accessory_sends by (lia || assumption).
    rewrite housedcc_pidcc_write_dry_run by exact Hdis. apply Hbuilt.
  - intros Hfull a x y.
    unfold housedcc_pidcc_move, housedcc_pidcc_function,
           housedcc_pidcc_accessory.
    rewrite Hfull. cbn [Ascii.eqb].
    split; [|split].
    + destruct ((a <=? 0) || (a >=? 128)); reflexivity.
    + destruct (a >=? 128); reflexivity.
    + destruct (a >=? 512); reflexivity.
Qed.

Lemma housedcc_pidcc_dry_run_returns_failure_witness :
  GpioPinA PiDcc_initial <= 0 /\ GpioPinB PiDcc_initial <= 0
  /\ PiDccState PiDcc_initial <> "*"%char
  /\ housedcc_pidcc_stop 12 0 1 PiDcc_initial =
       (0, housecapture_record "BUILT" "send 0 65" PiDcc_initial)
  /\ PiDccCaptured (snd (housedcc_pidcc_stop 12 0 1 PiDcc_initial)) =
       [("BUILT", "send 0 65")]
  /\ housedcc_pidcc_move 12 44 20 PiDcc_initial =
       (0, housecapture_record "BUILT" "send 44 123" PiDcc_initial)
  /\ PiDccCaptured (snd (housedcc_pidcc_move 12 44 20 PiDcc_initial)) =
       [("BUILT", "send 44 123")]
  /\ PiDccWritten (snd (housedcc_pidcc_move 12 44 20 PiDcc_initial)) = []
  /\ housedcc_pidcc_function 12 44 0x90 PiDcc_initial =
       (0, housecapture_record "BUILT" "send 44 144" PiDcc_initial)
  /\ housedcc_pidcc_accessory 12 5 1 1 PiDcc_initial =
       (0, housecapture_record "BUILT" "send 133 137" PiDcc_initial).
Proof.
  assert (HA : GpioPinA PiDcc_initial <= 0) by (simpl; lia).
  assert (HB : GpioPinB PiDcc_initial <= 0) by (simpl; lia).
  assert (Hst : PiDccState PiDcc_initial <> "*"%char) by discriminate.
  destruct (housedcc_pidcc_dry_run_returns_failure 12 PiDcc_initial HA HB)
    as (Hstop & Hopen & _).
  destruct (Hopen Hst) as [Hmove [Hfunction Haccessory]].
  destruct (Hstop 0 1 ltac:(lia)) as (S1 & _ & S3 & _).
  destruct (Hmove 44 20 ltac:(lia) ltac:(simpl; lia)) as (M1 & _ & M3 & M4).
  destruct (Hfunction 44 0x90 ltac:(lia)) as (F1 & _).
  destruct (Haccessory 5 1 1 ltac:(lia)) as (A1 & _).
  split; [exact HA|]. split; [exact HB|]. split; [exact Hst|].
  split; [exact S1|]. split; [exact S3|].
  split; [exact M1|]. split; [exact M3|]. split; [exact M4|].
  split; [exact F1|]. exact A1.
Defined.

(** C7: at accessory address 0, device 0, value on, the code sends the
    second field [0x88]: bits 4..6 carry the high address bits 000 as they
    are, where the inverted layout of the protocol gives [0xf8]; at address
    448 (high bits 111) it sends [0xf8] where the inverted layout gives
    [0x88]. With device 8 and value on, the sum carries out of the
    activation bit: the field is [0x90], bit [0x08] clear. Addresses from
    512 on are rejected. *)
Theorem housedcc_pidcc_accessory_high_bits_not_inverted :
  housedcc_pidcc_accessory 13 0 0 1 PiDcc_configured =
    housedcc_pidcc_write 13 "send 128 136" PiDcc_configured
  /\ accessory_field_inverted 0 0 1 = 248
  /\ housedcc_pidcc_accessory 13 448 0 1 PiDcc_configured =
       housedcc_pidcc_write 13 "send 128 248" PiDcc_configured
  /\ accessory_field_inverted 448 0 1 = 136
  /\ housedcc_pidcc_accessory 13 0 8 1 PiDcc_configured =
       housedcc_pidcc_write 13 "send 128 144" PiDcc_configured
  /\ Z.land 144 0x08 = 0
  /\ housedcc_pidcc_accessory 13 512 0 1 PiDcc_configured =
       (0, PiDcc_configured).
Proof. repeat split; vm_compute; reflexivity. Qed.

(** ** Readiness *)

Lemma housedcc_pidcc_decode_busy_or_full (now : Z) (c : ascii)
                                         (rest : list ascii) (st : PiDcc) :
  c = "%"%char \/ c = "*"%char ->
  PiDccState (housedcc_pidcc_decode now (c :: rest) st) = c
  /\ PiDccStateDeadline (housedcc_pidcc_decode now (c :: rest) st) = now + 3.
Proof. intros [-> | ->]; split; reflexivity. Qed.

(** The supervision half of the tick touches neither the readiness state nor
    its deadline; the first half reverts QueueFull only, and only once the
    deadline lies strictly in the past. *)
Lemma housedcc_pidcc_periodic_readiness (os : OsAnswers) (now : Z) (st : PiDcc) :
  PiDccState (housedcc_pidcc_periodic os now st) =
    (if Ascii.eqb (PiDccState st) "*" && (PiDccStateDeadline st <? now)
     then "#"%char else PiDccState st)
  /\ PiDccStateDeadline (housedcc_pidcc_periodic os now st) =
       PiDccStateDeadline st.
Proof.
  unfold housedcc_pidcc_periodic, housedcc_pidcc_deceased, housedcc_pidcc_launch.
  destruct (Ascii.eqb (PiDccState st) "*"), (PiDccStateDeadline st <? now);
    simpl andb; cbv iota;
    (destruct (Z.rem now 5 =? 0); [|split; reflexivity]);
    match goal with
    | |- context [PiDccProcess ?x <=? 0] => destruct (PiDccProcess x <=? 0)
    end;
    try match goal with
    | |- context [os_waitpid os =? ?x] => destruct (os_waitpid os =? x)
    end;
    simpl;
    destruct (os_pipe_listen os), (os_pipe_transmit os); simpl;
    try destruct (os_fork os <? 0); split; reflexivity.
Qed.

(** C6, the claim as stated fails: after a busy line received at time 100
    the deadline is 103, and the tick at 104 (and at any later time) leaves
    the state Busy; after a queue-full line received at time 100 the tick at
    103, when [now] equals the deadline, leaves the state QueueFull. *)
Lemma housedcc_pidcc_periodic_not_recovered :
  let busy := housedcc_pidcc_decode 100 (bytes_of "% busy") PiDcc_configured in
  let full := housedcc_pidcc_decode 100 (bytes_of "* queue full")
                PiDcc_configured in
  PiDccState busy = "%"%char /\ PiDccStateDeadline busy = 103
  /\ 104 >= PiDccStateDeadline busy
  /\ PiDccState (housedcc_pidcc_periodic os_quiet 104 busy) <> "#"%char
  /\ PiDccState full = "*"%char /\ PiDccStateDeadline full = 103
  /\ 103 >= PiDccStateDeadline full
  /\ PiDccState (housedcc_pidcc_periodic os_quiet 103 full) <> "#"%char.
Proof. vm_compute. repeat split; try discriminate; congruence. Qed.

(** C6, amended: receiving a busy (['%']) or queue-full (['*']) line sets
    the readiness state to that sigil and the deadline to [now + 3],
    whatever bytes follow the sigil in memory; thereafter the periodic tick
    reverts QueueFull to Idle (['#']) once [now] is strictly greater than
    the deadline, leaves QueueFull in place while [now <= deadline], and
    never changes a Busy state. *)
Theorem housedcc_pidcc_readiness_deadline
    (os : OsAnswers) (received now : Z) (c : ascii) (rest : list ascii)
    (st : PiDcc) :
  c = "%"%char \/ c = "*"%char ->
  let st' := housedcc_pidcc_decode received (c :: rest) st in
  PiDccState st' = c
  /\ PiDccStateDeadline st' = received + 3
  /\ (c = "*"%char -> received + 3 < now ->
        PiDccState (housedcc_pidcc_periodic os now st') = "#"%char)
  /\ (c = "*"%char -> now <= received + 3 ->
        PiDccState (housedcc_pidcc_periodic os now st') = "*"%char)
  /\ (c = "%"%char ->
        PiDccState (housedcc_pidcc_periodic os now st') = "%"%char).
Proof.
  intros Hc st'.
  destruct (housedcc_pidcc_decode_busy_or_full received c rest st Hc)
    as [Hstate Hdeadline].
  fold st' in Hstate, Hdeadline.
  destruct (housedcc_pidcc_periodic_readiness os now st') as [Hp _].
  rewrite Hstate, Hdeadline in Hp.
  repeat split; try assumption.
  - intros -> Hlate. rewrite Hp. simpl.
    destruct (Z.ltb_spec (received + 3) now); [reflexivity | lia].
  - intros -> Hearly. rewrite Hp. simpl.
    destruct (Z.ltb_spec (received + 3) now); [lia | reflexivity].
  - intros ->. rewrite Hp. reflexivity.
Qed.

Lemma housedcc_pidcc_readiness_deadline_witness :
  let full := housedcc_pidcc_decode 100 (bytes_of "* queue full")
                PiDcc_configured in
  let busy := housedcc_pidcc_decode 100 (bytes_of "% busy") PiDcc_configured in
  PiDccState full = "*"%char /\ PiDccStateDeadline full = 103
  /\ PiDccState (housedcc_pidcc_periodic os_quiet 104 full) = "#"%char
  /\ PiDccState (housedcc_pidcc_periodic os_quiet 103 full) = "*"%char
  /\ PiDccState busy = "%"%char /\ PiDccStateDeadline busy = 103
  /\ PiDccState (housedcc_pidcc_periodic os_quiet 104 busy) = "%"%char.
Proof.
  intros full busy.
  destruct (housedcc_pidcc_readiness_deadline os_quiet 100 104 "*"%char
              (bytes_of " queue full") PiDcc_configured (or_intror eq_refl))
    as (F1 & F2 & F3 & _).
  destruct (housedcc_pidcc_readiness_deadline os_quiet 100 103 "*"%char
              (bytes_of " queue full") PiDcc_configured (or_intror eq_refl))
    as (_ & _ & _ & F4 & _).
  destruct (housedcc_pidcc_readiness_deadline os_quiet 100 104 "%"%char
              (bytes_of " busy") PiDcc_configured (or_introl eq_refl))
    as (B1 & B2 & _ & _ & B3).
  split; [exact F1|]. split; [exact F2|].
  split; [exact (F3 eq_refl ltac:(lia))|].
  split; [exact (F4 eq_refl ltac:(lia))|].
  split; [exact B1|]. split; [exact B2|].
  exact (B3 eq_refl).
Defined.

(** ** Table scans *)

Lemma scan_intro {A : Type} (p : A -> bool) (l : list A) (from : Z)
                 (n : nat) (x : A) :
  l !! n = Some x -> p x = true ->
  (forall (k : nat) (y : A), (k < n)%nat -> l !! k = Some y -> p y = false) ->
  scan p l from = from + Z.of_nat n.
Proof.
  revert from n. induction l as [|a l IH]; intros from n Hn Hp Hbefore.
  - discriminate Hn.
  - destruct n as [|n]; simpl in *.
    + injection Hn as ->. rewrite Hp. lia.
    + rewrite (Hbefore 0%nat a) by (lia || reflexivity).
      rewrite (IH (from + 1) n); [lia | exact Hn | exact Hp |].
      intros k y Hk Hy. apply (Hbefore (S k) y); [lia | exact Hy].
Qed.

Lemma scan_elim {A : Type} (p : A -> bool) (l : list A) (from : Z) :
  (scan p l from = -1 /\ forall y : A, y ∈ l -> p y = false)
  \/ exists (n : nat) (x : A),
       scan p l from = from + Z.of_nat n /\ l !! n = Some x /\ p x = true
       /\ forall (k : nat) (y : A),
            (k < n)%nat -> l !! k = Some y -> p y = false.
Proof.
  revert from. induction l as [|a l IH]; intros from; simpl.
  - left. split; [reflexivity|]. intros y Hy. inversion Hy.
  - destruct (p a) eqn:Hpa.
    + right. exists 0%nat, a. repeat split; [lia | exact Hpa |].
      intros k y Hk. lia.
    + destruct (IH (from + 1)) as [[Hnone Hall] | (n & x & Hscan & Hn & Hp & Hbefore)].
      * left. split; [exact Hnone|].
        intros y Hy. apply elem_of_cons in Hy as [-> | Hy]; auto.
      * right. exists (S n), x. repeat split; [lia | exact Hn | exact Hp |].
        intros [|k] y Hk Hy; simpl in Hy.
        -- injection Hy as <-. exact Hpa.
        -- apply (Hbefore k y); [lia | exact Hy].
Qed.

Lemma scan_break_elim {A : Type} (p : A -> bool) (l : list A) :
  (scan_break p l = Z.of_nat (length l) /\ forall y : A, y ∈ l -> p y = false)
  \/ exists (n : nat) (x : A),
       scan_break p l = Z.of_nat n /\ l !! n = Some x /\ p x = true
       /\ forall (k : nat) (y : A),
            (k < n)%nat -> l !! k = Some y -> p y = false.
Proof.
  unfold scan_break.
  destruct (scan_elim p l 0) as [[-> Hall] | (n & x & -> & Hn & Hp & Hbefore)].
  - left. split; [reflexivity | exact Hall].
  - right. exists n, x.
    destruct (Z.ltb_spec (0 + Z.of_nat n) 0); [lia|].
    split; [lia|]. split; [exact Hn|]. split; [exact Hp | exact Hbefore].
Qed.

Lemma vehicle_at_of_nat (n : nat) (f : Fleet) :
  vehicle_at (Z.of_nat n) f = Vehicles f !! n.
Proof.
  unfold vehicle_at. destruct (Z.ltb_spec (Z.of_nat n) 0); [lia|].
  rewrite Nat2Z.id. reflexivity.
Qed.

(** A cursor that [housedcc_fleet_find] returns and that passes the test
    [cursor < 0] of the callers designates a slot of the table. *)
Lemma housedcc_fleet_find_in_table (id : string) (f : Fleet) :
  0 <= housedcc_fleet_find id f ->
  exists v : DccVehicle,
    vehicle_at (housedcc_fleet_find id f) f = Some v
    /\ String.eqb id (v_id v) = true.
Proof.
  unfold housedcc_fleet_find. intros Hfound.
  destruct (scan_elim (fun v => String.eqb id (v_id v)) (Vehicles f) 0)
    as [[Hnone _] | (n & x & Hscan & Hn & Hp & _)]; [lia|].
  exists x. rewrite Hscan, Z.add_0_l, vehicle_at_of_nat. split; assumption.
Qed.

Lemma housedcc_fleet_find_missing (id : string) (f : Fleet) :
  housedcc_fleet_find id f < 0 ->
  vehicle_at (housedcc_fleet_find id f) f = None.
Proof.
  intros Hmissing. unfold vehicle_at.
  destruct (Z.ltb_spec (housedcc_fleet_find id f) 0); [reflexivity | lia].
Qed.

Lemma vehicle_at_update (c : Z) (g : DccVehicle -> DccVehicle) (f : Fleet)
                        (v : DccVehicle) :
  vehicle_at c f = Some v -> vehicle_at c (update_vehicle c g f) = Some (g v).
Proof.
  unfold vehicle_at, update_vehicle. simpl.
  destruct (c <? 0); [discriminate|].
  intros Hv. rewrite list_lookup_alter_eq, Hv. reflexivity.
Qed.

(** ** The registry: [housedcc_fleet_add] *)

Lemma housedcc_fleet_add_invalid (id : string) (model : option string)
                                 (a : Z) (f : Fleet) :
  housedcc_fleet_valid_address a = false -> housedcc_fleet_add id model a f = f.
Proof. intros H. unfold housedcc_fleet_add. rewrite H. reflexivity. Qed.

(** The rejection test of the source: some slot, live or not, other than the
    one of [id] comes first among those that hold the address. *)
Lemma housedcc_fleet_add_conflict (id : string) (model : option string)
                                  (a : Z) (f : Fleet) :
  0 <= housedcc_fleet_find_address a f ->
  housedcc_fleet_find id f <> housedcc_fleet_find_address a f ->
  housedcc_fleet_add id model a f = f.
Proof.
  intros Hsyn Hne. unfold housedcc_fleet_add.
  destruct (housedcc_fleet_valid_address a); [|reflexivity]. simpl negb. cbv iota.
  destruct (Z.leb_spec 0 (housedcc_fleet_find_address a f)); [|lia].
  destruct (Z.eqb_spec (housedcc_fleet_find id f)
                       (housedcc_fleet_find_address a f)); [contradiction|].
  reflexivity.
Qed.

Lemma valid_address_true (a : Z) :
  1 <= a <= 127 -> housedcc_fleet_valid_address a = true.
Proof.
  intros Ha. unfold housedcc_fleet_valid_address.
  destruct (Z.ltb_spec 0 a); [|lia]. destruct (Z.ltb_spec a 128); [|lia].
  reflexivity.
Qed.

Lemma add_passes (id : string) (a : Z) (f : Fleet) :
  housedcc_fleet_find_address a f < 0
  \/ housedcc_fleet_find_address a f = housedcc_fleet_find id f ->
  (0 <=? housedcc_fleet_find_address a f)
  && negb (housedcc_fleet_find id f =? housedcc_fleet_find_address a f) = false.
Proof.
  intros [Hnone | Hsame].
  - destruct (Z.leb_spec 0 (housedcc_fleet_find_address a f)); [lia|].
    reflexivity.
  - rewrite Hsame, Z.eqb_refl. apply andb_false_r.
Qed.

Lemma housedcc_fleet_add_known (id : string) (model : option string)
                               (a : Z) (f : Fleet) :
  1 <= a <= 127 ->
  housedcc_fleet_find_address a f < 0
  \/ housedcc_fleet_find_address a f = housedcc_fleet_find id f ->
  0 <= housedcc_fleet_find id f ->
  housedcc_fleet_add id model a f =
    update_vehicle (housedcc_fleet_find id f)
                   (added (model_of_add model f) a) f.
Proof.
  intros Ha Hfree Hknown. unfold housedcc_fleet_add.
  rewrite (valid_address_true a Ha), (add_passes id a f Hfree).
  destruct (Z.ltb_spec (housedcc_fleet_find id f) 0); [lia|]. reflexivity.
Qed.

Lemma housedcc_fleet_add_new (id : string) (model : option string)
                             (a : Z) (f : Fleet) :
  1 <= a <= 127 ->
  housedcc_fleet_find_address a f < 0
  \/ housedcc_fleet_find_address a f = housedcc_fleet_find id f ->
  housedcc_fleet_find id f < 0 ->
  let cursor :=
    Z.to_nat (scan_break (fun v => String.eqb (v_id v) "") (Vehicles f)) in
  housedcc_fleet_add id model a f =
    mkFleet (Models f)
      (alter (added (model_of_add model f) a) cursor
         (alter (set_id (snprintf 15 id)) cursor
            (if (length (Vehicles f) <=? cursor)%nat
             then Vehicles f ++ [fresh_vehicle] else Vehicles f))).
Proof.
  intros Ha Hfree Hnew cursor. unfold housedcc_fleet_add.
  rewrite (valid_address_true a Ha), (add_passes id a f Hfree).
  destruct (Z.ltb_spec (housedcc_fleet_find id f) 0); [|lia].
  simpl negb. cbv iota. fold cursor.
  assert (Hpos : 0 <= scan_break (fun v => String.eqb (v_id v) "") (Vehicles f)).
  { destruct (scan_break_elim (fun v => String.eqb (v_id v) "") (Vehicles f))
      as [[-> _] | (n & x & -> & _)]; lia. }
  unfold VehiclesCount.
  destruct (Z.geb_spec (scan_break (fun v => String.eqb (v_id v) "") (Vehicles f))
                       (Z.of_nat (length (Vehicles f))));
    destruct (Nat.leb_spec (length (Vehicles f)) cursor);
    try (unfold cursor in *; lia); reflexivity.
Qed.

(** What an accepted call leaves behind, for a new and for a known [id]
    alike: the entry of [id] with the address and the model of the call and
    with speed and function mask cleared. *)
Lemma housedcc_fleet_add_entry (id : string) (model : option string)
                               (a : Z) (f : Fleet) :
  1 <= a <= 127 -> (String.length id <= 14)%nat ->
  housedcc_fleet_find_address a f < 0
  \/ housedcc_fleet_find_address a f = housedcc_fleet_find id f ->
  let f' := housedcc_fleet_add id model a f in
  exists v : DccVehicle,
    0 <= housedcc_fleet_find id f'
    /\ vehicle_at (housedcc_fleet_find id f') f' = Some v
    /\ v_id v = id /\ v_address v = a /\ v_speed v = 0 /\ v_functions v = 0
    /\ (0 <= housedcc_fleet_find id f ->
          housedcc_fleet_find id f' = housedcc_fleet_find id f)
    /\ Models f' = Models f.
Proof.
  intros Ha Hid Hfree f'. subst f'.
  set (g := added (model_of_add model f) a).
  assert (Hidg : forall v, v_id (g v) = v_id v) by reflexivity.
  assert (Hkeep : snprintf 15 id = id) by (apply snprintf_short; simpl; lia).
  destruct (scan_elim (fun v => String.eqb id (v_id v)) (Vehicles f) 0)
    as [[Hnone Hall] | (n & x & Hscan & Hn & Hp & Hbefore)].
  - (* a new vehicle *)
    assert (Hnew : housedcc_fleet_find id f < 0)
      by (unfold housedcc_fleet_find; lia).
    rewrite (housedcc_fleet_add_new id model a f Ha Hfree Hnew). fold g.
    rewrite Hkeep.
    destruct (scan_break_elim (fun v => String.eqb (v_id v) "") (Vehicles f))
      as [[Tnone Tall] | (n & x & Tscan & Tn & Tp & Tbefore)].
    + (* no tombstone: the table grows *)
      rewrite Tnone, Nat2Z.id, Nat.leb_refl.
      set (l' := alter g _ _).
      assert (Hv : l' !! length (Vehicles f) = Some (g (set_id id fresh_vehicle))).
      { unfold l'. rewrite !list_lookup_alter_eq.
        rewrite lookup_app_r by lia. rewrite Nat.sub_diag. reflexivity. }
      assert (Hfind : housedcc_fleet_find id (mkFleet (Models f) l')
                      = Z.of_nat (length (Vehicles f))).
      { unfold housedcc_fleet_find. simpl.
        rewrite (scan_intro _ _ 0 _ _ Hv); [lia | apply String.eqb_refl |].
        intros k y Hk Hy. unfold l' in Hy.
        rewrite !list_lookup_alter_ne in Hy by lia.
        rewrite lookup_app_l in Hy by lia.
        apply Hall. eapply list_elem_of_lookup_2. exact Hy. }
      exists (g (set_id id fresh_vehicle)).
      rewrite Hfind, vehicle_at_of_nat. simpl.
      repeat split; try reflexivity; try lia; auto.
    + (* the first tombstone is taken *)
      rewrite Tscan, Nat2Z.id.
      pose proof (lookup_lt_Some _ _ _ Tn) as Hlt.
      destruct (Nat.leb_spec (length (Vehicles f)) n); [lia|].
      set (l' := alter g _ _).
      assert (Hv : l' !! n = Some (g (set_id id x))).
      { unfold l'. rewrite !list_lookup_alter_eq, Tn. reflexivity. }
      assert (Hfind : housedcc_fleet_find id (mkFleet (Models f) l')
                      = Z.of_nat n).
      { unfold housedcc_fleet_find. simpl.
        rewrite (scan_intro _ _ 0 _ _ Hv); [lia | apply String.eqb_refl |].
        intros k y Hk Hy. unfold l' in Hy.
        rewrite !list_lookup_alter_ne in Hy by lia.
        apply Hall. eapply list_elem_of_lookup_2. exact Hy. }
      exists (g (set_id id x)).
      rewrite Hfind, vehicle_at_of_nat. simpl.
      repeat split; try reflexivity; try lia; auto.
  - (* a known vehicle *)
    assert (Hfound : housedcc_fleet_find id f = Z.of_nat n)
      by (unfold housedcc_fleet_find; lia).
    rewrite (housedcc_fleet_add_known id model a f Ha Hfree) by lia. fold g.
    rewrite Hfound. unfold update_vehicle. rewrite Nat2Z.id.
    set (l' := alter g n (Vehicles f)).
    assert (Hv : l' !! n = Some (g x)).
    { unfold l'. rewrite list_lookup_alter_eq, Hn. reflexivity. }
    assert (Hfind : housedcc_fleet_find id (mkFleet (Models f) l')
                    = Z.of_nat n).
    { unfold housedcc_fleet_find. simpl.
      rewrite (scan_intro _ _ 0 _ _ Hv); [lia | exact Hp |].
      intros k y Hk Hy. unfold l' in Hy.
      rewrite list_lookup_alter_ne in Hy by lia.
      apply (Hbefore k y Hk Hy). }
    exists (g x). rewrite Hfind, vehicle_at_of_nat. simpl.
    apply String.eqb_eq in Hp.
    repeat split; try reflexivity; try lia; auto.
Qed.

(** C4: after "UP844" (address 44) has been added and deleted, no live
    vehicle holds address 44, yet adding "SP4449" at address 44 is rejected
    as a no-op: [housedcc_fleet_find_address] also matches the tombstoned
    slot, which keeps its address. *)
Theorem housedcc_fleet_add_blocked_by_tombstone :
  held_by_other_live "SP4449" 44 fleet_UP844_deleted = false
  /\ housedcc_fleet_exists "UP844" fleet_UP844_deleted = 0
  /\ housedcc_fleet_find_address 44 fleet_UP844_deleted = 0
  /\ housedcc_fleet_add "SP4449" (Some "E8") 44 fleet_UP844_deleted =
       fleet_UP844_deleted
  /\ housedcc_fleet_exists "SP4449"
       (housedcc_fleet_add "SP4449" (Some "E8") 44 fleet_UP844_deleted) = 0
  /\ housedcc_fleet_exists "SP4449"
       (housedcc_fleet_add "SP4449" (Some "E8") 45 fleet_UP844_deleted) = 1.
Proof. vm_compute. repeat split; reflexivity. Qed.

(** C8, the claim as stated fails: "UP844" runs at speed -20 with its
    headlight on (mask [0x1000]); adding "UP844" again with the same, valid
    and non-conflicting address 44 leaves it with speed 0 and mask 0. *)
Lemma housedcc_fleet_add_update_resets :
  housedcc_fleet_valid_address 44 = true
  /\ housedcc_fleet_find "UP844" (fst world_UP844_running) = 0
  /\ housedcc_fleet_find_address 44 (fst world_UP844_running) = 0
  /\ vehicle_at 0 (fst world_UP844_running) =
       Some (mkDccVehicle "UP844" 44 (-20) 0x1000 (Some 0%nat))
  /\ vehicle_at 0 (housedcc_fleet_add "UP844" (Some "E8") 44
                     (fst world_UP844_running)) =
       Some (mkDccVehicle "UP844" 44 0 0 (Some 0%nat)).
Proof. vm_compute. repeat split; reflexivity. Qed.

(** C8, amended: for every call [housedcc_fleet_add (id, model, a)] with a
    valid address that passes the conflict test (and an [id] of at most 14
    characters), the entry of [id] afterwards has address [a], speed 0 and
    an empty function mask, whether [id] named no vehicle before (the entry
    is created) or an existing one (its slot is kept and its speed and
    function state are reset as well). *)
Theorem housedcc_fleet_add_resets (id : string) (model : option string)
                                  (a : Z) (f : Fleet) :
  1 <= a <= 127 -> (String.length id <= 14)%nat ->
  housedcc_fleet_find_address a f < 0
  \/ housedcc_fleet_find_address a f = housedcc_fleet_find id f ->
  let f' := housedcc_fleet_add id model a f in
  exists v : DccVehicle,
    0 <= housedcc_fleet_find id f'
    /\ vehicle_at (housedcc_fleet_find id f') f' = Some v
    /\ v_id v = id /\ v_address v = a /\ v_speed v = 0 /\ v_functions v = 0
    /\ (0 <= housedcc_fleet_find id f ->
          housedcc_fleet_find id f' = housedcc_fleet_find id f).
Proof.
  intros Ha Hid Hfree f'.
  destruct (housedcc_fleet_add_entry id model a f Ha Hid Hfree)
    as (v & H1 & H2 & H3 & H4 & H5 & H6 & H7 & _).
  exists v. repeat split; assumption.
Qed.

Lemma housedcc_fleet_add_resets_witness :
  1 <= 44 <= 127 /\ (String.length "UP844" <= 14)%nat
  /\ housedcc_fleet_find_address 44 (fst world_UP844_running) =
       housedcc_fleet_find "UP844" (fst world_UP844_running)
  /\ vehicle_at 0 (fst world_UP844_running) =
       Some (mkDccVehicle "UP844" 44 (-20) 0x1000 (Some 0%nat))
  /\ exists v : DccVehicle,
       vehicle_at 0 (housedcc_fleet_add "UP844" (Some "E8") 44
                       (fst world_UP844_running)) = Some v
       /\ v_address v = 44 /\ v_speed v = 0 /\ v_functions v = 0.
Proof.
  assert (Ha : 1 <= 44 <= 127) by lia.
  assert (Hid : (String.length "UP844" <= 14)%nat) by (simpl; lia).
  assert (Hfree : housedcc_fleet_find_address 44 (fst world_UP844_running) =
                  housedcc_fleet_find "UP844" (fst world_UP844_running))
    by reflexivity.
  split; [exact Ha|]. split; [exact Hid|]. split; [exact Hfree|].
  split; [reflexivity|].
  destruct (housedcc_fleet_add_resets "UP844" (Some "E8") 44
              (fst world_UP844_running) Ha Hid (or_intror Hfree))
    as (v & _ & Hat & _ & Hadr & Hspeed & Hmask & _).
  exists v. split; [exact Hat|]. split; [exact Hadr|].
  split; [exact Hspeed | exact Hmask].
Defined.

(** ** Fleet commands and the transport *)

Lemma housedcc_pidcc_write_fails (w : Z) (text : string) (st : PiDcc) :
  housedcc_pidcc_enabled st = false \/ w <= 0 ->
  fst (housedcc_pidcc_write w text st) = 0
  /\ PiDccWritten (snd (housedcc_pidcc_write w text st)) = PiDccWritten st.
Proof.
  intros H.
  assert (Hz : fst (housedcc_pidcc_write w text st) = 0).
  { destruct (housedcc_pidcc_enabled st) eqn:Hen.
    - destruct H as [H | H]; [discriminate|].
      rewrite housedcc_pidcc_write_failed by assumption. reflexivity.
    - rewrite housedcc_pidcc_write_dry_run by assumption. reflexivity. }
  split; [exact Hz | apply housedcc_pidcc_write_zero; exact Hz].
Qed.

Lemma housedcc_pidcc_move_fails (w a s : Z) (st : PiDcc) :
  transport_fails w st ->
  fst (housedcc_pidcc_move w a s st) = 0
  /\ PiDccWritten (snd (housedcc_pidcc_move w a s st)) = PiDccWritten st.
Proof.
  intros Hfail. unfold housedcc_pidcc_move.
  destruct ((a <=? 0) || (a >=? 128)); [split; reflexivity|].
  destruct (Ascii.eqb (PiDccState st) "*") eqn:Hst; [split; reflexivity|].
  destruct (Z.abs s >? 28); [split; reflexivity|].
  apply housedcc_pidcc_write_fails.
  destruct Hfail as [Hfull | Hrest]; [|exact Hrest].
  rewrite Hfull in Hst. discriminate.
Qed.

Lemma housedcc_pidcc_function_fails (w a instruction : Z) (st : PiDcc) :
  transport_fails w st ->
  fst (housedcc_pidcc_function w a instruction st) = 0
  /\ PiDccWritten (snd (housedcc_pidcc_function w a instruction st))
     = PiDccWritten st.
Proof.
  intros Hfail. unfold housedcc_pidcc_function.
  destruct (a >=? 128); [split; reflexivity|].
  destruct (Ascii.eqb (PiDccState st) "*") eqn:Hst; [split; reflexivity|].
  apply housedcc_pidcc_write_fails.
  destruct Hfail as [Hfull | Hrest]; [|exact Hrest].
  rewrite Hfull in Hst. discriminate.
Qed.

Lemma housedcc_fleet_move_known (w : Z) (id : string) (speed : Z)
                                (f : Fleet) (st : PiDcc) (v : DccVehicle) :
  vehicle_at (housedcc_fleet_find id f) f = Some v ->
  housedcc_fleet_move w id speed (f, st) =
    (fst (housedcc_pidcc_move w (v_address v) (clamp31 speed) st),
     (update_vehicle (housedcc_fleet_find id f) (set_speed (clamp31 speed)) f,
      snd (housedcc_pidcc_move w (v_address v) (clamp31 speed) st))).
Proof.
  intros Hv. unfold housedcc_fleet_move. rewrite Hv. fold (clamp31 speed).
  destruct (housedcc_pidcc_move w (v_address v) (clamp31 speed) st).
  reflexivity.
Qed.

Lemma housedcc_fleet_stop_known (w : Z) (id : string) (emergency : Z)
                                (f : Fleet) (st : PiDcc) (v : DccVehicle) :
  vehicle_at (housedcc_fleet_find id f) f = Some v ->
  housedcc_fleet_stop w id emergency (f, st) =
    (fst (housedcc_pidcc_stop w (v_address v) emergency st),
     (update_vehicle (housedcc_fleet_find id f) (set_speed 0) f,
      snd (housedcc_pidcc_stop w (v_address v) emergency st))).
Proof.
  intros Hv. unfold housedcc_fleet_stop. rewrite Hv.
  destruct (housedcc_pidcc_stop w (v_address v) emergency st).
  reflexivity.
Qed.

Lemma housedcc_fleet_set_known (shl : Z -> Z) (w : Z) (id name : string)
                               (state : Z) (f : Fleet) (st : PiDcc)
                               (v : DccVehicle) (fn : DccFunction) :
  vehicle_at (housedcc_fleet_find id f) f = Some v ->
  function_of name v f = Some fn ->
  housedcc_fleet_set shl w id name state (f, st) =
    let functions :=
      housedcc_fleet_set_mask shl (fn_index fn) state (v_functions v) in
    let f' := update_vehicle (housedcc_fleet_find id f)
                             (set_functions functions) f in
    match housedcc_fleet_set_instruction (fn_index fn) functions with
    | None => (0, (f', st))
    | Some instruction =>
        (fst (housedcc_pidcc_function w (v_address v) instruction st),
         (f', snd (housedcc_pidcc_function w (v_address v) instruction st)))
    end.
Proof.
  intros Hv Hfn. unfold housedcc_fleet_set, function_of in *. rewrite Hv.
  destruct (v_model v ≫= (fun m => Models f !! m)) as [model|];
    [|discriminate]. simpl in Hfn. rewrite Hfn. simpl.
  destruct (housedcc_fleet_set_instruction _ _); [|reflexivity].
  destruct (housedcc_pidcc_function _ _ _ _). reflexivity.
Qed.

Lemma housedcc_fleet_set_unknown (shl : Z -> Z) (w : Z) (id name : string)
                                 (state : Z) (f : Fleet) (st : PiDcc)
                                 (v : DccVehicle) :
  vehicle_at (housedcc_fleet_find id f) f = Some v ->
  function_of name v f = None ->
  housedcc_fleet_set shl w id name state (f, st) = (0, (f, st)).
Proof.
  intros Hv Hfn. unfold housedcc_fleet_set, function_of in *. rewrite Hv.
  destruct (v_model v ≫= (fun m => Models f !! m)) as [model|];
    [|reflexivity]. simpl in Hfn. rewrite Hfn. reflexivity.
Qed.

(** C9, the claim as stated fails: with the worker queue full,
    [housedcc_fleet_move] of "UP844" to step 10 returns 0 and writes
    nothing, yet the stored speed goes from 0 to 10; likewise
    [housedcc_fleet_set] of its headlight returns 0 and the stored mask goes
    from 0 to [0x1000]. *)
Lemma housedcc_fleet_failure_not_noop :
  let full := set_PiDccState "*" PiDcc_configured in
  let moved := housedcc_fleet_move 12 "UP844" 10 (fleet_UP844, full) in
  let lit := housedcc_fleet_set shl_mod32 12 "UP844" "Light" 1
               (fleet_UP844, full) in
  vehicle_at 0 fleet_UP844 = Some (mkDccVehicle "UP844" 44 0 0 (Some 0%nat))
  /\ fst moved = 0 /\ snd (snd moved) = full
  /\ vehicle_at 0 (fst (snd moved)) =
       Some (mkDccVehicle "UP844" 44 10 0 (Some 0%nat))
  /\ fst lit = 0 /\ snd (snd lit) = full
  /\ vehicle_at 0 (fst (snd lit)) =
       Some (mkDccVehicle "UP844" 44 0 0x1000 (Some 0%nat)).
Proof. vm_compute. repeat split; reflexivity. Qed.

(** C9, amended: for every fleet-level move or function-set command on an
    existing vehicle, if the transport fails (queue full, no pin configured,
    or [write] failing) the failure is reported to the caller (0 is
    returned) and nothing is written to the worker, but the registry is not
    rolled back: the stored speed is the commanded (clamped) speed and the
    stored function mask is the updated mask. Stop is attempted all the
    same: for an address in 0..127 the stop line is handed to the transport
    whatever the readiness state. *)
Theorem housedcc_fleet_transport_failure
    (shl : Z -> Z) (w : Z) (id : string) (f : Fleet) (st : PiDcc)
    (v : DccVehicle) :
  vehicle_at (housedcc_fleet_find id f) f = Some v ->
  transport_fails w st ->
  (forall speed : Z,
     let r := housedcc_fleet_move w id speed (f, st) in
     fst r = 0
     /\ PiDccWritten (snd (snd r)) = PiDccWritten st
     /\ vehicle_at (housedcc_fleet_find id f) (fst (snd r)) =
          Some (set_speed (clamp31 speed) v))
  /\ (forall (name : string) (state : Z) (fn : DccFunction),
        function_of name v f = Some fn ->
        let r := housedcc_fleet_set shl w id name state (f, st) in
        fst r = 0
        /\ PiDccWritten (snd (snd r)) = PiDccWritten st
        /\ vehicle_at (housedcc_fleet_find id f) (fst (snd r)) =
             Some (set_functions
                     (housedcc_fleet_set_mask shl (fn_index fn) state
                                              (v_functions v)) v))
  /\ (forall emergency : Z,
        0 <= v_address v <= 127 ->
        let sent := housedcc_pidcc_write w
                      (send_command (v_address v)
                                    (if emergency =? 0 then 64 else 65)) st in
        housedcc_fleet_stop w id emergency (f, st) =
          (fst sent,
           (update_vehicle (housedcc_fleet_find id f) (set_speed 0) f,
            snd sent))).
Proof.
  intros Hv Hfail. split; [|split].
  - intros speed r. subst r.
    rewrite (housedcc_fleet_move_known w id speed f st v Hv). simpl.
    destruct (housedcc_pidcc_move_fails w (v_address v) (clamp31 speed) st Hfail)
      as [Hr Hw].
    split; [exact Hr|]. split; [exact Hw|].
    apply vehicle_at_update. exact Hv.
  - intros name state fn Hfn r. subst r.
    rewrite (housedcc_fleet_set_known shl w id name state f st v fn Hv Hfn).
    cbv zeta.
    destruct (housedcc_fleet_set_instruction _ _) as [instruction|]; simpl.
    + destruct (housedcc_pidcc_function_fails w (v_address v) instruction st
                  Hfail) as [Hr Hw].
      split; [exact Hr|]. split; [exact Hw|].
      apply vehicle_at_update. exact Hv.
    + split; [reflexivity|]. split; [reflexivity|].
      apply vehicle_at_update. exact Hv.
  - intros emergency Ha sent. subst sent.
    rewrite (housedcc_fleet_stop_known w id emergency f st v Hv).
    rewrite housedcc_pidcc_stop_sends by exact Ha. reflexivity.
Qed.

Lemma housedcc_fleet_transport_failure_witness :
  let full := set_PiDccState "*" PiDcc_configured in
  let v := mkDccVehicle "UP844" 44 0 0 (Some 0%nat) in
  vehicle_at (housedcc_fleet_find "UP844" fleet_UP844) fleet_UP844 = Some v
  /\ transport_fails 12 full
  /\ fst (housedcc_fleet_move 12 "UP844" 40 (fleet_UP844, full)) = 0
  /\ vehicle_at 0 (fst (snd (housedcc_fleet_move 12 "UP844" 40
                               (fleet_UP844, full)))) =
       Some (mkDccVehicle "UP844" 44 31 0 (Some 0%nat))
  /\ fst (housedcc_fleet_set shl_mod32 12 "UP844" "Bell" 1
            (fleet_UP844, full)) = 0
  /\ vehicle_at 0 (fst (snd (housedcc_fleet_set shl_mod32 12 "UP844" "Bell" 1
                               (fleet_UP844, full)))) =
       Some (mkDccVehicle "UP844" 44 0 1 (Some 0%nat))
  /\ housedcc_fleet_stop 12 "UP844" 1 (fleet_UP844, full) =
       (1, (fleet_UP844,
            pipe_accepts 12 ("send 44 65" +:+ String "010"%char "")
              (housecapture_record "WRITE" "send 44 65" full))).
Proof.
  intros full v.
  assert (Hv : vehicle_at (housedcc_fleet_find "UP844" fleet_UP844) fleet_UP844
               = Some v) by reflexivity.
  assert (Hfail : transport_fails 12 full) by (left; reflexivity).
  destruct (housedcc_fleet_transport_failure shl_mod32 12 "UP844" fleet_UP844
              full v Hv Hfail) as (Hmove & Hset & Hstop).
  destruct (Hmove 40) as (M1 & _ & M2).
  destruct (Hset "Bell" 1 (mkDccFunction "Bell" 1) eq_refl) as (S1 & _ & S2).
  split; [exact Hv|]. split; [exact Hfail|].
  split; [exact M1|]. split; [exact M2|].
  split; [exact S1|]. split; [exact S2|].
  exact (Hstop 1 ltac:(simpl; lia)).
Defined.

(** ** Function groups *)

Lemma housedcc_fleet_set_instruction_groups (index functions : Z) :
  (index <= 4 \/ index = 13 ->
     housedcc_fleet_set_instruction index functions =
       Some (0x80 + Z.land functions 0xf
             + (if Z.land functions 0x1000 =? 0 then 0 else 0x10)))
  /\ (5 <= index <= 8 ->
       housedcc_fleet_set_instruction index functions =
         Some (0xb0 + Z.land (Z.shiftr functions 4) 0xf))
  /\ (9 <= index <= 12 ->
       housedcc_fleet_set_instruction index functions =
         Some (0xa0 + Z.land (Z.shiftr functions 8) 0xf))
  /\ (14 <= index -> housedcc_fleet_set_instruction index functions = None).
Proof.
  unfold housedcc_fleet_set_instruction.
  destruct (Z.leb_spec index 4), (Z.eqb_spec index 13),
           (Z.leb_spec index 8), (Z.leb_spec index 12);
    simpl; repeat split; intros; try reflexivity; lia.
Qed.

Lemma short_of_int_bits (z k : Z) :
  0 <= k < 16 -> Z.testbit (short_of_int z) k = Z.testbit z k.
Proof.
  intros Hk.
  rewrite <- (Z.mod_pow2_bits_low (short_of_int z) 16 k) by lia.
  rewrite <- (Z.mod_pow2_bits_low z 16 k) by lia.
  f_equal. unfold short_of_int. change (2 ^ 16) with 65536.
  rewrite Zminus_mod_idemp_l. f_equal. lia.
Qed.

(** For a function index in 1..16 the update sets or clears bit
    [index - 1] of the mask and leaves the other fifteen bits alone,
    whatever the target does with undefined shifts. *)
Lemma housedcc_fleet_set_mask_bits (shl : Z -> Z) (index state functions k : Z) :
  1 <= index <= 16 -> 0 <= k < 16 ->
  Z.testbit (housedcc_fleet_set_mask shl index state functions) k =
    if k =? index - 1 then negb (state =? 0) else Z.testbit functions k.
Proof.
  intros Hi Hk. unfold housedcc_fleet_set_mask, int_shl_1.
  destruct (Z.leb_spec 0 (index - 1)); [|lia].
  destruct (Z.ltb_spec (index - 1) 31); [|lia]. simpl andb. cbv iota.
  assert (Hmask : Z.testbit (short_of_int (Z.shiftl 1 (index - 1))) k
                  = (k =? index - 1)).
  { rewrite short_of_int_bits by lia.
    rewrite Z.shiftl_1_l, Z.pow2_bits_eqb by lia. apply Z.eqb_sym. }
  destruct (state =? 0); rewrite short_of_int_bits by lia.
  - rewrite Z.land_spec, Z.lnot_spec, Hmask by lia.
    destruct (k =? index - 1); simpl; [apply andb_false_r | apply andb_true_r].
  - rewrite Z.lor_spec, Hmask.
    destruct (k =? index - 1); simpl; [apply orb_true_r | apply orb_false_r].
Qed.

Lemma housedcc_pidcc_function_done (w a instruction : Z) (st : PiDcc) :
  0 <= a <= 127 -> PiDccState st <> "*"%char ->
  housedcc_pidcc_enabled st = true -> 0 < w ->
  housedcc_pidcc_function w a instruction st =
    (1, pipe_accepts w
          (snprintf 256 (send_command a instruction +:+ String "010"%char ""))
          (housecapture_record "WRITE" (send_command a instruction) st)).
Proof.
  intros Ha Hst Hen Hw.
  rewrite housedcc_pidcc_function_sends by (lia || assumption).
  rewrite land_0x7f by lia. apply housedcc_pidcc_write_done; assumption.
Qed.

(** C5: a function declared with index 0 ("Horn:0"), or with no index at
    all ("Bell", the unassigned [-1] where [char] is signed), is not refused:
    whatever the target makes of the undefined shift, [housedcc_fleet_set]
    returns 1 and transmits a group-one instruction; where the shift count
    is taken modulo 32 the line is [send 44 128]. For index 14 the call
    returns 0 and transmits nothing, but bit 13 of the stored mask has been
    set before the index is refused. *)
Theorem housedcc_fleet_set_unassigned_index (shl : Z -> Z) :
  let w := (fleet_unassigned, PiDcc_configured) in
  (Models fleet_unassigned !! 0%nat ≫= (fun m => Some (m_functions m))) =
    Some [mkDccFunction "Horn" 0; mkDccFunction "Bell" (-1);
          mkDccFunction "Aux" 14]
  /\ fst (housedcc_fleet_set shl 12 "UP844" "Horn" 1 w) = 1
  /\ fst (housedcc_fleet_set shl 12 "UP844" "Bell" 1 w) = 1
  /\ PiDccWritten (snd (snd (housedcc_fleet_set shl_mod32 12 "UP844" "Horn" 1 w)))
     = ["send 44 128" +:+ String "010"%char ""]
  /\ housedcc_fleet_set shl 12 "UP844" "Aux" 1 w =
       (0, (update_vehicle 0 (set_functions 0x2000) fleet_unassigned,
            PiDcc_configured)).
Proof.
  intros w. subst w.
  assert (Hv : vehicle_at (housedcc_fleet_find "UP844" fleet_unassigned)
                          fleet_unassigned
               = Some (mkDccVehicle "UP844" 44 0 0 (Some 0%nat)))
    by (vm_compute; reflexivity).
  split; [vm_compute; reflexivity|].
  split; [|split; [|split]].
  - rewrite (housedcc_fleet_set_known shl 12 "UP844" "Horn" 1 _ _ _
               (mkDccFunction "Horn" 0) Hv) by (vm_compute; reflexivity).
    cbv zeta.
    rewrite (proj1 (housedcc_fleet_set_instruction_groups _ _))
      by (left; simpl; lia).
    rewrite housedcc_pidcc_function_done;
      [reflexivity | simpl; lia | discriminate | reflexivity | lia].
  - rewrite (housedcc_fleet_set_known shl 12 "UP844" "Bell" 1 _ _ _
               (mkDccFunction "Bell" (-1)) Hv) by (vm_compute; reflexivity).
    cbv zeta.
    rewrite (proj1 (housedcc_fleet_set_instruction_groups _ _))
      by (left; simpl; lia).
    rewrite housedcc_pidcc_function_done;
      [reflexivity | simpl; lia | discriminate | reflexivity | lia].
  - vm_compute. reflexivity.
  - rewrite (housedcc_fleet_set_known shl 12 "UP844" "Aux" 1 _ _ _
               (mkDccFunction "Aux" 14) Hv) by (vm_compute; reflexivity).
    vm_compute. reflexivity.
Qed.

(** * The status receive mechanism *)

Lemma cstring_app_zero (segment rest : list ascii) :
  cstring (segment ++ Ascii.zero :: rest) = cstring segment.
Proof.
  induction segment as [|c segment IH]; simpl.
  - reflexivity.
  - destruct (Ascii.eqb c Ascii.zero); [reflexivity | f_equal; exact IH].
Qed.




(** The decoder reads the line up to the terminator of the data: what lies
    beyond it in the buffer does not matter. *)
Lemma housedcc_pidcc_decode_terminated (now : Z) (segment rest junk : list ascii)
                                       (st : PiDcc) :
  segment <> [] ->
  housedcc_pidcc_decode now (segment ++ Ascii.zero :: rest ++ Ascii.zero :: junk)
                        st
  = housedcc_pidcc_decode now (segment ++ Ascii.zero :: rest) st.
Proof.
  intros Hne. destruct segment as [|c segment]; [contradiction|].
  assert (Htext : cstring (drop 2 ((c :: segment) ++ Ascii.zero :: rest
                                   ++ Ascii.zero :: junk))
                  = cstring (drop 2 ((c :: segment) ++ Ascii.zero :: rest))).
  { destruct segment as [|d segment]; cbn [app skipn]; rewrite ?drop_0.
    - apply cstring_app_zero.
    - rewrite !cstring_app_zero. reflexivity. }
  unfold housedcc_pidcc_decode. rewrite Htext. reflexivity.
Qed.



Lemma decode_lines_cons (now : Z) (line : list ascii)
                        (lines : list (list ascii)) (st : PiDcc) :
  decode_lines now (line :: lines) st =
    decode_lines now lines (housedcc_pidcc_decode now line st).
Proof. reflexivity. Qed.


Lemma nth_middle_app (pre segment rest : list ascii) (c : ascii) :
  nth (length pre + length segment) (pre ++ segment ++ c :: rest) Ascii.zero = c.
Proof.
  rewrite app_assoc, <- length_app. apply nth_middle.
Qed.

Lemma insert_middle_app (pre segment rest : list ascii) (c d : ascii) :
  <[(length pre + length segment)%nat := d]> (pre ++ segment ++ c :: rest) =
    pre ++ segment ++ d :: rest.
Proof.
  rewrite app_assoc, <- length_app.
  replace (length (pre ++ segment)) with (length (pre ++ segment) + 0)%nat by lia.
  rewrite insert_app_r. simpl. rewrite <- app_assoc. reflexivity.
Qed.

Lemma buffer_line_closed (pre segment rest : list ascii) (c : ascii) :
  pre ++ segment ++ c :: rest = (pre ++ segment ++ [c]) ++ [] ++ rest.
Proof.
  rewrite <- (app_assoc pre), <- (app_assoc segment). reflexivity.
Qed.

Lemma buffer_segment_grown (pre segment rest : list ascii) (c : ascii) :
  pre ++ segment ++ c :: rest = pre ++ (segment ++ [c]) ++ rest.
Proof. rewrite <- (app_assoc segment). reflexivity. Qed.

(** The loop performs the framing: on a buffer [pre ++ segment ++ bytes]
    followed by the terminator, with the consumer after [pre] and the scan
    after [segment], it decodes the lines of [frame segment bytes] and
    leaves the consumer in front of what remains. *)
Lemma receive_loop_frame (now : Z) (tail_ bytes : list ascii) :
  forall (segment pre : list ascii) (st : PiDcc),
  exists pre' : list ascii,
    receive_loop (length bytes) now
                 (Z.of_nat (length pre + length segment))
                 (pre ++ segment ++ bytes ++ Ascii.zero :: tail_)
                 (Z.of_nat (length pre)) st
    = (pre' ++ snd (frame segment bytes) ++ Ascii.zero :: tail_,
       Z.of_nat (length pre'),
       decode_lines now (fst (frame segment bytes)) st)
    /\ (length pre' + length (snd (frame segment bytes))
        = length pre + length segment + length bytes)%nat.
Proof.
  induction bytes as [|c rest IH]; intros segment pre st.
  - exists pre. simpl. split; [reflexivity | lia].
  - cbn [length receive_loop frame]. rewrite Nat2Z.id.
    cbn [app]. rewrite nth_middle_app.
    destruct (is_line_end c) eqn:Hend.
    + destruct segment as [|s segment].
      * (* an empty line: the consumer stays where it is *)
        cbn [length]. rewrite Nat.add_0_r.
        destruct (Z.leb_spec (Z.of_nat (length pre)) (Z.of_nat (length pre)));
          [|lia].
        destruct (IH [c] pre st) as (pre' & Hloop & Hlen).
        exists pre'. split; [|cbn [length] in *; lia].
        cbn [length app] in Hloop. rewrite <- Hloop. f_equal; lia.
      * (* a line is complete *)
        destruct (Z.leb_spec (Z.of_nat (length pre + length (s :: segment)))
                             (Z.of_nat (length pre))); [cbn [length] in *; lia|].
        rewrite insert_middle_app.
        rewrite Nat2Z.id, drop_app_length.
        rewrite (housedcc_pidcc_decode_terminated now (s :: segment) rest tail_
                   st) by discriminate.
        destruct (IH [] (pre ++ (s :: segment) ++ [Ascii.zero])
                    (housedcc_pidcc_decode now
                       ((s :: segment) ++ Ascii.zero :: rest) st))
          as (pre' & Hloop & Hlen).
        exists pre'.
        destruct (frame [] rest) as [lines remainder] eqn:Hframe.
        cbn [fst snd] in *. rewrite decode_lines_cons.
        split; [|rewrite !length_app in Hlen; cbn [length] in *; lia].
        rewrite <- Hloop, <- buffer_line_closed.
        rewrite !length_app. cbn [length].
        f_equal; lia.
    + (* an ordinary character joins the segment *)
      destruct (IH (segment ++ [c]) pre st) as (pre' & Hloop & Hlen).
      exists pre'. split; [|rewrite length_app in Hlen; cbn [length] in *; lia].
      rewrite <- Hloop, <- buffer_segment_grown.
      rewrite length_app. cbn [length].
      f_equal; lia.
Qed.

(** ** The framing on the byte stream *)

Lemma frame_plain (plain : list ascii) :
  forallb (fun c => negb (is_line_end c)) plain = true ->
  forall segment bytes : list ascii,
    frame segment (plain ++ bytes) = frame (segment ++ plain) bytes.
Proof.
  induction plain as [|c plain IH]; intros Hplain segment bytes.
  - rewrite app_nil_r. reflexivity.
  - simpl in Hplain. apply andb_true_iff in Hplain as [Hc Hplain].
    apply negb_true_iff in Hc. cbn [app frame]. rewrite Hc.
    rewrite (IH Hplain). rewrite <- (app_assoc segment). reflexivity.
Qed.

Lemma frame_pending (left_over bytes : list ascii) :
  unframed left_over = true ->
  frame [] (left_over ++ bytes) = frame left_over bytes.
Proof.
  destruct left_over as [|c plain]; [reflexivity|].
  unfold unframed. cbn [tail]. intros Hplain.
  cbn [app frame]. destruct (is_line_end c);
    rewrite (frame_plain plain Hplain); reflexivity.
Qed.

Lemma frame_unframed (bytes : list ascii) :
  forall segment : list ascii,
    unframed segment = true -> unframed (snd (frame segment bytes)) = true.
Proof.
  induction bytes as [|c rest IH]; intros segment Hsegment; [exact Hsegment|].
  cbn [frame]. destruct (is_line_end c) eqn:Hend.
  - destruct segment as [|s segment].
    + apply IH. reflexivity.
    + specialize (IH [] eq_refl). destruct (frame [] rest). exact IH.
  - apply IH. destruct segment as [|s segment]; [reflexivity|].
    unfold unframed in *. cbn [app tail] in *.
    rewrite forallb_app, Hsegment. simpl. rewrite Hend. reflexivity.
Qed.




(** ** One call of [housedcc_pidcc_receive] *)

Lemma receiver_layout (buffer : list ascii) (consumer producer : nat) :
  (consumer <= producer)%nat ->
  take producer buffer =
    take consumer buffer ++ take (producer - consumer) (drop consumer buffer).
Proof.
  intros Hle. rewrite take_take_drop. f_equal. lia.
Qed.

(** A failed or empty [read] changes nothing but the capture log. *)
Lemma housedcc_pidcc_receive_nothing (os : OsRead) (now : Z)
                                     (rx : PiDccReceiver) (st : PiDcc) :
  match os_pending os with
  | None => True
  | Some bytes =>
      take (Z.to_nat (1023 - PiDccBufferProducer rx)) bytes = []
  end ->
  housedcc_pidcc_receive os now rx st =
    (rx, housecapture_record "ERROR" ("read(): " +:+ os_strerror os) st).
Proof.
  unfold housedcc_pidcc_receive, PIDCC_BUFFER_SIZE.
  replace (1024 - PiDccBufferProducer rx - 1)
    with (1023 - PiDccBufferProducer rx) by lia.
  destruct (os_pending os) as [bytes|]; [|reflexivity].
  intros ->. reflexivity.
Qed.

Lemma housedcc_pidcc_receive_frames_aux
    (os : OsRead) (now : Z) (buffer : list ascii) (consumer producer : nat)
    (st : PiDcc) (bytes : list ascii) :
  length buffer = 1024%nat -> (consumer <= producer <= 1023)%nat ->
  let rx := mkPiDccReceiver buffer (Z.of_nat consumer) (Z.of_nat producer) in
  unframed (pending rx) = true ->
  os_pending os = Some bytes ->
  let data := take (1023 - producer) bytes in
  data <> [] ->
  let r := housedcc_pidcc_receive os now rx st in
  snd r = decode_lines now (fst (frame (pending rx) data)) st
  /\ pending (fst r) = snd (frame (pending rx) data)
  /\ receiver_ok (fst r)
  /\ PiDccBufferProducer (fst r) =
       new_producer (Z.of_nat producer + Z.of_nat (length data))
                    (snd (frame (pending rx) data)).
Proof.
  intros Hsize Hidx rx Hunframed Hos data Hdata r.
  assert (Hpending : pending rx = take (producer - consumer) (drop consumer buffer)).
  { unfold pending, rx. cbn.
    replace (Z.to_nat (Z.of_nat producer - Z.of_nat consumer))
      with (producer - consumer)%nat by lia.
    rewrite Nat2Z.id. reflexivity. }
  set (left_over := pending rx) in *.
  assert (Hleft : length left_over = (producer - consumer)%nat).
  { rewrite Hpending, length_take, length_drop. lia. }
  assert (Hlen : (0 < length data <= 1023 - producer)%nat).
  { split; [destruct data; [contradiction | simpl; lia]|].
    unfold data. rewrite length_take. lia. }
  (* the buffer once the bytes and the terminator are in *)
  destruct (drop (producer + length data) buffer) as [|x tail_] eqn:Htail.
  { apply (f_equal length) in Htail. rewrite length_drop in Htail.
    simpl in Htail. lia. }
  assert (Htl : length tail_ = (1023 - (producer + length data))%nat).
  { apply (f_equal length) in Htail. rewrite length_drop in Htail.
    simpl in Htail. lia. }
  destruct (receive_loop_frame now tail_ (left_over ++ data)
              [] (take consumer buffer) st) as (pre' & Hloop & Hpre').
  rewrite (frame_pending left_over data Hunframed) in Hloop, Hpre'.
  rewrite length_take, Hsize in Hloop, Hpre'.
  replace (consumer `min` 1024)%nat with consumer in Hloop, Hpre' by lia.
  cbn [length app] in Hloop, Hpre'.
  rewrite Nat.add_0_r in Hloop, Hpre'. rewrite length_app in Hpre'.
  subst r. unfold housedcc_pidcc_receive, PIDCC_BUFFER_SIZE.
  cbn [PiDccBufferProducer PiDccBufferConsumer PiDccBuffer rx].
  rewrite Hos.
  replace (Z.to_nat (1024 - Z.of_nat producer - 1)) with (1023 - producer)%nat
    by lia.
  fold data.
  destruct (Z.leb_spec (Z.of_nat (length data)) 0); [lia|].
  replace (Z.to_nat (Z.of_nat producer + Z.of_nat (length data)))
    with (producer + length data)%nat by lia.
  rewrite Nat2Z.id, Htail.
  replace (Z.to_nat (Z.of_nat producer + Z.of_nat (length data)
                     - Z.of_nat consumer))
    with (length (left_over ++ data)) by (rewrite length_app; lia).
  assert (Hbuffer :
    <[(producer + length data)%nat := Ascii.zero]>
      (take producer buffer ++ data ++ x :: tail_)
    = take consumer buffer ++ (left_over ++ data) ++ Ascii.zero :: tail_).
  { replace producer with (length (take producer buffer)) at 1
      by (rewrite length_take; lia).
    rewrite insert_middle_app.
    rewrite (receiver_layout buffer consumer producer) by lia.
    rewrite <- Hpending, <- !app_assoc. reflexivity. }
  rewrite Hbuffer, Hloop.
  set (remainder := snd (frame left_over data)) in *.
  set (buffer' := pre' ++ remainder ++ Ascii.zero :: tail_).
  assert (Hsize' : length buffer' = 1024%nat).
  { unfold buffer'. rewrite !length_app. cbn [length]. lia. }
  destruct (Z.geb_spec (Z.of_nat (length pre'))
                       (Z.of_nat producer + Z.of_nat (length data))).
  - (* everything was consumed *)
    cbn [fst snd]. split; [reflexivity|].
    assert (Hnil : remainder = []) by (apply length_zero_iff_nil; lia).
    split; [rewrite Hnil; reflexivity|].
    split; [unfold receiver_ok; cbn; split; [exact Hsize' | lia]|].
    rewrite Hnil. reflexivity.
  - destruct (Z.geb_spec (Z.of_nat producer + Z.of_nat (length data))
                         (1024 - 128)).
    + (* the unconsumed bytes move to the front *)
      cbn [fst snd]. split; [reflexivity|].
      replace (Z.to_nat (Z.of_nat producer + Z.of_nat (length data)
                         - Z.of_nat (length pre')))
        with (length remainder) by lia.
      rewrite Nat2Z.id.
      assert (Hmoved : take (length remainder) (drop (length pre') buffer')
                       = remainder).
      { unfold buffer'. rewrite drop_app_length, take_app_length. reflexivity. }
      rewrite Hmoved. split.
      * unfold pending. cbn.
        replace (Z.to_nat (Z.of_nat producer + Z.of_nat (length data)
                           - Z.of_nat (length pre') - 0))
          with (length remainder) by lia.
        change (Z.to_nat 0) with 0%nat. rewrite drop_0, take_app_length.
        reflexivity.
      * split; [unfold receiver_ok; cbn; rewrite length_app, length_drop; lia|].
        cbn. unfold new_producer.
        destruct remainder; [cbn in *; lia|].
        destruct (Z.leb_spec 896 (Z.of_nat producer + Z.of_nat (length data)));
          lia.
    + (* the bytes stay where they are *)
      cbn [fst snd]. split; [reflexivity|]. split.
      * unfold pending. cbn. rewrite Nat2Z.id.
        replace (Z.to_nat (Z.of_nat producer + Z.of_nat (length data)
                           - Z.of_nat (length pre')))
          with (length remainder) by lia.
        unfold buffer'. rewrite drop_app_length, take_app_length. reflexivity.
      * split; [unfold receiver_ok; cbn; split; [exact Hsize' | lia]|].
        cbn. unfold new_producer.
        destruct remainder; [cbn in *; lia|].
        destruct (Z.leb_spec 896 (Z.of_nat producer + Z.of_nat (length data)));
          lia.
Qed.

(** One call that reads something, in the indices of the source. *)
Lemma housedcc_pidcc_receive_reads
    (os : OsRead) (now : Z) (rx : PiDccReceiver) (st : PiDcc)
    (bytes : list ascii) :
  receiver_inv rx ->
  os_pending os = Some bytes ->
  let data := take (Z.to_nat (1023 - PiDccBufferProducer rx)) bytes in
  data <> [] ->
  let r := housedcc_pidcc_receive os now rx st in
  snd r = decode_lines now (fst (frame (pending rx) data)) st
  /\ pending (fst r) = snd (frame (pending rx) data)
  /\ receiver_inv (fst r)
  /\ PiDccBufferProducer (fst r) =
       new_producer (PiDccBufferProducer rx + Z.of_nat (length data))
                    (snd (frame (pending rx) data)).
Proof.
  intros [(Hsize & Hc & Hp) Hunframed] Hos data Hdata r.
  destruct rx as [buffer consumer producer]. cbn in *.
  assert (Hcn : consumer = Z.of_nat (Z.to_nat consumer)) by lia.
  assert (Hpn : producer = Z.of_nat (Z.to_nat producer)) by lia.
  destruct (housedcc_pidcc_receive_frames_aux os now buffer
              (Z.to_nat consumer) (Z.to_nat producer) st bytes Hsize
              ltac:(lia)) as (H1 & H2 & H3 & H4).
  - rewrite <- Hcn, <- Hpn. exact Hunframed.
  - exact Hos.
  - replace (1023 - Z.to_nat producer)%nat with (Z.to_nat (1023 - producer))
      by lia. exact Hdata.
  - rewrite <- Hcn, <- Hpn in H1, H2, H3, H4.
    replace (1023 - Z.to_nat producer)%nat with (Z.to_nat (1023 - producer))
      in H1, H2, H4 by lia.
    fold data in H1, H2, H4. subst r.
    split; [exact H1|]. split; [exact H2|]. split; [|exact H4].
    split; [exact H3|]. rewrite H2. apply frame_unframed. exact Hunframed.
Qed.

Lemma PiDccReceiver_initial_inv : receiver_inv PiDccReceiver_initial.
Proof.
  split; [|reflexivity].
  unfold receiver_ok. cbn. split; [reflexivity | lia].
Qed.



(** X2: whatever [read] delivers or fails with, a call leaves the indices
    inside the buffer ([0 <= consumer <= producer <= 1023], so that the
    terminator written at [producer] is inside the 1024 bytes) and leaves no
    line end among the pending bytes past the first one. *)
Theorem housedcc_pidcc_receive_keeps_invariant
    (os : OsRead) (now : Z) (rx : PiDccReceiver) (st : PiDcc) :
  receiver_inv rx -> receiver_inv (fst (housedcc_pidcc_receive os now rx st)).
Proof.
  intros Hinv.
  destruct (os_pending os) as [bytes|] eqn:Hos.
  - destruct (take (Z.to_nat (1023 - PiDccBufferProducer rx)) bytes)
      as [|b data] eqn:Hdata.
    + rewrite housedcc_pidcc_receive_nothing; [exact Hinv|].
      rewrite Hos. exact Hdata.
    + destruct (housedcc_pidcc_receive_reads os now rx st bytes Hinv Hos)
        as (_ & _ & H3 & _); [rewrite Hdata; discriminate | exact H3].
  - rewrite housedcc_pidcc_receive_nothing; [exact Hinv|].
    rewrite Hos. exact I.
Qed.

Lemma housedcc_pidcc_receive_keeps_invariant_witness :
  receiver_inv PiDccReceiver_initial
  /\ receiver_inv
       (fst (housedcc_pidcc_receive
               (mkOsRead (Some (bytes_of "% busy" ++ [CR; LF; LF])) "")
               100 PiDccReceiver_initial PiDcc_configured)).
Proof.
  split; [exact PiDccReceiver_initial_inv|].
  exact (housedcc_pidcc_receive_keeps_invariant _ 100 _ PiDcc_configured
           PiDccReceiver_initial_inv).
Defined.

(** ** Streams of status lines *)


















(** X6: a status line of 1023 bytes or more without a line end blocks the
    receiver for good. Read into an empty buffer it is not decoded, it
    fills the buffer up to the last byte, and from then on every call asks
    [read] for 0 bytes: it records an error and changes neither the
    receiver nor the rest of the transport state, whatever the worker
    sends. *)
Theorem housedcc_pidcc_receive_blocked
    (error : string) (now : Z) (rx : PiDccReceiver) (st : PiDcc)
    (bytes : list ascii) :
  receiver_inv rx -> PiDccBufferProducer rx = 0 ->
  (1023 <= length bytes)%nat ->
  forallb (fun c => negb (is_line_end c)) (take 1023 bytes) = true ->
  let r := housedcc_pidcc_receive (mkOsRead (Some bytes) error) now rx st in
  snd r = st
  /\ PiDccBufferProducer (fst r) = 1023
  /\ forall (os : OsRead) (now' : Z) (st' : PiDcc),
       housedcc_pidcc_receive os now' (fst r) st' =
         (fst r, housecapture_record "ERROR"
                   ("read(): " +:+ os_strerror os) st').
Proof.
  intros Hinv Hp Hlong Hplain r.
  assert (Hpending : pending rx = []).
  { destruct Hinv as [(_ & Hc & _) _]. unfold pending.
    replace (PiDccBufferProducer rx - PiDccBufferConsumer rx) with 0 by lia.
    reflexivity. }
  destruct (housedcc_pidcc_receive_reads (mkOsRead (Some bytes) error) now rx
              st bytes Hinv eq_refl) as (H1 & _ & _ & H4).
  - rewrite Hp. change (Z.to_nat (1023 - 0)) with 1023%nat.
    destruct bytes; [simpl in Hlong; lia | discriminate].
  - rewrite Hp in H1, H4. change (Z.to_nat (1023 - 0)) with 1023%nat in H1, H4.
    rewrite Hpending in H1, H4.
    assert (Hframe : frame [] (take 1023 bytes) = ([], take 1023 bytes)).
    { rewrite <- (app_nil_r (take 1023 bytes)) at 1.
      rewrite (frame_plain _ Hplain). reflexivity. }
    rewrite Hframe in H1, H4. cbn [fst snd] in H1, H4.
    fold r in H1, H4.
    assert (Hprod : PiDccBufferProducer (fst r) = 1023).
    { assert (Hl : length (take 1023 bytes) = 1023%nat)
        by (rewrite length_take; lia).
      rewrite H4. unfold new_producer.
      destruct (take 1023 bytes) as [|a l]; [discriminate Hl|].
      rewrite Hl. reflexivity. }
    split; [exact H1|]. split; [exact Hprod|].
    intros os now' st'. apply housedcc_pidcc_receive_nothing.
    rewrite Hprod. destruct (os_pending os); [reflexivity | exact I].
Qed.

Lemma housedcc_pidcc_receive_blocked_witness :
  let noise := replicate 1100 "x"%char in
  let r := housedcc_pidcc_receive (mkOsRead (Some noise) "") 100
             PiDccReceiver_initial PiDcc_configured in
  receiver_inv PiDccReceiver_initial
  /\ PiDccBufferProducer (fst r) = 1023
  /\ housedcc_pidcc_receive (mkOsRead (Some (bytes_of "# idle" ++ [LF])) "EOF")
       101 (fst r) (snd r) =
     (fst r, housecapture_record "ERROR" "read(): EOF" PiDcc_configured).
Proof.
  intros noise r.
  destruct (housedcc_pidcc_receive_blocked "" 100 PiDccReceiver_initial
              PiDcc_configured noise PiDccReceiver_initial_inv eq_refl
              ltac:(vm_compute; lia) ltac:(vm_compute; reflexivity))
    as (H1 & H2 & H3).
  split; [exact PiDccReceiver_initial_inv|]. split; [exact H2|].
  fold r in H1. rewrite H1.
  exact (H3 (mkOsRead (Some (bytes_of "# idle" ++ [LF])) "EOF") 101
            PiDcc_configured).
Defined.

(** * The transport commands *)

(** What every path through [housedcc_pidcc_write] does to the state. *)
Lemma housedcc_pidcc_write_effect (w : Z) (text : string) (st : PiDcc) :
  let r := housedcc_pidcc_write w text st in
  link_state (snd r) = link_state st
  /\ GpioPinA (snd r) = GpioPinA st /\ GpioPinB (snd r) = GpioPinB st
  /\ (exists action, PiDccCaptured (snd r) = PiDccCaptured st ++ [(action, text)])
  /\ ((fst r = 1 /\ exists line, PiDccWritten (snd r) = PiDccWritten st ++ [line])
      \/ (fst r = 0 /\ PiDccWritten (snd r) = PiDccWritten st)).
Proof.
  unfold housedcc_pidcc_write.
  destruct (housedcc_pidcc_enabled st); cbn [negb].
  - destruct (w <=? 0); cbn.
    + repeat split; eauto.
    + repeat split; eauto.
  - cbn. repeat split; eauto.
Qed.

Lemma housedcc_pidcc_commands_write (w a x y : Z) (st : PiDcc) :
  gives_up_or_writes w st (housedcc_pidcc_move w a x st)
  /\ gives_up_or_writes w st (housedcc_pidcc_stop w a x st)
  /\ gives_up_or_writes w st (housedcc_pidcc_function w a x st)
  /\ gives_up_or_writes w st (housedcc_pidcc_accessory w a x y st).
Proof.
  unfold gives_up_or_writes, housedcc_pidcc_move, housedcc_pidcc_stop,
         housedcc_pidcc_function, housedcc_pidcc_accessory.
  repeat split.
  - destruct ((a <=? 0) || (a >=? 128)); [left; reflexivity|].
    destruct (Ascii.eqb (PiDccState st) "*"); [left; reflexivity|].
    destruct (Z.abs x >? 28); [left; reflexivity | right; eauto].
  - destruct ((a <? 0) || (a >=? 128)); [left; reflexivity | right; eauto].
  - destruct (a >=? 128); [left; reflexivity|].
    destruct (Ascii.eqb (PiDccState st) "*"); [left; reflexivity | right; eauto].
  - destruct (a >=? 512); [left; reflexivity|].
    destruct (Ascii.eqb (PiDccState st) "*"); [left; reflexivity | right; eauto].
Qed.

(** X7: no command touches what the worker reported: after
    [housedcc_pidcc_move] (with a speed above [INT_MIN], where [abs] is
    defined), [_stop], [_function] and [_accessory] the readiness state, its
    deadline, the worker process and the two descriptors are what they
    were, and so are the configured pins; the capture log only grows. *)
Theorem housedcc_pidcc_commands_keep_readiness
    (w a speed emergency instruction device value : Z) (st : PiDcc) :
  let untouched (r : Z * PiDcc) :=
    link_state (snd r) = link_state st
    /\ GpioPinA (snd r) = GpioPinA st /\ GpioPinB (snd r) = GpioPinB st
    /\ exists more, PiDccCaptured (snd r) = PiDccCaptured st ++ more in
  (INT_MIN < speed <= INT_MAX -> untouched (housedcc_pidcc_move w a speed st))
  /\ untouched (housedcc_pidcc_stop w a emergency st)
  /\ untouched (housedcc_pidcc_function w a instruction st)
  /\ untouched (housedcc_pidcc_accessory w a device value st).
Proof.
  intros untouched.
  assert (H : forall r, gives_up_or_writes w st r -> untouched r).
  { intros r [-> | [text ->]]; unfold untouched.
    - cbn. repeat split. exists []. rewrite app_nil_r. reflexivity.
    - destruct (housedcc_pidcc_write_effect w text st)
        as (H1 & H2 & H3 & [action H4] & _).
      repeat split; try assumption. eauto. }
  split; [intros _|split; [|split]]; apply H.
  - apply (housedcc_pidcc_commands_write w a speed 0 st).
  - apply (housedcc_pidcc_commands_write w a emergency 0 st).
  - apply (housedcc_pidcc_commands_write w a instruction 0 st).
  - apply (housedcc_pidcc_commands_write w a device value st).
Qed.

Lemma housedcc_pidcc_commands_keep_readiness_witness :
  INT_MIN < 10 <= INT_MAX
  /\ link_state (snd (housedcc_pidcc_move 12 44 10 PiDcc_configured))
     = link_state PiDcc_configured
  /\ GpioPinA (snd (housedcc_pidcc_move 12 44 10 PiDcc_configured)) = 18.
Proof.
  assert (Hspeed : INT_MIN < 10 <= INT_MAX) by (unfold INT_MIN, INT_MAX; lia).
  destruct (housedcc_pidcc_commands_keep_readiness 12 44 10 0 0 0 0
              PiDcc_configured) as (Hmove & _).
  destruct (Hmove Hspeed) as (Hlink & HpinA & _).
  split; [exact Hspeed|]. split; [exact Hlink | exact HpinA].
Defined.

(** X8: the return value of a command tells whether [write] took a line:
    1 is returned exactly when one entry was added to what the pipe
    accepted, and 0 exactly when the pipe was left as it was; no other
    value is returned. For [housedcc_pidcc_move] this is for a speed above
    [INT_MIN], where [abs] is defined. *)
Theorem housedcc_pidcc_commands_report_write
    (w a speed emergency instruction device value : Z) (st : PiDcc) :
  let reported (r : Z * PiDcc) :=
    (fst r = 1 /\ exists line, PiDccWritten (snd r) = PiDccWritten st ++ [line])
    \/ (fst r = 0 /\ PiDccWritten (snd r) = PiDccWritten st) in
  (INT_MIN < speed <= INT_MAX -> reported (housedcc_pidcc_move w a speed st))
  /\ reported (housedcc_pidcc_stop w a emergency st)
  /\ reported (housedcc_pidcc_function w a instruction st)
  /\ reported (housedcc_pidcc_accessory w a device value st).
Proof.
  intros reported.
  assert (H : forall r, gives_up_or_writes w st r -> reported r).
  { intros r [-> | [text ->]]; unfold reported.
    - right. split; reflexivity.
    - apply housedcc_pidcc_write_effect. }
  split; [intros _|split; [|split]]; apply H.
  - apply (housedcc_pidcc_commands_write w a speed 0 st).
  - apply (housedcc_pidcc_commands_write w a emergency 0 st).
  - apply (housedcc_pidcc_commands_write w a instruction 0 st).
  - apply (housedcc_pidcc_commands_write w a device value st).
Qed.

Lemma housedcc_pidcc_commands_report_write_witness :
  INT_MIN < 10 <= INT_MAX
  /\ (fst (housedcc_pidcc_move 12 44 10 PiDcc_configured) = 1
      \/ fst (housedcc_pidcc_move 12 44 10 PiDcc_configured) = 0).
Proof.
  assert (Hspeed : INT_MIN < 10 <= INT_MAX) by (unfold INT_MIN, INT_MAX; lia).
  destruct (housedcc_pidcc_commands_report_write 12 44 10 0 0 0 0
              PiDcc_configured) as (Hmove & _).
  split; [exact Hspeed|].
  destruct (Hmove Hspeed) as [[Hone _] | [Hzero _]];
    [left; exact Hone | right; exact Hzero].
Defined.

Lemma string_length_append (s t : string) :
  String.length (s +:+ t) = (String.length s + String.length t)%nat.
Proof. induction s as [|c s IH]; simpl; [reflexivity | f_equal; exact IH]. Qed.

Lemma substring_prefix_length (n : nat) (s : string) :
  (n <= String.length s)%nat -> String.length (String.substring 0 n s) = n.
Proof.
  revert n. induction s as [|c s IH]; intros [|n] Hn; simpl in *;
    try reflexivity; try lia.
  f_equal. apply IH. lia.
Qed.

(** X9: a short write passes for a success. When [write] takes only [w]
    bytes of the [length text + 1] of the line, [housedcc_pidcc_write]
    (and so the command that built the line) returns 1, although the worker
    got a line cut short, without its line end. *)
Theorem housedcc_pidcc_write_short (w : Z) (text : string) (st : PiDcc) :
  housedcc_pidcc_enabled st = true ->
  (String.length text <= 254)%nat ->
  0 < w <= Z.of_nat (String.length text) ->
  let r := housedcc_pidcc_write w text st in
  fst r = 1
  /\ exists sent : string,
       PiDccWritten (snd r) = PiDccWritten st ++ [sent]
       /\ sent = String.substring 0 (Z.to_nat w) text
       /\ Z.of_nat (String.length sent) = w.
Proof.
  intros Hen Hlen Hw r. subst r.
  rewrite housedcc_pidcc_write_done by (assumption || lia).
  split; [reflexivity|].
  exists (String.substring 0 (Z.to_nat w) text). cbn.
  assert (Hline : snprintf 256 (text +:+ String "010"%char "")
                  = text +:+ String "010"%char "").
  { apply snprintf_short. rewrite string_length_append. simpl. lia. }
  assert (Hcut : forall (n : nat) (s t : string),
            (n <= String.length s)%nat ->
            String.substring 0 n (s +:+ t) = String.substring 0 n s).
  { intros n s. revert n. induction s as [|c s IH]; intros [|n] t Hn;
      simpl in *; try reflexivity; try lia.
    - destruct t; reflexivity.
    - f_equal. apply IH. lia. }
  rewrite Hline, Hcut by lia.
  split; [reflexivity|]. split; [reflexivity|].
  rewrite substring_prefix_length by lia. lia.
Qed.

Lemma housedcc_pidcc_write_short_witness :
  let r := housedcc_pidcc_stop 4 44 1 PiDcc_configured in
  housedcc_pidcc_enabled PiDcc_configured = true
  /\ fst (housedcc_pidcc_write 4 "send 44 65" PiDcc_configured) = 1
  /\ fst r = 1 /\ PiDccWritten (snd r) = ["send"].
Proof.
  intros r.
  destruct (housedcc_pidcc_write_short 4 "send 44 65" PiDcc_configured
              eq_refl ltac:(simpl; lia) ltac:(simpl; lia)) as [H1 _].
  split; [reflexivity|]. split; [exact H1|]. split; reflexivity.
Defined.

(** ** Readiness over time *)

Lemma housedcc_pidcc_periodic_pins (os : OsAnswers) (now : Z) (st : PiDcc) :
  GpioPinA (housedcc_pidcc_periodic os now st) = GpioPinA st
  /\ GpioPinB (housedcc_pidcc_periodic os now st) = GpioPinB st
  /\ PiDccWritten (housedcc_pidcc_periodic os now st) = PiDccWritten st.
Proof.
  unfold housedcc_pidcc_periodic, housedcc_pidcc_deceased, housedcc_pidcc_launch.
  destruct (Ascii.eqb (PiDccState st) "*"), (PiDccStateDeadline st <? now);
    cbv iota;
    (destruct (Z.rem now 5 =? 0); [|repeat split; reflexivity]);
    match goal with
    | |- context [PiDccProcess ?x <=? 0] => destruct (PiDccProcess x <=? 0)
    end;
    try match goal with
    | |- context [os_waitpid os =? ?x] => destruct (os_waitpid os =? x)
    end;
    simpl;
    destruct (os_pipe_listen os), (os_pipe_transmit os); simpl;
    try destruct (os_fork os <? 0); repeat split; reflexivity.
Qed.

Lemma housedcc_pidcc_move_done (w a s : Z) (st : PiDcc) :
  1 <= a <= 127 -> Z.abs s <= 28 -> PiDccState st <> "*"%char ->
  housedcc_pidcc_enabled st = true -> 0 < w ->
  fst (housedcc_pidcc_move w a s st) = 1.
Proof.
  intros Ha Hs Hst Hen Hw.
  rewrite housedcc_pidcc_move_sends by assumption.
  rewrite housedcc_pidcc_write_done by assumption. reflexivity.
Qed.

(** X10: recovery from a full queue. Once a queue-full line has been
    decoded at time [received], a move with valid arguments, configured
    pins and a working pipe is refused, and it is still refused after every
    tick up to [received + 3]; after a tick later than that it is sent and
    returns 1. *)
Theorem housedcc_pidcc_queue_full_recovery
    (os : OsAnswers) (received now w a s : Z) (rest : list ascii)
    (st : PiDcc) :
  housedcc_pidcc_enabled st = true -> 0 < w ->
  1 <= a <= 127 -> Z.abs s <= 28 ->
  let full := housedcc_pidcc_decode received ("*"%char :: rest) st in
  fst (housedcc_pidcc_move w a s full) = 0
  /\ (now <= received + 3 ->
        fst (housedcc_pidcc_move w a s (housedcc_pidcc_periodic os now full)) = 0)
  /\ (received + 3 < now ->
        fst (housedcc_pidcc_move w a s (housedcc_pidcc_periodic os now full)) = 1).
Proof.
  intros Hen Hw Ha Hs full.
  assert (Hfull : PiDccState full = "*"%char) by reflexivity.
  assert (Hdeadline : PiDccStateDeadline full = received + 3) by reflexivity.
  assert (Hpins : housedcc_pidcc_enabled full = true) by exact Hen.
  destruct (housedcc_pidcc_periodic_readiness os now full) as [Hstate _].
  destruct (housedcc_pidcc_periodic_pins os now full) as (HA & HB & _).
  rewrite Hfull, Hdeadline in Hstate. simpl in Hstate.
  split; [|split].
  - destruct (housedcc_pidcc_move_fails w a s full) as [H _];
      [left; exact Hfull | exact H].
  - intros Hearly.
    destruct (Z.ltb_spec (received + 3) now); [lia|].
    destruct (housedcc_pidcc_move_fails w a s
                (housedcc_pidcc_periodic os now full)) as [Hzero _];
      [left; exact Hstate | exact Hzero].
  - intros Hlate.
    destruct (Z.ltb_spec (received + 3) now); [|lia].
    apply housedcc_pidcc_move_done; try assumption.
    + rewrite Hstate. discriminate.
    + unfold housedcc_pidcc_enabled in *. rewrite HA, HB. exact Hpins.
Qed.

Lemma housedcc_pidcc_queue_full_recovery_witness :
  let full := housedcc_pidcc_decode 100 (bytes_of "* queue full")
                PiDcc_configured in
  housedcc_pidcc_enabled PiDcc_configured = true
  /\ fst (housedcc_pidcc_move 12 44 10 full) = 0
  /\ fst (housedcc_pidcc_move 12 44 10
            (housedcc_pidcc_periodic os_quiet 103 full)) = 0
  /\ fst (housedcc_pidcc_move 12 44 10
            (housedcc_pidcc_periodic os_quiet 104 full)) = 1.
Proof.
  intros full.
  destruct (housedcc_pidcc_queue_full_recovery os_quiet 100 103 12 44 10
              (bytes_of " queue full") PiDcc_configured eq_refl ltac:(lia) ltac:(lia)
              ltac:(simpl; lia)) as (H1 & H2 & _).
  destruct (housedcc_pidcc_queue_full_recovery os_quiet 100 104 12 44 10
              (bytes_of " queue full") PiDcc_configured eq_refl ltac:(lia) ltac:(lia)
              ltac:(simpl; lia)) as (_ & _ & H3).
  split; [reflexivity|]. split; [exact H1|].
  split; [exact (H2 ltac:(lia)) | exact (H3 ltac:(lia))].
Defined.

Lemma housedcc_pidcc_decode_known (now : Z) (line : list ascii) (st : PiDcc) :
  readiness_known (PiDccState st) = true ->
  readiness_known (PiDccState (housedcc_pidcc_decode now line st)) = true.
Proof.
  intros Hknown. unfold housedcc_pidcc_decode.
  generalize (hd Ascii.zero line) as c. intros c.
  destruct (Ascii.eqb c Ascii.zero); [exact Hknown|].
  destruct (Ascii.eqb_spec c "#"); [subst; reflexivity|].
  destruct (Ascii.eqb_spec c "%"); [subst; reflexivity|].
  destruct (Ascii.eqb_spec c "*"); [subst; reflexivity|].
  destruct (Ascii.eqb c "!"); [exact Hknown|].
  destruct (Ascii.eqb c "$"); exact Hknown.
Qed.

Lemma decode_lines_known (now : Z) (lines : list (list ascii)) (st : PiDcc) :
  readiness_known (PiDccState st) = true ->
  readiness_known (PiDccState (decode_lines now lines st)) = true.
Proof.
  revert st. induction lines as [|line lines IH]; intros st Hknown;
    [exact Hknown|].
  rewrite decode_lines_cons. apply IH, housedcc_pidcc_decode_known, Hknown.
Qed.

Lemma housedcc_pidcc_config_link (w pina pinb : Z) (st : PiDcc) :
  link_state (housedcc_pidcc_config w pina pinb st) = link_state st.
Proof.
  unfold housedcc_pidcc_config.
  destruct (housedcc_pidcc_enabled (set_GpioPins pina pinb st)); cbn [negb];
    [|reflexivity].
  match goal with
  | |- context [housedcc_pidcc_write ?w ?t ?s] =>
      destruct (housedcc_pidcc_write_effect w t s) as [H _]
  end.
  cbv zeta in H. rewrite H. reflexivity.
Qed.

Lemma link_state_readiness (st st' : PiDcc) :
  link_state st' = link_state st -> PiDccState st' = PiDccState st.
Proof. unfold link_state. intros H. injection H. auto. Qed.

Lemma pidcc_step_keeps (e : PiDccEvent) (s : PiDccReceiver * PiDcc) :
  receiver_inv (fst s) /\ readiness_known (PiDccState (snd s)) = true ->
  receiver_inv (fst (pidcc_step e s))
  /\ readiness_known (PiDccState (snd (pidcc_step e s))) = true.
Proof.
  destruct s as [rx st]. cbn [fst snd]. intros [Hinv Hknown].
  assert (Hcommand : forall w r, gives_up_or_writes w st r ->
            readiness_known (PiDccState (snd r)) = true).
  { intros w r [-> | [text ->]]; [exact Hknown|].
    destruct (housedcc_pidcc_write_effect w text st) as [H _].
    rewrite (link_state_readiness _ _ H). exact Hknown. }
  destruct e as [os now | os now | w pina pinb | w a x | w a x | w a x
                 | w a x y]; cbn [pidcc_step fst snd].
  - (* a read *)
    destruct (os_pending os) as [bytes|] eqn:Hos.
    + destruct (take (Z.to_nat (1023 - PiDccBufferProducer rx)) bytes)
        as [|b data] eqn:Hdata.
      * rewrite housedcc_pidcc_receive_nothing by (rewrite Hos; exact Hdata).
        split; assumption.
      * destruct (housedcc_pidcc_receive_reads os now rx st bytes Hinv Hos)
          as (H1 & _ & H3 & _); [rewrite Hdata; discriminate|].
        split; [exact H3|]. rewrite H1. apply decode_lines_known, Hknown.
    + rewrite housedcc_pidcc_receive_nothing by (rewrite Hos; exact I).
      split; assumption.
  - (* a tick *)
    split; [exact Hinv|].
    destruct (housedcc_pidcc_periodic_readiness os now st) as [-> _].
    destruct (Ascii.eqb (PiDccState st) "*" && (PiDccStateDeadline st <? now));
      [reflexivity | exact Hknown].
  - split; [exact Hinv|].
    rewrite (link_state_readiness _ _ (housedcc_pidcc_config_link w pina pinb st)).
    exact Hknown.
  - split; [exact Hinv|].
    apply (Hcommand w), (housedcc_pidcc_commands_write w a x 0 st).
  - split; [exact Hinv|].
    apply (Hcommand w), (housedcc_pidcc_commands_write w a x 0 st).
  - split; [exact Hinv|].
    apply (Hcommand w), (housedcc_pidcc_commands_write w a x 0 st).
  - split; [exact Hinv|].
    apply (Hcommand w), (housedcc_pidcc_commands_write w a x y st).
Qed.

(** X11: in every state that the transport reaches from its initial state,
    through any sequence of reads, ticks, configurations and commands and
    whatever the operating system and the worker answer, the readiness
    state is NUL (nothing received yet), ['#'], ['%'] or ['*'], and the
    receiver indices are inside the buffer. *)
Theorem pidcc_run_readiness_known (events : list PiDccEvent) :
  let s := pidcc_run events (PiDccReceiver_initial, PiDcc_initial) in
  readiness_known (PiDccState (snd s)) = true /\ receiver_inv (fst s).
Proof.
  cbv zeta.
  assert (H : forall s,
            receiver_inv (fst s)
            /\ readiness_known (PiDccState (snd s)) = true ->
            receiver_inv (fst (pidcc_run events s))
            /\ readiness_known (PiDccState (snd (pidcc_run events s))) = true).
  { induction events as [|e events IH]; intros s Hs; [exact Hs|].
    cbn [pidcc_run fold_left]. apply IH, pidcc_step_keeps, Hs. }
  destruct (H (PiDccReceiver_initial, PiDcc_initial)) as [H1 H2].
  - split; [exact PiDccReceiver_initial_inv | reflexivity].
  - split; assumption.
Qed.

(** * Fleet commands on the wire *)

(** X12: for a vehicle at a valid address, [housedcc_fleet_move] with speed
    0 and [housedcc_fleet_stop] without emergency are the same operation
    (same stored speed, same line [send address 64], same result) as long
    as the worker queue is not full; when it is full the move is refused
    while the stop is still sent. *)
Theorem housedcc_fleet_move_zero_is_stop
    (w : Z) (id : string) (f : Fleet) (st : PiDcc) (v : DccVehicle) :
  vehicle_at (housedcc_fleet_find id f) f = Some v ->
  1 <= v_address v <= 127 ->
  (PiDccState st <> "*"%char ->
     housedcc_fleet_move w id 0 (f, st) = housedcc_fleet_stop w id 0 (f, st))
  /\ (PiDccState st = "*"%char ->
      housedcc_pidcc_enabled st = true -> 0 < w ->
      fst (housedcc_fleet_move w id 0 (f, st)) = 0
      /\ fst (housedcc_fleet_stop w id 0 (f, st)) = 1).
Proof.
  intros Hv Ha.
  rewrite (housedcc_fleet_move_known w id 0 f st v Hv).
  rewrite (housedcc_fleet_stop_known w id 0 f st v Hv).
  change (clamp31 0) with 0. split.
  - intros Hst.
    rewrite housedcc_pidcc_move_sends by (assumption || simpl; lia).
    rewrite housedcc_pidcc_stop_sends by lia. reflexivity.
  - intros Hst Hen Hw. cbn [fst]. split.
    + apply housedcc_pidcc_move_fails. left. exact Hst.
    + rewrite housedcc_pidcc_stop_sends by lia.
      rewrite housedcc_pidcc_write_done by assumption. reflexivity.
Qed.

Lemma housedcc_fleet_move_zero_is_stop_witness :
  let full := set_PiDccState "*" PiDcc_configured in
  housedcc_fleet_move 12 "UP844" 0 (fst world_UP844_running, PiDcc_configured)
  = housedcc_fleet_stop 12 "UP844" 0 (fst world_UP844_running, PiDcc_configured)
  /\ fst (housedcc_fleet_move 12 "UP844" 0 (fst world_UP844_running, full)) = 0
  /\ fst (housedcc_fleet_stop 12 "UP844" 0 (fst world_UP844_running, full)) = 1.
Proof.
  intros full.
  destruct (housedcc_fleet_move_zero_is_stop 12 "UP844"
              (fst world_UP844_running) PiDcc_configured
              (mkDccVehicle "UP844" 44 (-20) 0x1000 (Some 0%nat))
              eq_refl ltac:(simpl; lia)) as [H1 _].
  destruct (housedcc_fleet_move_zero_is_stop 12 "UP844"
              (fst world_UP844_running) full
              (mkDccVehicle "UP844" 44 (-20) 0x1000 (Some 0%nat))
              eq_refl ltac:(simpl; lia)) as [_ H2].
  split; [exact (H1 ltac:(discriminate))|].
  exact (H2 eq_refl eq_refl ltac:(lia)).
Defined.

Lemma speed2cssss_steps (step : Z) :
  1 <= step <= 28 ->
  nth (Z.to_nat step) speed2cssss 0 = cssss_of_step step
  /\ 2 <= cssss_of_step step mod 16 /\ 0 <= cssss_of_step step < 32.
Proof.
  intros Hs.
  assert (H : forallb (fun s => (nth (Z.to_nat s) speed2cssss 0 =? cssss_of_step s)
                                && (2 <=? cssss_of_step s mod 16)
                                && (0 <=? cssss_of_step s)
                                && (cssss_of_step s <? 32))
                      (seqZ 1 28) = true)
    by (vm_compute; reflexivity).
  rewrite forallb_forall in H. specialize (H step).
  rewrite <- list_elem_of_In, elem_of_seqZ in H. specialize (H ltac:(lia)).
  rewrite !andb_true_iff in H. destruct H as [[[H1 H2] H3] H4].
  apply Z.eqb_eq in H1. apply Z.leb_le in H2, H3. apply Z.ltb_lt in H4.
  repeat split; assumption.
Qed.

(** X13: the speed table is the 28-step field of the protocol. For a step
    of magnitude 1..28 the entry is [(step + 3) / 2] in the low four bits
    with bit 4 set for the even steps, so the low four bits of a move at a
    non-zero step are at least 2: never the stop code 0 nor the emergency
    stop code 1; step 0 alone is sent as [0x40], the byte of a normal
    stop. *)
Theorem housedcc_pidcc_move_step_codes (w a s : Z) (st : PiDcc) :
  1 <= a <= 127 -> Z.abs s <= 28 -> PiDccState st <> "*"%char ->
  (s = 0 ->
     housedcc_pidcc_move w a s st =
       housedcc_pidcc_write w (send_command a 0x40) st)
  /\ (s <> 0 ->
      housedcc_pidcc_move w a s st =
        housedcc_pidcc_write w
          (send_command a (0x40 + (if 0 <? s then 0x20 else 0)
                           + cssss_of_step (Z.abs s))) st
      /\ 2 <= cssss_of_step (Z.abs s) mod 16
      /\ 0 <= cssss_of_step (Z.abs s) < 32).
Proof.
  intros Ha Hs Hst. rewrite housedcc_pidcc_move_sends by assumption. split.
  - intros ->. reflexivity.
  - intros Hnz.
    destruct (speed2cssss_steps (Z.abs s) ltac:(lia)) as (Hcode & Hlow & Hrange).
    rewrite Hcode, (Z.gtb_ltb s 0).
    change 0x1f with (Z.ones 5). rewrite Z.land_ones by lia.
    rewrite Z.mod_small by (change (2 ^ 5) with 32; lia).
    repeat split; try assumption; lia.
Qed.

Lemma housedcc_pidcc_move_step_codes_witness :
  housedcc_pidcc_move 12 44 0 PiDcc_configured =
    housedcc_pidcc_write 12 "send 44 64" PiDcc_configured
  /\ housedcc_pidcc_move 12 44 (-1) PiDcc_configured =
       housedcc_pidcc_write 12 "send 44 66" PiDcc_configured
  /\ housedcc_pidcc_move 12 44 28 PiDcc_configured =
       housedcc_pidcc_write 12 "send 44 127" PiDcc_configured.
Proof.
  destruct (housedcc_pidcc_move_step_codes 12 44 0 PiDcc_configured
              ltac:(lia) ltac:(simpl; lia) ltac:(discriminate)) as [H0 _].
  destruct (housedcc_pidcc_move_step_codes 12 44 (-1) PiDcc_configured
              ltac:(lia) ltac:(simpl; lia) ltac:(discriminate)) as [_ H1].
  destruct (housedcc_pidcc_move_step_codes 12 44 28 PiDcc_configured
              ltac:(lia) ltac:(simpl; lia) ltac:(discriminate)) as [_ H28].
  split; [exact (H0 eq_refl)|].
  split; [exact (proj1 (H1 ltac:(lia))) | exact (proj1 (H28 ltac:(lia)))].
Defined.

(** X14: supervision of the worker. A tick whose time is not a multiple of
    5 leaves the worker process and the descriptors alone, and so does a
    tick at a multiple of 5 while [waitpid] does not report the worker's
    exit. When the worker is not running or has just exited, such a tick
    records "PiDCC died" and, if both pipes and the fork succeed, installs
    the new process with the write end of the transmit pipe and the read
    end of the listen pipe. *)
Theorem housedcc_pidcc_periodic_supervision
    (os : OsAnswers) (now : Z) (st : PiDcc) :
  let st' := housedcc_pidcc_periodic os now st in
  (Z.rem now 5 <> 0 -> worker_link st' = worker_link st)
  /\ (0 < PiDccProcess st -> os_waitpid os <> PiDccProcess st ->
      worker_link st' = worker_link st)
  /\ (Z.rem now 5 = 0 ->
      PiDccProcess st <= 0 \/ os_waitpid os = PiDccProcess st ->
      forall listen_pipe transmit_pipe : Z * Z,
        os_pipe_listen os = Some listen_pipe ->
        os_pipe_transmit os = Some transmit_pipe ->
        0 <= os_fork os ->
        worker_link st' = (os_fork os, snd transmit_pipe, fst listen_pipe)
        /\ exists before,
             PiDccCaptured st' = before ++ [("ERROR", "PiDCC died")]).
Proof.
  cbv zeta. unfold housedcc_pidcc_periodic.
  set (st1 := if Ascii.eqb (PiDccState st) "*" then _ else st).
  assert (Hlink : worker_link st1 = worker_link st
                  /\ exists more, PiDccCaptured st1 = PiDccCaptured st ++ more).
  { unfold st1. destruct (Ascii.eqb (PiDccState st) "*");
      [destruct (PiDccStateDeadline st <? now)|];
      (split; [reflexivity|]); try (exists []; apply eq_sym, app_nil_r).
    exists [("TIMEOUT", "")]. reflexivity. }
  destruct Hlink as [Hlink [more Hmore]].
  assert (Hprocess : PiDccProcess st1 = PiDccProcess st)
    by (unfold worker_link in Hlink; injection Hlink; auto).
  split; [|split].
  - intros Hodd. destruct (Z.eqb_spec (Z.rem now 5) 0); [contradiction|].
    exact Hlink.
  - intros Hrun Halive. destruct (Z.rem now 5 =? 0); [|exact Hlink].
    unfold housedcc_pidcc_deceased. rewrite Hprocess.
    destruct (Z.leb_spec (PiDccProcess st) 0); [lia|].
    destruct (Z.eqb_spec (os_waitpid os) (PiDccProcess st)); [contradiction|].
    exact Hlink.
  - intros Hfive Hdead listen_pipe transmit_pipe Hl Ht Hfork.
    rewrite Hfive. cbn [Z.eqb].
    unfold housedcc_pidcc_deceased, housedcc_pidcc_launch.
    rewrite Hprocess, Hl, Ht.
    destruct (Z.leb_spec (PiDccProcess st) 0).
    + cbn. destruct (Z.ltb_spec (os_fork os) 0); [lia|]. cbn.
      split; [reflexivity|]. rewrite Hmore. eauto.
    + destruct Hdead as [Hdead | Hdead]; [lia|].
      rewrite Hdead, Z.eqb_refl. cbn.
      destruct (Z.ltb_spec (os_fork os) 0); [lia|]. cbn.
      split; [reflexivity|]. rewrite Hmore. eauto.
Qed.

Lemma housedcc_pidcc_periodic_supervision_witness :
  let os := mkOsAnswers 0 (Some (5, 6)) (Some (7, 8)) 4321 in
  worker_link (housedcc_pidcc_periodic os 101 PiDcc_configured) = (0, 0, 0)
  /\ worker_link (housedcc_pidcc_periodic os 105 PiDcc_configured)
     = (4321, 8, 5)
  /\ worker_link
       (housedcc_pidcc_periodic os 110
          (housedcc_pidcc_periodic os 105 PiDcc_configured)) = (4321, 8, 5).
Proof.
  intros os.
  destruct (housedcc_pidcc_periodic_supervision os 101 PiDcc_configured)
    as (H1 & _ & _).
  destruct (housedcc_pidcc_periodic_supervision os 105 PiDcc_configured)
    as (_ & _ & H3).
  destruct (housedcc_pidcc_periodic_supervision os 110
              (housedcc_pidcc_periodic os 105 PiDcc_configured))
    as (_ & H2 & _).
  assert (A0 : Z.rem 101 5 <> 0) by discriminate.
  assert (A1 : Z.rem 105 5 = 0) by reflexivity.
  assert (A2 : PiDccProcess PiDcc_configured <= 0)
    by (vm_compute; discriminate).
  assert (A3 : 0 <= os_fork os) by (vm_compute; discriminate).
  assert (A4 : 0 < PiDccProcess (housedcc_pidcc_periodic os 105 PiDcc_configured))
    by (vm_compute; reflexivity).
  assert (A5 : os_waitpid os
               <> PiDccProcess (housedcc_pidcc_periodic os 105 PiDcc_configured))
    by (vm_compute; discriminate).
  pose proof (H3 A1 (or_introl A2) (5, 6) (7, 8) eq_refl eq_refl A3)
    as [Hlink _].
  split; [exact (H1 A0)|]. split; [exact Hlink|].
  exact (eq_trans (H2 A4 A5) Hlink).
Defined.

(** * The registry *)

Lemma clamp31_range (speed : Z) : -31 <= clamp31 speed <= 31.
Proof.
  unfold clamp31. destruct (Z.ltb_spec speed (-31)); [lia|].
  destruct (Z.gtb_spec speed 31); lia.
Qed.

Lemma short_of_int_range (z : Z) : -32768 <= short_of_int z < 32768.
Proof.
  unfold short_of_int. pose proof (Z.mod_pos_bound (z + 32768) 65536). lia.
Qed.

Lemma housedcc_fleet_set_mask_range (shl : Z -> Z) (index state functions : Z) :
  -32768 <= housedcc_fleet_set_mask shl index state functions < 32768.
Proof.
  unfold housedcc_fleet_set_mask.
  destruct (state =? 0); apply short_of_int_range.
Qed.

(** Move, stop and set leave the registry as it is or update one slot, in
    its speed or in its mask only. *)
Lemma fleet_commands_shape (shl : Z -> Z) (w : Z) (id name : string) (x : Z)
                           (f : Fleet) (st : PiDcc) :
  let shape (f' : Fleet) :=
    f' = f \/ exists g, state_update g
                        /\ 0 <= housedcc_fleet_find id f
                        /\ f' = update_vehicle (housedcc_fleet_find id f) g f in
  shape (fst (snd (housedcc_fleet_move w id x (f, st))))
  /\ shape (fst (snd (housedcc_fleet_stop w id x (f, st))))
  /\ shape (fst (snd (housedcc_fleet_set shl w id name x (f, st)))).
Proof.
  intros shape.
  destruct (Z.ltb_spec (housedcc_fleet_find id f) 0) as [Hmiss | Hfound].
  - pose proof (housedcc_fleet_find_missing id f Hmiss) as Hnone.
    unfold housedcc_fleet_move, housedcc_fleet_stop, housedcc_fleet_set.
    rewrite Hnone. repeat split; left; reflexivity.
  - destruct (housedcc_fleet_find_in_table id f Hfound) as (v & Hv & _).
    split; [|split].
    + rewrite (housedcc_fleet_move_known w id x f st v Hv). right.
      exists (set_speed (clamp31 x)). split; [|split; [exact Hfound|reflexivity]].
      intros u. cbn. pose proof (clamp31_range x). repeat split; auto; lia.
    + rewrite (housedcc_fleet_stop_known w id x f st v Hv). right.
      exists (set_speed 0). split; [|split; [exact Hfound|reflexivity]].
      intros u. cbn. repeat split; auto; lia.
    + destruct (function_of name v f) as [fn|] eqn:Hfn.
      * rewrite (housedcc_fleet_set_known shl w id name x f st v fn Hv Hfn).
        cbv zeta. right.
        exists (set_functions
                  (housedcc_fleet_set_mask shl (fn_index fn) x (v_functions v))).
        split; [|split; [exact Hfound|]].
        -- intros u. cbn.
           pose proof (housedcc_fleet_set_mask_range shl (fn_index fn) x
                         (v_functions v)).
           repeat split; auto; lia.
        -- destruct (housedcc_fleet_set_instruction _ _); reflexivity.
      * rewrite (housedcc_fleet_set_unknown shl w id name x f st v Hv Hfn).
        left. reflexivity.
Qed.

(** An accepted [housedcc_fleet_add] overwrites one slot or appends one;
    the new entry carries the address of the call. *)
Lemma housedcc_fleet_add_cases (id : string) (model : option string)
                               (a : Z) (f : Fleet) :
  housedcc_fleet_add id model a f = f
  \/ (1 <= a <= 127
      /\ exists (n : nat) (old new : DccVehicle),
           Vehicles f !! n = Some old
           /\ (housedcc_fleet_find_address a f < 0
               \/ housedcc_fleet_find_address a f = Z.of_nat n)
           /\ new = added (model_of_add model f) a
                      (if housedcc_fleet_find id f <? 0
                       then set_id (snprintf 15 id) old else old)
           /\ housedcc_fleet_add id model a f =
                mkFleet (Models f) (<[n := new]> (Vehicles f)))
  \/ (1 <= a <= 127
      /\ housedcc_fleet_find_address a f < 0
      /\ housedcc_fleet_find id f < 0
      /\ housedcc_fleet_add id model a f =
           mkFleet (Models f)
             (Vehicles f ++ [added (model_of_add model f) a
                               (set_id (snprintf 15 id) fresh_vehicle)])).
Proof.
  destruct (housedcc_fleet_valid_address a) eqn:Hvalid;
    [|left; apply housedcc_fleet_add_invalid; exact Hvalid].
  assert (Ha : 1 <= a <= 127).
  { unfold housedcc_fleet_valid_address in Hvalid.
    apply andb_true_iff in Hvalid as [H1 H2].
    apply Z.ltb_lt in H1, H2. lia. }
  destruct (Z.ltb_spec (housedcc_fleet_find_address a f) 0) as [Hfree | Hheld].
  - (* nobody holds the address *)
    destruct (Z.ltb_spec (housedcc_fleet_find id f) 0) as [Hnew | Hknown].
    + rewrite (housedcc_fleet_add_new id model a f Ha (or_introl Hfree) Hnew).
      destruct (scan_break_elim (fun v => String.eqb (v_id v) "") (Vehicles f))
        as [[-> _] | (n & x & -> & Hn & _)]; rewrite Nat2Z.id.
      * right. right. rewrite Nat.leb_refl.
        split; [exact Ha|]. split; [exact Hfree|]. split; [exact Hnew|].
        f_equal.
        replace (length (Vehicles f)) with (length (Vehicles f) + 0)%nat by lia.
        rewrite !alter_app_r. reflexivity.
      * right. left. split; [exact Ha|].
        pose proof (lookup_lt_Some _ _ _ Hn) as Hlt.
        destruct (Nat.leb_spec (length (Vehicles f)) n); [lia|].
        exists n, x, (added (model_of_add model f) a (set_id (snprintf 15 id) x)).
        split; [exact Hn|]. split; [left; exact Hfree|]. split; [reflexivity|].
        f_equal.
        apply list_eq. intros i. destruct (decide (i = n)) as [->|Hne].
        -- rewrite !list_lookup_alter_eq, list_lookup_insert_eq, Hn by lia.
           reflexivity.
        -- rewrite !list_lookup_alter_ne, list_lookup_insert_ne by auto.
           reflexivity.
    + destruct (housedcc_fleet_find_in_table id f Hknown) as (x & Hx & _).
      rewrite (housedcc_fleet_add_known id model a f Ha (or_introl Hfree) Hknown).
      right. left. split; [exact Ha|].
      unfold vehicle_at in Hx.
      destruct (Z.ltb_spec (housedcc_fleet_find id f) 0); [lia|].
      exists (Z.to_nat (housedcc_fleet_find id f)), x,
             (added (model_of_add model f) a x).
      split; [exact Hx|]. split; [left; exact Hfree|]. split; [reflexivity|].
      unfold update_vehicle. f_equal.
      apply list_eq. intros i.
      destruct (decide (i = Z.to_nat (housedcc_fleet_find id f))) as [->|Hne].
      * rewrite list_lookup_alter_eq, list_lookup_insert_eq, Hx
          by (eapply lookup_lt_Some; exact Hx). reflexivity.
      * rewrite list_lookup_alter_ne, list_lookup_insert_ne by auto.
        reflexivity.
  - (* some slot holds the address *)
    destruct (Z.eq_dec (housedcc_fleet_find id f)
                       (housedcc_fleet_find_address a f)) as [Hsame | Hother];
      [|left; apply housedcc_fleet_add_conflict; assumption].
    assert (Hknown : 0 <= housedcc_fleet_find id f) by lia.
    destruct (housedcc_fleet_find_in_table id f Hknown) as (x & Hx & _).
    rewrite (housedcc_fleet_add_known id model a f Ha
               (or_intror (eq_sym Hsame)) Hknown).
    right. left. split; [exact Ha|].
    unfold vehicle_at in Hx.
    destruct (Z.ltb_spec (housedcc_fleet_find id f) 0); [lia|].
    exists (Z.to_nat (housedcc_fleet_find id f)), x,
           (added (model_of_add model f) a x).
    split; [exact Hx|]. split; [right; lia|]. split; [reflexivity|].
    unfold update_vehicle. f_equal.
    apply list_eq. intros i.
    destruct (decide (i = Z.to_nat (housedcc_fleet_find id f))) as [->|Hne].
    + rewrite list_lookup_alter_eq, list_lookup_insert_eq, Hx
        by (eapply lookup_lt_Some; exact Hx). reflexivity.
    + rewrite list_lookup_alter_ne, list_lookup_insert_ne by auto.
      reflexivity.
Qed.

(** ** Addresses *)

Lemma housedcc_fleet_find_address_free (a : Z) (f : Fleet) :
  housedcc_fleet_find_address a f < 0 -> a ∉ addresses f.
Proof.
  unfold housedcc_fleet_find_address, addresses. intros Hfree Hin.
  destruct (scan_elim (fun v => a =? v_address v) (Vehicles f) 0)
    as [[_ Hall] | (n & x & Hscan & _)]; [|lia].
  apply list_elem_of_fmap in Hin as (v & -> & Hv).
  specialize (Hall v Hv). rewrite Z.eqb_refl in Hall. discriminate.
Qed.

Lemma housedcc_fleet_find_address_held (a : Z) (f : Fleet) (n : nat) :
  housedcc_fleet_find_address a f = Z.of_nat n -> addresses f !! n = Some a.
Proof.
  unfold housedcc_fleet_find_address, addresses. intros Hheld.
  destruct (scan_elim (fun v => a =? v_address v) (Vehicles f) 0)
    as [[Hnone _] | (k & x & Hscan & Hk & Hp & _)]; [lia|].
  assert (k = n) by lia. subst k.
  rewrite list_lookup_fmap, Hk. apply Z.eqb_eq in Hp. rewrite Hp. reflexivity.
Qed.

Lemma elem_of_insert_inv (l : list Z) (n : nat) (a y : Z) :
  y ∈ <[n := a]> l -> y = a \/ y ∈ l.
Proof.
  revert n. induction l as [|x l IH]; intros n Hy; [right; exact Hy|].
  destruct n as [|n]; cbn in Hy; apply elem_of_cons in Hy as [-> | Hy].
  - left. reflexivity.
  - right. apply elem_of_cons. right. exact Hy.
  - right. apply elem_of_cons. left. reflexivity.
  - destruct (IH n Hy) as [-> | Hin]; [left; reflexivity|].
    right. apply elem_of_cons. right. exact Hin.
Qed.

Lemma NoDup_insert_fresh (l : list Z) (n : nat) (a : Z) :
  NoDup l -> a ∉ l -> NoDup (<[n := a]> l).
Proof.
  revert n. induction l as [|x l IH]; intros n Hnd Hfresh; [exact Hnd|].
  apply NoDup_cons in Hnd as [Hx Hnd].
  apply not_elem_of_cons in Hfresh as [Hax Hfresh].
  destruct n as [|n]; cbn; apply NoDup_cons.
  - split; assumption.
  - split; [|apply IH; assumption].
    intros Hin. apply elem_of_insert_inv in Hin as [-> | Hin]; auto.
Qed.

Lemma addresses_update_vehicle (c : Z) (g : DccVehicle -> DccVehicle)
                               (f : Fleet) :
  (forall v, v_address (g v) = v_address v) ->
  addresses (update_vehicle c g f) = addresses f.
Proof.
  intros Hg. unfold addresses, update_vehicle. cbn.
  rewrite (list_fmap_alter v_address g id)
    by (apply Forall_forall; intros v _; apply Hg).
  apply list_alter_id. reflexivity.
Qed.

Lemma housedcc_fleet_declare_vehicles (cs : bool) (model type : string)
                                      (count : Z) (functions : list string)
                                      (f : Fleet) :
  Vehicles (housedcc_fleet_declare cs model type count functions f) = Vehicles f.
Proof.
  unfold housedcc_fleet_declare.
  destruct (housedcc_fleet_find_model (Some model) f <? 0); [|reflexivity].
  destruct (scan_break _ _ >=? ModelsCount f); reflexivity.
Qed.

Lemma housedcc_fleet_delete_addresses (id : string) (f : Fleet) :
  addresses (housedcc_fleet_delete id f) = addresses f.
Proof.
  unfold housedcc_fleet_delete.
  destruct (0 <=? housedcc_fleet_find id f).
  - apply addresses_update_vehicle. reflexivity.
  - destruct (0 <=? housedcc_fleet_find_model (Some id) f); reflexivity.
Qed.

Lemma housedcc_fleet_stopped_addresses (f : Fleet) :
  addresses (housedcc_fleet_stopped f) = addresses f.
Proof.
  unfold addresses, housedcc_fleet_stopped. cbn.
  rewrite <- list_fmap_compose. apply list_fmap_ext.
  intros i v _. cbn. destruct (String.eqb (v_id v) ""); reflexivity.
Qed.

Lemma housedcc_fleet_add_addresses (id : string) (model : option string)
                                   (a : Z) (f : Fleet) :
  addresses_inv f -> addresses_inv (housedcc_fleet_add id model a f).
Proof.
  intros [Hnd Hvalid].
  destruct (housedcc_fleet_add_cases id model a f)
    as [-> | [(Ha & n & old & new & Hn & Hfree & -> & ->)
             | (Ha & Hfree & _ & ->)]].
  - split; assumption.
  - unfold addresses_inv, addresses in *. cbn [Vehicles].
    rewrite list_fmap_insert. cbn [added set_model set_functions set_speed
                                   set_address v_address].
    split; [|apply Forall_insert; assumption].
    destruct Hfree as [Hfree | Hheld].
    + apply NoDup_insert_fresh; [exact Hnd|].
      apply housedcc_fleet_find_address_free. exact Hfree.
    + rewrite list_insert_id; [exact Hnd|].
      apply housedcc_fleet_find_address_held. exact Hheld.
  - unfold addresses_inv, addresses in *. cbn [Vehicles].
    rewrite fmap_app. cbn. split.
    + apply NoDup_app. split; [exact Hnd|]. split; [|apply NoDup_singleton].
      intros x Hx Hxa. apply list_elem_of_singleton in Hxa. subst x.
      exact (housedcc_fleet_find_address_free a f Hfree Hx).
    + apply Forall_app. split; [exact Hvalid|]. apply Forall_singleton. exact Ha.
Qed.

Lemma fleet_step_addresses (cs : bool) (shl : Z -> Z) (c : FleetCommand)
                           (w : World) :
  addresses_inv (fst w) -> addresses_inv (fst (fleet_step cs shl c w)).
Proof.
  destruct w as [f st]. cbn [fst]. intros Hinv.
  assert (Hsame : forall f', addresses f' = addresses f -> addresses_inv f').
  { intros f' Hf'. unfold addresses_inv. rewrite Hf'. exact Hinv. }
  destruct c as [model type count functions | id model a | id | ow id speed
                 | ow id e | ow id name state | ]; cbn [fleet_step fst snd].
  - apply Hsame. unfold addresses.
    rewrite housedcc_fleet_declare_vehicles. reflexivity.
  - apply housedcc_fleet_add_addresses. exact Hinv.
  - apply Hsame, housedcc_fleet_delete_addresses.
  - destruct (fleet_commands_shape shl ow id "" speed f st) as (H & _ & _).
    destruct H as [-> | (g & Hg & _ & ->)]; [exact Hinv|].
    apply Hsame, addresses_update_vehicle. intros v. apply Hg.
  - destruct (fleet_commands_shape shl ow id "" e f st) as (_ & H & _).
    destruct H as [-> | (g & Hg & _ & ->)]; [exact Hinv|].
    apply Hsame, addresses_update_vehicle. intros v. apply Hg.
  - destruct (fleet_commands_shape shl ow id name state f st) as (_ & _ & H).
    destruct H as [-> | (g & Hg & _ & ->)]; [exact Hinv|].
    apply Hsame, addresses_update_vehicle. intros v. apply Hg.
  - apply Hsame, housedcc_fleet_stopped_addresses.
Qed.

Lemma fleet_run_keeps (cs : bool) (shl : Z -> Z) (P : Fleet -> Prop) :
  (forall c w, P (fst w) -> P (fst (fleet_step cs shl c w))) ->
  forall commands w, P (fst w) -> P (fst (fleet_run cs shl commands w)).
Proof.
  intros Hstep commands.
  induction commands as [|c commands IH]; intros w Hw; [exact Hw|].
  cbn [fleet_run fold_left]. apply IH, Hstep, Hw.
Qed.

(** X15: address uniqueness is an invariant of the registry. In every state
    reached from the empty registry by declare, add, delete, move, stop, set
    and stop-all commands, in any order and with any arguments, every slot
    holds an address in 1..127 and no two slots hold the same address; so no
    two vehicles ever share an address. *)
Theorem fleet_run_addresses_distinct
    (cs : bool) (shl : Z -> Z) (commands : list FleetCommand) (st : PiDcc) :
  let f := fst (fleet_run cs shl commands (Fleet_initial, st)) in
  (forall (i : nat) (x : DccVehicle),
     Vehicles f !! i = Some x -> 1 <= v_address x <= 127)
  /\ (forall (i j : nat) (x y : DccVehicle),
        Vehicles f !! i = Some x -> Vehicles f !! j = Some y ->
        v_address x = v_address y -> i = j).
Proof.
  cbv zeta.
  destruct (fleet_run_keeps cs shl addresses_inv (fleet_step_addresses cs shl)
              commands (Fleet_initial, st)) as [Hnd Hvalid].
  { split; [apply NoDup_nil_2 | apply Forall_nil_2]. }
  unfold addresses in *. split.
  - intros i x Hx. rewrite Forall_lookup in Hvalid.
    apply (Hvalid i). rewrite list_lookup_fmap, Hx. reflexivity.
  - intros i j x y Hx Hy Hsame.
    apply (NoDup_lookup _ i j (v_address x) Hnd).
    + rewrite list_lookup_fmap, Hx. reflexivity.
    + rewrite list_lookup_fmap, Hy, Hsame. reflexivity.
Qed.

(** ** Storage bounds *)

Lemma substring_length_le (n m : nat) (s : string) :
  (String.length (String.substring n m s) <= String.length s)%nat.
Proof.
  revert n m. induction s as [|c s IH]; intros [|n] [|m]; simpl; try lia.
  - specialize (IH 0%nat m). lia.
  - specialize (IH n 0%nat). lia.
  - specialize (IH n (S m)). lia.
Qed.

Lemma snprintf_length (size : nat) (s : string) :
  (0 < size)%nat -> (String.length (snprintf size s) <= size - 1)%nat.
Proof.
  intros _. unfold snprintf. generalize (size - 1)%nat as n.
  induction s as [|c s IH]; intros [|n]; simpl; try lia.
  specialize (IH n). lia.
Qed.

Lemma declare_function_fits (cs : bool) (text : string) :
  function_fits (declare_function cs text).
Proof.
  unfold declare_function, function_fits.
  pose proof (snprintf_length 15 text ltac:(lia)) as Hname.
  assert (Hchar : forall z, -128 <= char_of_int cs z <= 255).
  { intros z. unfold char_of_int. destruct cs.
    - pose proof (Z.mod_pos_bound (z + 128) 256). lia.
    - pose proof (Z.mod_pos_bound z 256). lia. }
  destruct (index 0 ":" (snprintf 15 text)) as [sep|]; cbn [fn_name fn_index].
  - split; [|apply Hchar].
    pose proof (substring_length_le 0 sep (snprintf 15 text)). lia.
  - split; [lia | apply Hchar].
Qed.

(** [housedcc_fleet_declare] overwrites one model or appends one. *)
Lemma housedcc_fleet_declare_shape (cs : bool) (model type : string)
                                   (count : Z) (functions : list string)
                                   (f : Fleet) :
  let declared (name : string) :=
    mkDccModel name (housedcc_fleet_totype type)
      (map (declare_function cs)
           (take (Z.to_nat (if count >? FUNCTION_MAX then FUNCTION_MAX
                            else count)) functions)) in
  (exists (n : nat) (old : DccModel),
     Models f !! n = Some old
     /\ Models (housedcc_fleet_declare cs model type count functions f) =
          <[n := declared (if housedcc_fleet_find_model (Some model) f <? 0
                           then snprintf 15 model else m_name old)]> (Models f))
  \/ Models (housedcc_fleet_declare cs model type count functions f) =
       Models f ++ [declared (snprintf 15 model)].
Proof.
  intros declared. unfold housedcc_fleet_declare.
  destruct (Z.ltb_spec (housedcc_fleet_find_model (Some model) f) 0)
    as [Hnew | Hknown].
  - destruct (scan_break_elim (fun m => String.eqb (m_name m) "") (Models f))
      as [[-> _] | (n & old & -> & Hn & _)].
    + right. unfold ModelsCount.
      destruct (Z.geb_spec (Z.of_nat (length (Models f)))
                           (Z.of_nat (length (Models f)))); [|lia].
      unfold update_model. cbn. rewrite Nat2Z.id.
      replace (length (Models f)) with (length (Models f) + 0)%nat by lia.
      rewrite !alter_app_r. reflexivity.
    + left. exists n, old. split; [exact Hn|].
      pose proof (lookup_lt_Some _ _ _ Hn) as Hlt. unfold ModelsCount.
      destruct (Z.geb_spec (Z.of_nat n) (Z.of_nat (length (Models f)))); [lia|].
      unfold update_model. cbn. rewrite Nat2Z.id.
      apply list_eq. intros i. destruct (decide (i = n)) as [->|Hne].
      * rewrite !list_lookup_alter_eq, list_lookup_insert_eq, Hn by lia.
        reflexivity.
      * rewrite !list_lookup_alter_ne, list_lookup_insert_ne by auto.
        reflexivity.
  - left. unfold housedcc_fleet_find_model in *.
    destruct model as [|c model]; [lia|].
    destruct (scan_elim (fun m => String.eqb (String c model) (m_name m))
                (Models f) 0) as [[Hnone _] | (n & old & Hscan & Hn & _)];
      [lia|].
    exists n, old. split; [exact Hn|].
    rewrite Hscan. unfold update_model. cbn.
    replace (Z.to_nat (0 + Z.of_nat n)) with n by lia.
    apply list_eq. intros i. destruct (decide (i = n)) as [->|Hne].
    + rewrite list_lookup_alter_eq, list_lookup_insert_eq, Hn
        by (eapply lookup_lt_Some; exact Hn). reflexivity.
    + rewrite list_lookup_alter_ne, list_lookup_insert_ne by auto.
      reflexivity.
Qed.

Lemma vehicle_fits_mono (n n' : nat) (v : DccVehicle) :
  (n <= n')%nat -> vehicle_fits n v -> vehicle_fits n' v.
Proof.
  intros Hle (H1 & H2 & H3 & H4). repeat split; try assumption; try lia.
  destruct (v_model v); [lia | exact I].
Qed.

Lemma model_of_add_in_table (model : option string) (f : Fleet) :
  match model_of_add model f with
  | Some m => (m < length (Models f))%nat
  | None => True
  end.
Proof.
  unfold model_of_add. destruct model as [name|]; [|exact I].
  destruct (Z.leb_spec 0 (housedcc_fleet_find_model (Some name) f)); [|exact I].
  unfold housedcc_fleet_find_model in *. destruct name as [|c name]; [lia|].
  destruct (scan_elim (fun m => String.eqb (String c name) (m_name m))
              (Models f) 0) as [[Hnone _] | (n & old & Hscan & Hn & _)]; [lia|].
  rewrite Hscan. replace (Z.to_nat (0 + Z.of_nat n)) with n by lia.
  eapply lookup_lt_Some. exact Hn.
Qed.

Lemma declared_model_fits (cs : bool) (name type : string) (count : Z)
                          (functions : list string) :
  (String.length name <= 14)%nat ->
  model_fits
    (mkDccModel name (housedcc_fleet_totype type)
       (map (declare_function cs)
            (take (Z.to_nat (if count >? FUNCTION_MAX then FUNCTION_MAX
                             else count)) functions))).
Proof.
  intros Hname. unfold model_fits. cbn. split; [exact Hname|]. split.
  - rewrite length_map, length_take. unfold FUNCTION_MAX.
    destruct (Z.gtb_spec count 16); lia.
  - apply Forall_forall. intros fn Hfn.
    apply list_elem_of_In, in_map_iff in Hfn as (text & <- & _).
    apply declare_function_fits.
Qed.

Lemma fleet_step_storage (cs : bool) (shl : Z -> Z) (c : FleetCommand)
                         (w : World) :
  storage_inv (fst w) -> storage_inv (fst (fleet_step cs shl c w)).
Proof.
  destruct w as [f st]. cbn [fst]. intros [Hv Hm].
  assert (Hshape : forall id f',
            f' = f \/ (exists g, state_update g
                                 /\ 0 <= housedcc_fleet_find id f
                                 /\ f' = update_vehicle
                                           (housedcc_fleet_find id f) g f) ->
            storage_inv f').
  { intros id f' [-> | (g & Hg & _ & ->)]; [split; assumption|].
    split; [|exact Hm]. cbn. apply Forall_alter; [exact Hv|].
    intros v _ (H1 & H2 & H3 & H4).
    destruct (Hg v) as (G1 & _ & G3 & G4 & G5).
    unfold vehicle_fits. rewrite G1, G3. auto. }
  destruct c as [model type count functions | id model a | id | ow id speed
                 | ow id e | ow id name state | ]; cbn [fleet_step fst snd].
  - (* declare *)
    unfold storage_inv. rewrite housedcc_fleet_declare_vehicles.
    pose proof (snprintf_length 15 model ltac:(lia)) as Hname.
    destruct (housedcc_fleet_declare_shape cs model type count functions f)
      as [(n & old & Hn & ->) | ->].
    + rewrite length_insert. split; [exact Hv|].
      apply Forall_insert; [exact Hm|]. apply declared_model_fits.
      destruct (housedcc_fleet_find_model (Some model) f <? 0); [lia|].
      rewrite Forall_lookup in Hm. apply (Hm n old Hn).
    + split.
      * eapply Forall_impl; [exact Hv|]. intros v. apply vehicle_fits_mono.
        rewrite length_app. lia.
      * apply Forall_app. split; [exact Hm|]. apply Forall_singleton.
        apply declared_model_fits. lia.
  - (* add *)
    pose proof (snprintf_length 15 id ltac:(lia)) as Hid.
    pose proof (model_of_add_in_table model f) as Hmodel.
    destruct (housedcc_fleet_add_cases id model a f)
      as [-> | [(Ha & n & old & new & Hn & _ & -> & ->) | (Ha & _ & _ & ->)]].
    + split; assumption.
    + split; [|exact Hm]. cbn. apply Forall_insert; [exact Hv|].
      rewrite Forall_lookup in Hv. destruct (Hv n old Hn) as (H1 & _).
      unfold vehicle_fits. cbn.
      destruct (housedcc_fleet_find id f <? 0); cbn;
        (split; [lia|]); (split; [lia|]); (split; [lia|]); exact Hmodel.
    + split; [|exact Hm]. cbn. apply Forall_app. split; [exact Hv|].
      apply Forall_singleton. unfold vehicle_fits. cbn.
      split; [lia|]. split; [lia|]. split; [lia|]. exact Hmodel.
  - (* delete *)
    unfold housedcc_fleet_delete.
    destruct (0 <=? housedcc_fleet_find id f).
    + split; [|exact Hm]. cbn. apply Forall_alter; [exact Hv|].
      intros v _ (H1 & H2 & H3 & H4). unfold vehicle_fits. cbn.
      split; [lia|]. auto.
    + destruct (0 <=? housedcc_fleet_find_model (Some id) f);
        [|split; assumption].
      split; cbn.
      * rewrite length_alter. exact Hv.
      * apply Forall_alter; [exact Hm|].
        intros m _ (H1 & H2 & H3). unfold model_fits. cbn.
        split; [lia|]. auto.
  - apply (Hshape id), (fleet_commands_shape shl ow id "" speed f st).
  - apply (Hshape id), (fleet_commands_shape shl ow id "" e f st).
  - apply (Hshape id), (fleet_commands_shape shl ow id name state f st).
  - (* stop all *)
    split; [|exact Hm]. cbn. apply Forall_fmap.
    eapply Forall_impl; [exact Hv|].
    intros v (H1 & H2 & H3 & H4). cbn.
    destruct (String.eqb (v_id v) ""); unfold vehicle_fits; cbn; auto.
    split; [exact H1|]. split; [lia|]. auto.
Qed.

(** X16: everything stored fits the C structures. In every state reached
    from the empty registry by any sequence of commands, every vehicle
    identifier, model name and function name has at most 14 characters (the
    [char[15]] fields), every model has at most 16 functions, with indices
    in the range of a [char], every stored speed is within [-31, 31] and
    every function mask is a 16-bit value. While the model table has at
    most 16 slots, the size of its first allocation, so that it has not
    been reallocated under the vehicles that point into it, every model
    reference of a vehicle designates a slot of the table. *)
Theorem fleet_run_storage
    (cs : bool) (shl : Z -> Z) (commands : list FleetCommand) (st : PiDcc) :
  let f := fst (fleet_run cs shl commands (Fleet_initial, st)) in
  Forall (fun v => (String.length (v_id v) <= 14)%nat
                   /\ -31 <= v_speed v <= 31
                   /\ -32768 <= v_functions v < 32768)
         (Vehicles f)
  /\ Forall model_fits (Models f)
  /\ ((length (Models f) <= 16)%nat ->
      Forall (fun v => match v_model v with
                       | Some m => (m < length (Models f))%nat
                       | None => True
                       end)
             (Vehicles f)).
Proof.
  intros f.
  assert (Hinv : storage_inv f).
  { apply (fleet_run_keeps cs shl storage_inv (fleet_step_storage cs shl)).
    split; apply Forall_nil_2. }
  destruct Hinv as [Hv Hm].
  split; [|split; [exact Hm|intros _]].
  - eapply Forall_impl; [exact Hv|].
    intros v (H1 & H2 & H3 & _). auto.
  - eapply Forall_impl; [exact Hv|].
    intros v (_ & _ & _ & H4). exact H4.
Qed.

Lemma fleet_run_storage_witness :
  let commands := [CmdDeclare "E8" "engine" 2 ["Light:13"; "Bell:1"];
                   CmdAdd "UP844" (Some "E8") 44] in
  let f := fst (fleet_run true shl_mod32 commands
                  (Fleet_initial, PiDcc_configured)) in
  (length (Models f) <= 16)%nat
  /\ Forall (fun v => match v_model v with
                      | Some m => (m < length (Models f))%nat
                      | None => True
                      end)
            (Vehicles f).
Proof.
  intros commands f.
  assert (Hmodels : (length (Models f) <= 16)%nat) by (vm_compute; lia).
  split; [exact Hmodels|].
  destruct (fleet_run_storage true shl_mod32 commands PiDcc_configured)
    as (_ & _ & Hreferences).
  exact (Hreferences Hmodels).
Defined.

(** ** Deleting *)

Lemma scan_insert_same {A : Type} (p : A -> bool) (l : list A) (n : nat)
                       (x x' : A) (from : Z) :
  l !! n = Some x -> p x' = p x -> scan p (<[n := x']> l) from = scan p l from.
Proof.
  revert n from. induction l as [|a l IH]; intros n from Hn Hp; [reflexivity|].
  destruct n as [|n]; cbn in *.
  - injection Hn as ->. rewrite Hp. reflexivity.
  - destruct (p a); [reflexivity|]. apply IH; assumption.
Qed.

Lemma alter_as_insert {A : Type} (g : A -> A) (l : list A) (n : nat) (x : A) :
  l !! n = Some x -> alter g n l = <[n := g x]> l.
Proof.
  intros Hn. apply list_eq. intros i. destruct (decide (i = n)) as [->|Hne].
  - rewrite list_lookup_alter_eq, list_lookup_insert_eq, Hn
      by (eapply lookup_lt_Some; exact Hn). reflexivity.
  - rewrite list_lookup_alter_ne, list_lookup_insert_ne by auto. reflexivity.
Qed.

(** X17: deleting a vehicle clears the identifier of its slot and nothing
    else: the slot keeps its address, speed, mask and model, every other
    slot and every model is untouched, and every other identifier is found
    where it was. If no second slot carried the identifier, the vehicle no
    longer exists afterwards. *)
Theorem housedcc_fleet_delete_vehicle (id : string) (f : Fleet) (v : DccVehicle) :
  id <> "" ->
  vehicle_at (housedcc_fleet_find id f) f = Some v ->
  let n := Z.to_nat (housedcc_fleet_find id f) in
  let f' := housedcc_fleet_delete id f in
  Models f' = Models f
  /\ Vehicles f' = <[n := set_id "" v]> (Vehicles f)
  /\ (forall other : string,
        other <> id -> other <> "" ->
        housedcc_fleet_find other f' = housedcc_fleet_find other f)
  /\ ((forall (k : nat) (y : DccVehicle),
         Vehicles f !! k = Some y -> v_id y = id -> k = n) ->
      housedcc_fleet_exists id f' = 0).
Proof.
  intros Hid Hv n f'.
  assert (Hfound : 0 <= housedcc_fleet_find id f).
  { unfold vehicle_at in Hv.
    destruct (Z.ltb_spec (housedcc_fleet_find id f) 0); [discriminate | lia]. }
  assert (Hn : Vehicles f !! n = Some v).
  { unfold vehicle_at in Hv.
    destruct (Z.ltb_spec (housedcc_fleet_find id f) 0); [lia | exact Hv]. }
  destruct (housedcc_fleet_find_in_table id f Hfound) as (v0 & Hv0 & Hmatch).
  rewrite Hv in Hv0. injection Hv0 as <-. apply String.eqb_eq in Hmatch.
  assert (Hf' : f' = mkFleet (Models f) (<[n := set_id "" v]> (Vehicles f))).
  { unfold f', housedcc_fleet_delete.
    destruct (Z.leb_spec 0 (housedcc_fleet_find id f)); [|lia].
    unfold update_vehicle. f_equal. apply alter_as_insert. exact Hn. }
  rewrite Hf'. cbn [Models Vehicles].
  split; [reflexivity|]. split; [reflexivity|]. split.
  - intros other Hother Hne. unfold housedcc_fleet_find. cbn [Vehicles].
    apply (scan_insert_same _ _ n v); [exact Hn|]. cbn.
    rewrite <- Hmatch.
    destruct (String.eqb_spec other ""), (String.eqb_spec other id);
      congruence.
  - intros Hunique. unfold housedcc_fleet_exists, housedcc_fleet_find.
    cbn [Vehicles].
    destruct (scan_elim (fun u => String.eqb id (v_id u))
                (<[n := set_id "" v]> (Vehicles f)) 0)
      as [[-> _] | (k & y & _ & Hk & Hp & _)]; [reflexivity|].
    exfalso. apply String.eqb_eq in Hp.
    destruct (decide (k = n)) as [->|Hne].
    + rewrite list_lookup_insert_eq in Hk by (eapply lookup_lt_Some; exact Hn).
      injection Hk as <-. cbn in Hp. congruence.
    + rewrite list_lookup_insert_ne in Hk by auto.
      apply Hne, (Hunique k y Hk). congruence.
Qed.

Lemma housedcc_fleet_delete_vehicle_witness :
  "UP844" <> ""
  /\ vehicle_at (housedcc_fleet_find "UP844" (fst world_UP844_running))
                (fst world_UP844_running)
     = Some (mkDccVehicle "UP844" 44 (-20) 0x1000 (Some 0%nat))
  /\ Vehicles (housedcc_fleet_delete "UP844" (fst world_UP844_running))
     = [mkDccVehicle "" 44 (-20) 0x1000 (Some 0%nat)]
  /\ housedcc_fleet_exists "UP844"
       (housedcc_fleet_delete "UP844" (fst world_UP844_running)) = 0.
Proof.
  assert (Hid : "UP844" <> "") by discriminate.
  destruct (housedcc_fleet_delete_vehicle "UP844" (fst world_UP844_running)
              (mkDccVehicle "UP844" 44 (-20) 0x1000 (Some 0%nat)) Hid eq_refl)
    as (_ & H2 & _ & H4).
  split; [exact Hid|]. split; [reflexivity|]. split; [exact H2|].
  apply H4. intros [|k] y Hk _; [reflexivity | discriminate Hk].
Defined.

(** X18: as long as the identifiers of the adds fit the 14 characters of
    the field, no two slots ever carry the same non-empty identifier: a
    vehicle identifier designates at most one vehicle. *)
Theorem fleet_run_ids_distinct
    (cs : bool) (shl : Z -> Z) (commands : list FleetCommand) (st : PiDcc) :
  Forall short_ids commands ->
  ids_inv (fst (fleet_run cs shl commands (Fleet_initial, st))).
Proof.
  assert (Hstep : forall c w, short_ids c -> ids_inv (fst w) ->
                              ids_inv (fst (fleet_step cs shl c w))).
  { intros c [f st0] Hshort Hinv. cbn [fst] in *.
    assert (Hsame : forall f', v_id <$> Vehicles f' = v_id <$> Vehicles f ->
                               ids_inv f').
    { intros f' Hf' i j x y Hx Hy Hxy Hne.
      assert (Hi : (v_id <$> Vehicles f) !! i = Some (v_id x))
        by (rewrite <- Hf', list_lookup_fmap, Hx; reflexivity).
      assert (Hj : (v_id <$> Vehicles f) !! j = Some (v_id y))
        by (rewrite <- Hf', list_lookup_fmap, Hy; reflexivity).
      rewrite list_lookup_fmap in Hi, Hj.
      destruct (Vehicles f !! i) as [x0|] eqn:Hx0; [|discriminate].
      destruct (Vehicles f !! j) as [y0|] eqn:Hy0; [|discriminate].
      injection Hi as Hi. injection Hj as Hj.
      apply (Hinv i j x0 y0 Hx0 Hy0); congruence. }
    assert (Hshape : forall id f',
              f' = f \/ (exists g, state_update g
                                   /\ 0 <= housedcc_fleet_find id f
                                   /\ f' = update_vehicle
                                             (housedcc_fleet_find id f) g f) ->
              ids_inv f').
    { intros id f' [-> | (g & Hg & _ & ->)]; [exact Hinv|].
      apply Hsame. cbn.
      rewrite (list_fmap_alter v_id g (fun s : string => s))
        by (apply Forall_forall; intros v _; apply Hg).
      apply list_alter_id. reflexivity. }
    destruct c as [model type count functions | id model a | id | ow id speed
                   | ow id e | ow id name state | ]; cbn [fleet_step fst snd].
    - apply Hsame. rewrite housedcc_fleet_declare_vehicles. reflexivity.
    - (* add *)
      cbn in Hshort.
      assert (Hkeep : snprintf 15 id = id) by (apply snprintf_short; simpl; lia).
      destruct (housedcc_fleet_add_cases id model a f)
        as [-> | [(Ha & n & old & new & Hn & _ & -> & ->)
                 | (Ha & _ & Hnew & ->)]];
        [exact Hinv | |].
      + destruct (Z.ltb_spec (housedcc_fleet_find id f) 0) as [Hnew | Hknown].
        * (* the identifier is new to the table *)
          assert (Hnone : forall k y, Vehicles f !! k = Some y -> v_id y <> id).
          { intros k y Hk Hy. unfold housedcc_fleet_find in Hnew.
            destruct (scan_elim (fun v => String.eqb id (v_id v))
                        (Vehicles f) 0) as [[_ Hall] | (m & z & Hscan & _)];
              [|lia].
            specialize (Hall y (list_elem_of_lookup_2 _ _ _ Hk)).
            rewrite Hy, String.eqb_refl in Hall. discriminate. }
          intros i j x y Hx Hy Hxy Hne. cbn in Hx, Hy.
          destruct (decide (i = n)) as [->|Hi], (decide (j = n)) as [->|Hj];
            [reflexivity | | |].
          -- rewrite list_lookup_insert_eq in Hx
               by (eapply lookup_lt_Some; exact Hn).
             rewrite list_lookup_insert_ne in Hy by auto.
             injection Hx as <-. cbn in Hxy. rewrite Hkeep in Hxy.
             exfalso. apply (Hnone j y Hy). congruence.
          -- rewrite list_lookup_insert_eq in Hy
               by (eapply lookup_lt_Some; exact Hn).
             rewrite list_lookup_insert_ne in Hx by auto.
             injection Hy as <-. cbn in Hxy. rewrite Hkeep in Hxy.
             exfalso. apply (Hnone i x Hx). congruence.
          -- rewrite list_lookup_insert_ne in Hx, Hy by auto.
             apply (Hinv i j x y); assumption.
        * apply Hsame. cbn. rewrite list_fmap_insert. cbn.
          apply list_insert_id. rewrite list_lookup_fmap, Hn. reflexivity.
      + (* appended: nobody carries the identifier *)
        intros i j x y Hx Hy Hxy Hne. cbn in Hx, Hy.
        assert (Hgrown : forall k z,
                  (Vehicles f ++
                     [added (model_of_add model f) a
                        (set_id (snprintf 15 id) fresh_vehicle)]) !! k = Some z ->
                  Vehicles f !! k = Some z
                  \/ (k = length (Vehicles f) /\ v_id z = id)).
        { intros k z Hk. apply lookup_app_Some in Hk as [Hk | [Hge Hk]];
            [left; exact Hk|]. right.
          apply list_lookup_singleton_Some in Hk as [Hk <-]. cbn.
          split; [lia | exact Hkeep]. }
        assert (Hnone : forall k z, Vehicles f !! k = Some z -> v_id z <> id).
        { intros k z Hk Hz. unfold housedcc_fleet_find in Hnew.
          destruct (scan_elim (fun v => String.eqb id (v_id v))
                      (Vehicles f) 0) as [[_ Hall] | (m & u & Hscan & _)];
            [|lia].
          specialize (Hall z (list_elem_of_lookup_2 _ _ _ Hk)).
          rewrite Hz, String.eqb_refl in Hall. discriminate. }
        destruct (Hgrown i x Hx) as [Hx0 | [-> Hxid]],
                 (Hgrown j y Hy) as [Hy0 | [-> Hyid]];
          [apply (Hinv i j x y); assumption | | | reflexivity].
        * exfalso. apply (Hnone i x Hx0). congruence.
        * exfalso. apply (Hnone j y Hy0). congruence.
    - (* delete *)
      unfold housedcc_fleet_delete.
      destruct (Z.leb_spec 0 (housedcc_fleet_find id f)) as [Hfound | _].
      + destruct (housedcc_fleet_find_in_table id f Hfound) as (v & Hv & _).
        unfold vehicle_at in Hv.
        destruct (Z.ltb_spec (housedcc_fleet_find id f) 0); [lia|].
        unfold update_vehicle. cbn.
        rewrite (alter_as_insert _ _ _ v Hv).
        intros i j x y Hx Hy Hxy Hne. cbn [Vehicles] in Hx, Hy.
        set (n := Z.to_nat (housedcc_fleet_find id f)) in *.
        destruct (decide (i = n)) as [->|Hi].
        { rewrite list_lookup_insert_eq in Hx
            by (eapply lookup_lt_Some; exact Hv).
          injection Hx as <-. cbn in Hne. contradiction. }
        destruct (decide (j = n)) as [->|Hj].
        { rewrite list_lookup_insert_eq in Hy
            by (eapply lookup_lt_Some; exact Hv).
          injection Hy as <-. cbn in Hxy. congruence. }
        rewrite list_lookup_insert_ne in Hx, Hy by auto.
        apply (Hinv i j x y); assumption.
      + destruct (0 <=? housedcc_fleet_find_model (Some id) f);
          apply Hsame; reflexivity.
    - apply (Hshape id), (fleet_commands_shape shl ow id "" speed f st0).
    - apply (Hshape id), (fleet_commands_shape shl ow id "" e f st0).
    - apply (Hshape id), (fleet_commands_shape shl ow id name state f st0).
    - apply Hsame. cbn. rewrite <- list_fmap_compose. apply list_fmap_ext.
      intros i v _. cbn. destruct (String.eqb (v_id v) ""); reflexivity. }
  intros Hshort.
  assert (H : forall w, ids_inv (fst w) ->
                        ids_inv (fst (fleet_run cs shl commands w))).
  { induction Hshort as [|c commands Hc _ IH]; intros w Hw; [exact Hw|].
    cbn [fleet_run fold_left]. apply IH, Hstep; assumption. }
  apply H. intros i j x y Hx. discriminate Hx.
Qed.

Lemma fleet_run_ids_distinct_witness :
  let commands :=
    [CmdDeclare "E8" "engine" 2 ["Light:13"; "Bell:1"];
     CmdAdd "UP844" (Some "E8") 44; CmdAdd "SP4449" (Some "E8") 45;
     CmdDelete "UP844"; CmdAdd "UP844" None 46; CmdMove 12 "UP844" 10] in
  Forall short_ids commands
  /\ ids_inv (fst (fleet_run true shl_mod32 commands
                     (Fleet_initial, PiDcc_configured)))
  /\ (v_id <$> Vehicles (fst (fleet_run true shl_mod32 commands
                                (Fleet_initial, PiDcc_configured))))
     = ["UP844"; "SP4449"].
Proof.
  intros commands.
  assert (Hshort : Forall short_ids commands)
    by (repeat constructor; simpl; lia).
  split; [exact Hshort|].
  split; [|reflexivity].
  exact (fleet_run_ids_distinct true shl_mod32 commands PiDcc_configured Hshort).
Defined.

Lemma scan_found {A : Type} (p : A -> bool) (l : list A) (y : A) :
  y ∈ l -> p y = true -> 0 <= scan p l 0.
Proof.
  intros Hy Hp.
  destruct (scan_elim p l 0) as [[_ Hall] | (n & x & -> & _)]; [|lia].
  rewrite (Hall y Hy) in Hp. discriminate.
Qed.

(** X19: identifiers are stored cut to 14 characters and compared in full.
    A vehicle added under a longer identifier is therefore never found
    under that identifier, not even right after the add; it is found under
    the first 14 characters of it. *)
Theorem housedcc_fleet_add_long_id (id : string) (model : option string)
                                   (a : Z) (f : Fleet) :
  storage_inv f -> (14 < String.length id)%nat ->
  housedcc_fleet_exists id (housedcc_fleet_add id model a f) = 0
  /\ (1 <= a <= 127 -> housedcc_fleet_find_address a f < 0 ->
      housedcc_fleet_exists (String.substring 0 14 id)
                            (housedcc_fleet_add id model a f) = 1).
Proof.
  intros Hinv Hlong.
  assert (Habsent : forall f', storage_inv f' -> housedcc_fleet_find id f' < 0).
  { intros f' [Hv _]. unfold housedcc_fleet_find.
    destruct (scan_elim (fun v => String.eqb id (v_id v)) (Vehicles f') 0)
      as [[-> _] | (n & x & _ & Hn & Hp & _)]; [lia|].
    rewrite Forall_lookup in Hv. destruct (Hv n x Hn) as [Hfit _].
    apply String.eqb_eq in Hp. rewrite <- Hp in Hfit. lia. }
  pose proof (fleet_step_storage true (fun _ => 0) (CmdAdd id model a)
                (f, PiDcc_initial) Hinv) as Hinv'.
  cbn [fleet_step fst snd] in Hinv'.
  split.
  - unfold housedcc_fleet_exists.
    destruct (Z.leb_spec 0 (housedcc_fleet_find id
                              (housedcc_fleet_add id model a f)));
      [|reflexivity].
    pose proof (Habsent _ Hinv'). lia.
  - intros Ha Hfree. unfold housedcc_fleet_exists.
    assert (Hin : exists y, y ∈ Vehicles (housedcc_fleet_add id model a f)
                            /\ v_id y = String.substring 0 14 id).
    { pose proof (Habsent f Hinv) as Hnew.
      rewrite (housedcc_fleet_add_new id model a f Ha (or_introl Hfree) Hnew).
      cbn [Vehicles].
      set (cursor := Z.to_nat (scan_break _ _)).
      set (table := if (length (Vehicles f) <=? cursor)%nat then _ else _).
      assert (Hcursor : (cursor < length table)%nat).
      { unfold table, cursor.
        destruct (scan_break_elim (fun v => String.eqb (v_id v) "") (Vehicles f))
          as [[-> _] | (n & x & -> & Hn & _)]; rewrite Nat2Z.id.
        - rewrite Nat.leb_refl, length_app. cbn. lia.
        - pose proof (lookup_lt_Some _ _ _ Hn).
          destruct (Nat.leb_spec (length (Vehicles f)) n); lia. }
      destruct (lookup_lt_is_Some_2 table cursor Hcursor) as [x Hx].
      exists (added (model_of_add model f) a (set_id (snprintf 15 id) x)).
      split; [|reflexivity].
      eapply list_elem_of_lookup_2.
      rewrite !list_lookup_alter_eq, Hx. reflexivity. }
    destruct Hin as (y & Hy & Hyid).
    pose proof (scan_found (fun v => String.eqb (String.substring 0 14 id) (v_id v))
                  _ y Hy) as Hfound.
    cbn in Hfound. rewrite Hyid, String.eqb_refl in Hfound.
    unfold housedcc_fleet_find.
    destruct (Z.leb_spec 0 (scan (fun v => String.eqb (String.substring 0 14 id)
                                            (v_id v))
                              (Vehicles (housedcc_fleet_add id model a f)) 0));
      [reflexivity | specialize (Hfound eq_refl); lia].
Qed.

Lemma housedcc_fleet_add_long_id_witness :
  let f := housedcc_fleet_add "UNIONPACIFIC4014" None 40 fleet_UP844 in
  storage_inv fleet_UP844
  /\ housedcc_fleet_exists "UNIONPACIFIC4014" f = 0
  /\ housedcc_fleet_exists "UNIONPACIFIC40" f = 1.
Proof.
  intros f.
  assert (Hinv : storage_inv fleet_UP844).
  { apply (fleet_run_keeps true shl_mod32 storage_inv
             (fleet_step_storage true shl_mod32)
             [CmdDeclare "E8" "engine" 2 ["Light:13"; "Bell:1"];
              CmdAdd "UP844" (Some "E8") 44] (Fleet_initial, PiDcc_initial)).
    split; apply Forall_nil_2. }
  destruct (housedcc_fleet_add_long_id "UNIONPACIFIC4014" None 40 fleet_UP844
              Hinv ltac:(simpl; lia)) as [H1 H2].
  split; [exact Hinv|]. split; [exact H1|].
  exact (H2 ltac:(lia) ltac:(vm_compute; reflexivity)).
Defined.

(** ** Models and functions *)



Lemma land_pow2_zero (m n : Z) :
  0 <= n -> (Z.land m (2 ^ n) =? 0) = negb (Z.testbit m n).
Proof.
  intros Hn. destruct (Z.testbit m n) eqn:Hbit; cbn.
  - apply Z.eqb_neq. intros Hzero.
    assert (H : Z.testbit (Z.land m (2 ^ n)) n = true)
      by (rewrite Z.land_spec, Hbit, Z.pow2_bits_true by lia; reflexivity).
    rewrite Hzero, Z.bits_0 in H. discriminate.
  - apply Z.eqb_eq. apply Z.bits_inj'. intros k Hk.
    rewrite Z.land_spec, Z.bits_0, Z.pow2_bits_eqb by lia.
    destruct (Z.eqb_spec n k) as [->|]; [rewrite Hbit|];
      rewrite ?andb_false_r; reflexivity.
Qed.

Lemma low_bits_of_sum (base y k : Z) :
  0 <= y < 16 -> base mod 16 = 0 -> 0 <= k < 4 ->
  Z.testbit (base + y) k = Z.testbit y k.
Proof.
  intros Hy Hbase Hk.
  rewrite <- (Z.mod_pow2_bits_low (base + y) 4 k) by lia.
  change (2 ^ 4) with 16.
  rewrite Z.add_mod, Hbase, Z.add_0_l, Z.mod_mod, Z.mod_small by lia.
  reflexivity.
Qed.

Lemma nibble_bits (m shift k : Z) :
  0 <= shift -> 0 <= k < 4 ->
  0 <= Z.land (Z.shiftr m shift) 0xf < 16
  /\ Z.testbit (Z.land (Z.shiftr m shift) 0xf) k = Z.testbit m (k + shift).
Proof.
  intros Hs Hk. split.
  - change 0xf with (Z.ones 4). rewrite Z.land_ones by lia.
    apply Z.mod_pos_bound. lia.
  - rewrite Z.land_spec, Z.shiftr_spec by lia.
    change 0xf with (Z.ones 4). rewrite Z.ones_spec_low by lia.
    apply andb_true_r.
Qed.

(** X21: for a function with an index in 1..13, [housedcc_fleet_set] sets
    or clears bit [index - 1] of the vehicle's mask, leaves the other
    functions as they were, and hands to [housedcc_pidcc_function] the
    instruction of the function's group: [100] in the top three bits with
    F1..F4 in bits 0..3 and FL (index 13) in bit 4, or [0xb] in the high
    nibble with F5..F8 in bits 0..3, or [0xa] in the high nibble with
    F9..F12 in bits 0..3, each bit taken from the updated mask. *)
Theorem housedcc_fleet_set_valid_index
    (shl : Z -> Z) (w : Z) (id name : string) (state : Z)
    (f : Fleet) (st : PiDcc) (v : DccVehicle) (fn : DccFunction) :
  vehicle_at (housedcc_fleet_find id f) f = Some v ->
  function_of name v f = Some fn ->
  1 <= fn_index fn <= 13 ->
  let index := fn_index fn in
  let mask := housedcc_fleet_set_mask shl index state (v_functions v) in
  exists instruction : Z,
    housedcc_fleet_set shl w id name state (f, st) =
      (fst (housedcc_pidcc_function w (v_address v) instruction st),
       (update_vehicle (housedcc_fleet_find id f) (set_functions mask) f,
        snd (housedcc_pidcc_function w (v_address v) instruction st)))
    /\ (forall k : Z, 0 <= k < 16 ->
          Z.testbit mask k =
            if k =? index - 1 then negb (state =? 0)
            else Z.testbit (v_functions v) k)
    /\ (index <= 4 \/ index = 13 ->
          instruction / 32 = 4
          /\ Z.testbit instruction 4 = Z.testbit mask 12
          /\ forall k : Z, 0 <= k < 4 ->
               Z.testbit instruction k = Z.testbit mask k)
    /\ (5 <= index <= 8 ->
          instruction / 16 = 0xb
          /\ forall k : Z, 0 <= k < 4 ->
               Z.testbit instruction k = Z.testbit mask (k + 4))
    /\ (9 <= index <= 12 ->
          instruction / 16 = 0xa
          /\ forall k : Z, 0 <= k < 4 ->
               Z.testbit instruction k = Z.testbit mask (k + 8)).
Proof.
  intros Hv Hfn Hindex index mask.
  rewrite (housedcc_fleet_set_known shl w id name state f st v fn Hv Hfn).
  cbv zeta. fold index. fold mask.
  destruct (housedcc_fleet_set_instruction_groups index mask)
    as (G1 & G2 & G3 & _).
  assert (Hbits : forall k : Z, 0 <= k < 16 ->
            Z.testbit mask k =
              if k =? index - 1 then negb (state =? 0)
              else Z.testbit (v_functions v) k).
  { intros k Hk. apply housedcc_fleet_set_mask_bits; unfold index; lia. }
  destruct (nibble_bits mask 0 0 ltac:(lia) ltac:(lia)) as [Hlow _].
  rewrite Z.shiftr_0_r in Hlow.
  set (fl := if Z.land mask 0x1000 =? 0 then 0 else 0x10).
  assert (Hfl : (fl = 0 /\ Z.testbit mask 12 = false)
                \/ (fl = 16 /\ Z.testbit mask 12 = true)).
  { unfold fl. change 0x1000 with (2 ^ 12).
    rewrite land_pow2_zero by lia.
    destruct (Z.testbit mask 12); cbn; [right | left]; split; reflexivity. }
  destruct (Z_le_gt_dec index 4) as [H4 | H4];
    [|destruct (Z.eq_dec index 13) as [H13 | H13];
      [|destruct (Z_le_gt_dec index 8) as [H8 | H8]]].
  1, 2: rewrite G1 by lia;
    exists (0x80 + Z.land mask 0xf + fl);
    (split; [reflexivity|]); (split; [exact Hbits|]);
    (split; [|split; intros; lia]); intros _;
    (split; [|split]).
  - destruct Hfl as [[-> _] | [-> _]].
    + replace (0x80 + Z.land mask 0xf + 0) with (Z.land mask 0xf + 4 * 32) by lia.
      rewrite Z.div_add, Z.div_small by lia. reflexivity.
    + replace (0x80 + Z.land mask 0xf + 16)
        with (Z.land mask 0xf + 16 + 4 * 32) by lia.
      rewrite Z.div_add, Z.div_small by lia. reflexivity.
  - destruct Hfl as [[-> ->] | [-> ->]].
    + apply Z.testbit_false; [lia|]. change (2 ^ 4) with 16.
      replace (0x80 + Z.land mask 0xf + 0) with (Z.land mask 0xf + 8 * 16) by lia.
      rewrite Z.div_add, Z.div_small by lia. reflexivity.
    + apply Z.testbit_true; [lia|]. change (2 ^ 4) with 16.
      replace (0x80 + Z.land mask 0xf + 16) with (Z.land mask 0xf + 9 * 16) by lia.
      rewrite Z.div_add, Z.div_small by lia. reflexivity.
  - intros k Hk.
    replace (0x80 + Z.land mask 0xf + fl) with ((0x80 + fl) + Z.land mask 0xf)
      by lia.
    rewrite low_bits_of_sum; [| exact Hlow | | exact Hk].
    + destruct (nibble_bits mask 0 k ltac:(lia) Hk) as [_ Hnib].
      rewrite Z.shiftr_0_r, Z.add_0_r in Hnib. exact Hnib.
    + destruct Hfl as [[-> _] | [-> _]]; reflexivity.
  - destruct Hfl as [[-> _] | [-> _]].
    + replace (0x80 + Z.land mask 0xf + 0) with (Z.land mask 0xf + 4 * 32) by lia.
      rewrite Z.div_add, Z.div_small by lia. reflexivity.
    + replace (0x80 + Z.land mask 0xf + 16)
        with (Z.land mask 0xf + 16 + 4 * 32) by lia.
      rewrite Z.div_add, Z.div_small by lia. reflexivity.
  - destruct Hfl as [[-> ->] | [-> ->]].
    + apply Z.testbit_false; [lia|]. change (2 ^ 4) with 16.
      replace (0x80 + Z.land mask 0xf + 0) with (Z.land mask 0xf + 8 * 16) by lia.
      rewrite Z.div_add, Z.div_small by lia. reflexivity.
    + apply Z.testbit_true; [lia|]. change (2 ^ 4) with 16.
      replace (0x80 + Z.land mask 0xf + 16) with (Z.land mask 0xf + 9 * 16) by lia.
      rewrite Z.div_add, Z.div_small by lia. reflexivity.
  - intros k Hk.
    replace (0x80 + Z.land mask 0xf + fl) with ((0x80 + fl) + Z.land mask 0xf)
      by lia.
    rewrite low_bits_of_sum; [| exact Hlow | | exact Hk].
    + destruct (nibble_bits mask 0 k ltac:(lia) Hk) as [_ Hnib].
      rewrite Z.shiftr_0_r, Z.add_0_r in Hnib. exact Hnib.
    + destruct Hfl as [[-> _] | [-> _]]; reflexivity.
  - rewrite G2 by lia.
    destruct (nibble_bits mask 4 0 ltac:(lia) ltac:(lia)) as [Hn4 _].
    exists (0xb0 + Z.land (Z.shiftr mask 4) 0xf).
    split; [reflexivity|]. split; [exact Hbits|].
    split; [intros; lia|]. split; [|intros; lia]. intros _. split.
    + replace (0xb0 + Z.land (Z.shiftr mask 4) 0xf)
        with (Z.land (Z.shiftr mask 4) 0xf + 11 * 16) by lia.
      rewrite Z.div_add, Z.div_small by lia. reflexivity.
    + intros k Hk. rewrite low_bits_of_sum by (assumption || reflexivity).
      apply nibble_bits; lia.
  - rewrite G3 by lia.
    destruct (nibble_bits mask 8 0 ltac:(lia) ltac:(lia)) as [Hn8 _].
    exists (0xa0 + Z.land (Z.shiftr mask 8) 0xf).
    split; [reflexivity|]. split; [exact Hbits|].
    split; [intros; lia|]. split; [intros; lia|]. intros _. split.
    + replace (0xa0 + Z.land (Z.shiftr mask 8) 0xf)
        with (Z.land (Z.shiftr mask 8) 0xf + 10 * 16) by lia.
      rewrite Z.div_add, Z.div_small by lia. reflexivity.
    + intros k Hk. rewrite low_bits_of_sum by (assumption || reflexivity).
      apply nibble_bits; lia.
Qed.


Lemma housedcc_fleet_set_valid_index_witness :
  exists instruction : Z,
    fst (housedcc_fleet_set shl_mod32 12 "UP844" "Bell" 1
           (fleet_UP844, PiDcc_configured))
    = fst (housedcc_pidcc_function 12 44 instruction PiDcc_configured)
    /\ instruction / 32 = 4
    /\ Z.testbit instruction 0 = true.
Proof.
  assert (Hat : vehicle_at (housedcc_fleet_find "UP844" fleet_UP844) fleet_UP844
                = Some (mkDccVehicle "UP844" 44 0 0 (Some 0%nat)))
    by reflexivity.
  assert (Hfn : function_of "Bell" (mkDccVehicle "UP844" 44 0 0 (Some 0%nat))
                            fleet_UP844
                = Some (mkDccFunction "Bell" 1)) by reflexivity.
  assert (Hidx : 1 <= fn_index (mkDccFunction "Bell" 1) <= 13)
    by (simpl; lia).
  destruct (housedcc_fleet_set_valid_index shl_mod32 12 "UP844" "Bell" 1
              fleet_UP844 PiDcc_configured _ _ Hat Hfn Hidx)
    as (instruction & Heq & Hbits & Hg1 & _).
  exists instruction. split; [rewrite Heq; reflexivity|].
  destruct Hg1 as (Hhigh & _ & Hlow); [left; simpl; lia|].
  split; [exact Hhigh|].
  rewrite (Hlow 0) by lia. rewrite (Hbits 0) by lia. reflexivity.
Defined.

(** ** The status in JSON *)

Lemma print_fits (size : Z) (piece : string) (buffer : option string)
                 (text : string) :
  print size piece buffer = Some text ->
  Z.of_nat (String.length text) < size.
Proof.
  destruct buffer as [t|]; simpl; [|discriminate].
  destruct (Z.of_nat (String.length (t +:+ piece)) >=? size) eqn:E;
    [discriminate|].
  intros [= <-]. rewrite Z.geb_leb in E. apply Z.leb_gt in E. exact E.
Qed.

Lemma print_none (size : Z) (piece : string) : print size piece None = None.
Proof. reflexivity. Qed.

Lemma print_larger (size size' : Z) (piece : string) (buffer : option string)
                   (text : string) :
  size <= size' ->
  print size piece buffer = Some text ->
  print size' piece buffer = Some text.
Proof.
  intros Hle. destruct buffer as [t|]; simpl; [|discriminate].
  destruct (Z.of_nat (String.length (t +:+ piece)) >=? size) eqn:E;
    [discriminate|].
  intros [= <-]. rewrite Z.geb_leb in E. apply Z.leb_gt in E.
  destruct (Z.of_nat (String.length (t +:+ piece)) >=? size') eqn:E';
    [|reflexivity].
  rewrite Z.geb_leb in E'. apply Z.leb_le in E'. lia.
Qed.

Lemma print_keeps_fits (size : Z) (piece : string) (buffer : option string) :
  fits size (print size piece buffer).
Proof.
  destruct (print size piece buffer) as [text|] eqn:E; simpl; [|exact I].
  exact (print_fits _ _ _ _ E).
Qed.

Lemma status_devices_none (shl : Z -> Z) (size mask : Z)
                          (functions : list DccFunction) (prefix2 : string) :
  status_devices shl size mask prefix2 functions None = None.
Proof.
  revert prefix2. induction functions as [|fn rest IH]; intros prefix2;
    simpl; [reflexivity|]. apply IH.
Qed.

Lemma status_devices_fits (shl : Z -> Z) (size mask : Z)
                          (functions : list DccFunction) (prefix2 : string)
                          (buffer : option string) :
  fits size buffer ->
  fits size (status_devices shl size mask prefix2 functions buffer).
Proof.
  revert prefix2 buffer.
  induction functions as [|fn rest IH]; intros prefix2 buffer Hfits; simpl;
    [exact Hfits|].
  apply IH, print_keeps_fits.
Qed.

Lemma status_devices_larger (shl : Z -> Z) (size size' mask : Z)
                            (functions : list DccFunction) (prefix2 : string)
                            (buffer : option string) (text : string) :
  size <= size' ->
  status_devices shl size mask prefix2 functions buffer = Some text ->
  status_devices shl size' mask prefix2 functions buffer = Some text.
Proof.
  intros Hle. revert prefix2 buffer.
  induction functions as [|fn rest IH]; intros prefix2 buffer; simpl;
    [trivial|].
  match goal with
  | |- status_devices _ _ _ _ _ ?b = _ -> _ => destruct b as [t|] eqn:E
  end.
  - rewrite (print_larger _ _ _ _ _ Hle E). apply IH.
  - rewrite status_devices_none. discriminate.
Qed.

Lemma status_vehicle_none (shl : Z -> Z) (size : Z) (models : list DccModel)
                          (v : DccVehicle) (prefix : string) :
  status_vehicle shl size models v prefix None = None.
Proof.
  unfold status_vehicle.
  destruct (v_model v ≫= (fun m => models !! m)) as [m|]; simpl;
    [|reflexivity].
  destruct (0 <? length (m_functions m))%nat; [|reflexivity].
  rewrite status_devices_none. reflexivity.
Qed.

Lemma status_vehicle_fits (shl : Z -> Z) (size : Z) (models : list DccModel)
                          (v : DccVehicle) (prefix : string)
                          (buffer : option string) :
  fits size (status_vehicle shl size models v prefix buffer).
Proof. apply print_keeps_fits. Qed.

Lemma status_vehicle_larger (shl : Z -> Z) (size size' : Z)
                            (models : list DccModel) (v : DccVehicle)
                            (prefix : string) (buffer : option string)
                            (text : string) :
  size <= size' ->
  status_vehicle shl size models v prefix buffer = Some text ->
  status_vehicle shl size' models v prefix buffer = Some text.
Proof.
  intros Hle. unfold status_vehicle.
  set (piece := (prefix +:+ _)%string).
  destruct (v_model v ≫= (fun m => models !! m)) as [m|].
  - destruct (0 <? length (m_functions m))%nat.
    + intros H.
      destruct (print size piece buffer) as [t0|] eqn:E0.
      2: { rewrite status_devices_none in H. discriminate H. }
      destruct (status_devices shl size (v_functions v)
                  ("," +:+ json_key "devices" +:+ "{") (m_functions m)
                  (Some t0)) as [t1|] eqn:E1; [|discriminate H].
      destruct (print size "}" (Some t1)) as [t2|] eqn:E2; [|discriminate H].
      rewrite (print_larger _ _ _ _ _ Hle E0),
        (status_devices_larger _ _ _ _ _ _ _ _ Hle E1),
        (print_larger _ _ _ _ _ Hle E2).
      exact (print_larger _ _ _ _ _ Hle H).
    + intros H.
      destruct (print size piece buffer) as [t0|] eqn:E0; [|discriminate H].
      rewrite (print_larger _ _ _ _ _ Hle E0).
      exact (print_larger _ _ _ _ _ Hle H).
  - intros H.
    destruct (print size piece buffer) as [t0|] eqn:E0; [|discriminate H].
    rewrite (print_larger _ _ _ _ _ Hle E0).
    exact (print_larger _ _ _ _ _ Hle H).
Qed.

Lemma status_vehicles_live (shl : Z -> Z) (size : Z) (models : list DccModel)
                           (vehicles : list DccVehicle) (prefix : string)
                           (listed : Z) (buffer : option string) :
  status_vehicles shl size models vehicles prefix listed buffer
  = status_vehicles shl size models (filter (fun v => v_id v <> "") vehicles)
                    prefix listed buffer.
Proof.
  revert prefix listed buffer.
  induction vehicles as [|v rest IH]; intros prefix listed buffer;
    [reflexivity|].
  rewrite filter_cons. simpl.
  destruct (String.eqb_spec (v_id v) "") as [Hdead|Hlive].
  - rewrite decide_False by (intros Hne; exact (Hne Hdead)). apply IH.
  - rewrite decide_True by exact Hlive. simpl.
    destruct (String.eqb_spec (v_id v) "") as [Hdead|_]; [contradiction|].
    apply IH.
Qed.

Lemma status_vehicles_listed (shl : Z -> Z) (size : Z) (models : list DccModel)
                             (vehicles : list DccVehicle) (prefix : string)
                             (listed : Z) (buffer : option string) :
  fst (status_vehicles shl size models vehicles prefix listed buffer)
  = listed + Z.of_nat (length (filter (fun v => v_id v <> "") vehicles)).
Proof.
  revert prefix listed buffer.
  induction vehicles as [|v rest IH]; intros prefix listed buffer;
    [simpl; lia|].
  rewrite filter_cons. simpl.
  destruct (String.eqb_spec (v_id v) "") as [Hdead|Hlive].
  - rewrite decide_False by (intros Hne; exact (Hne Hdead)). apply IH.
  - rewrite decide_True by exact Hlive. rewrite IH. simpl length. lia.
Qed.

Lemma status_vehicles_overflow (shl : Z -> Z) (size : Z)
                               (models : list DccModel)
                               (vehicles : list DccVehicle) (prefix : string)
                               (listed : Z) :
  snd (status_vehicles shl size models vehicles prefix listed None) = None.
Proof.
  revert prefix listed.
  induction vehicles as [|v rest IH]; intros prefix listed; [reflexivity|].
  simpl. destruct (String.eqb (v_id v) ""); [apply IH|].
  rewrite status_vehicle_none. apply IH.
Qed.

Lemma status_vehicles_fits (shl : Z -> Z) (size : Z) (models : list DccModel)
                           (vehicles : list DccVehicle) (prefix : string)
                           (listed : Z) (buffer : option string) :
  fits size buffer ->
  fits size
    (snd (status_vehicles shl size models vehicles prefix listed buffer)).
Proof.
  revert prefix listed buffer.
  induction vehicles as [|v rest IH]; intros prefix listed buffer Hfits;
    [exact Hfits|].
  simpl. destruct (String.eqb (v_id v) ""); [apply IH, Hfits|].
  apply IH, status_vehicle_fits.
Qed.

Lemma status_vehicles_larger (shl : Z -> Z) (size size' : Z)
                             (models : list DccModel)
                             (vehicles : list DccVehicle) (prefix : string)
                             (listed : Z) (buffer : option string)
                             (text : string) :
  size <= size' ->
  snd (status_vehicles shl size models vehicles prefix listed buffer)
  = Some text ->
  snd (status_vehicles shl size' models vehicles prefix listed buffer)
  = Some text.
Proof.
  intros Hle. revert prefix listed buffer.
  induction vehicles as [|v rest IH]; intros prefix listed buffer;
    [trivial|].
  simpl. destruct (String.eqb (v_id v) ""); [apply IH|].
  destruct (status_vehicle shl size models v prefix buffer) as [t|] eqn:E.
  - rewrite (status_vehicle_larger _ _ _ _ _ _ _ _ Hle E). apply IH.
  - rewrite status_vehicles_overflow. discriminate.
Qed.

(** What has been printed stays: a text is only ever extended. *)
Lemma print_some (size : Z) (piece : string) (buffer : option string)
                 (text : string) :
  print size piece buffer = Some text ->
  exists before : string,
    buffer = Some before
    /\ (String.length before <= String.length text)%nat
    /\ Z.of_nat (String.length text) < size.
Proof.
  intros H. pose proof (print_fits _ _ _ _ H) as Hfits.
  destruct buffer as [before|]; [|discriminate H].
  exists before. split; [reflexivity|]. split; [|exact Hfits].
  simpl in H.
  destruct (Z.of_nat (String.length (before +:+ piece)) >=? size);
    [discriminate H|].
  injection H as <-. rewrite string_length_append. lia.
Qed.

(** Whether a piece is printed depends on the size only through the room
    that the extended text needs. *)
Lemma print_refit (size size' : Z) (piece : string) (buffer : option string)
                  (text : string) :
  print size' piece buffer = Some text ->
  Z.of_nat (String.length text) < size ->
  print size piece buffer = Some text.
Proof.
  destruct buffer as [before|]; [|discriminate]. simpl.
  destruct (Z.of_nat (String.length (before +:+ piece)) >=? size');
    [discriminate|].
  intros [= <-] Hroom.
  destruct (Z.of_nat (String.length (before +:+ piece)) >=? size) eqn:E;
    [|reflexivity].
  rewrite Z.geb_leb in E. apply Z.leb_le in E. lia.
Qed.

Lemma status_devices_some (shl : Z -> Z) (size mask : Z)
                          (functions : list DccFunction) (prefix2 : string)
                          (buffer : option string) (text : string) :
  status_devices shl size mask prefix2 functions buffer = Some text ->
  exists before : string,
    buffer = Some before /\ (String.length before <= String.length text)%nat.
Proof.
  revert prefix2 buffer.
  induction functions as [|fn rest IH]; intros prefix2 buffer; cbn [status_devices].
  - intros ->. exists text. split; [reflexivity | lia].
  - intros H. destruct (IH _ _ H) as (middle & Hprint & Hle).
    destruct (print_some _ _ _ _ Hprint) as (before & -> & Hle' & _).
    exists before. split; [reflexivity | lia].
Qed.

Lemma status_devices_refit (shl : Z -> Z) (size size' mask : Z)
                           (functions : list DccFunction) (prefix2 : string)
                           (buffer : option string) (text : string) :
  status_devices shl size' mask prefix2 functions buffer = Some text ->
  Z.of_nat (String.length text) < size ->
  status_devices shl size mask prefix2 functions buffer = Some text.
Proof.
  revert prefix2 buffer.
  induction functions as [|fn rest IH]; intros prefix2 buffer;
    cbn [status_devices]; [trivial|].
  intros H Hroom.
  destruct (status_devices_some _ _ _ _ _ _ _ H) as (middle & Hprint & Hle).
  rewrite Hprint in H.
  rewrite (print_refit size size' _ _ middle Hprint) by lia.
  apply IH; assumption.
Qed.

Lemma status_vehicle_some (shl : Z -> Z) (size : Z) (models : list DccModel)
                          (v : DccVehicle) (prefix : string)
                          (buffer : option string) (text : string) :
  status_vehicle shl size models v prefix buffer = Some text ->
  exists before : string,
    buffer = Some before /\ (String.length before <= String.length text)%nat.
Proof.
  unfold status_vehicle. intros H.
  destruct (print_some _ _ _ _ H) as (t3 & H3 & L3 & _). clear H.
  assert (Hfirst : forall b t,
             print size
               (prefix +:+ "{" +:+ json_key "id" +:+ json_string (v_id v)
                +:+ "," +:+ json_key "address" +:+ fmt_d (v_address v)
                +:+ "," +:+ json_key "speed" +:+ fmt_d (v_speed v)
                +:+ match v_model v ≫= (fun m => models !! m) with
                    | Some m =>
                        snprintf 72
                          ("," +:+ json_key "model" +:+ json_string (m_name m)
                           +:+ "," +:+ json_key "type"
                           +:+ json_string (housedcc_fleet_toname (m_type m)))
                    | None => ""
                    end) b = Some t ->
             (String.length t <= String.length t3)%nat ->
             exists before : string,
               b = Some before
               /\ (String.length before <= String.length text)%nat).
  { intros b t Hp Hle. destruct (print_some _ _ _ _ Hp) as (t0 & -> & L0 & _).
    exists t0. split; [reflexivity | lia]. }
  destruct (v_model v ≫= (fun m => models !! m)) as [m|].
  - destruct (0 <? length (m_functions m))%nat.
    + destruct (print_some _ _ _ _ H3) as (t2 & H2 & L2 & _).
      destruct (status_devices_some _ _ _ _ _ _ _ H2) as (t1 & H1 & L1).
      apply (Hfirst buffer t1 H1). lia.
    + apply (Hfirst buffer t3 H3). lia.
  - apply (Hfirst buffer t3 H3). lia.
Qed.

Lemma status_vehicle_refit (shl : Z -> Z) (size size' : Z)
                           (models : list DccModel) (v : DccVehicle)
                           (prefix : string) (buffer : option string)
                           (text : string) :
  status_vehicle shl size' models v prefix buffer = Some text ->
  Z.of_nat (String.length text) < size ->
  status_vehicle shl size models v prefix buffer = Some text.
Proof.
  unfold status_vehicle. intros H Hroom.
  set (piece := (prefix +:+ _)%string) in *.
  destruct (print_some _ _ _ _ H) as (t3 & H3 & L3 & _).
  rewrite H3 in H.
  destruct (v_model v ≫= (fun m => models !! m)) as [m|].
  - destruct (0 <? length (m_functions m))%nat.
    + destruct (print_some _ _ _ _ H3) as (t2 & H2 & L2 & _).
      rewrite H2 in H3.
      destruct (status_devices_some _ _ _ _ _ _ _ H2) as (t1 & H1 & L1).
      rewrite H1 in H2.
      rewrite (print_refit size size' _ _ t1 H1) by lia.
      rewrite (status_devices_refit shl size size' _ _ _ _ t2 H2) by lia.
      rewrite (print_refit size size' _ _ t3 H3) by lia.
      exact (print_refit size size' _ _ text H Hroom).
    + rewrite (print_refit size size' _ _ t3 H3) by lia.
      exact (print_refit size size' _ _ text H Hroom).
  - rewrite (print_refit size size' _ _ t3 H3) by lia.
    exact (print_refit size size' _ _ text H Hroom).
Qed.

Lemma status_vehicles_some (shl : Z -> Z) (size : Z) (models : list DccModel)
                           (vehicles : list DccVehicle) (prefix : string)
                           (listed : Z) (buffer : option string)
                           (text : string) :
  snd (status_vehicles shl size models vehicles prefix listed buffer)
  = Some text ->
  exists before : string,
    buffer = Some before /\ (String.length before <= String.length text)%nat.
Proof.
  revert prefix listed buffer.
  induction vehicles as [|v rest IH]; intros prefix listed buffer;
    cbn [status_vehicles].
  - cbn [snd]. intros ->. exists text. split; [reflexivity | lia].
  - destruct (String.eqb (v_id v) ""); [apply IH|].
    intros H. destruct (IH _ _ _ H) as (middle & Hvehicle & Hle).
    destruct (status_vehicle_some _ _ _ _ _ _ _ Hvehicle) as (before & -> & Hle').
    exists before. split; [reflexivity | lia].
Qed.

Lemma status_vehicles_refit (shl : Z -> Z) (size size' : Z)
                            (models : list DccModel)
                            (vehicles : list DccVehicle) (prefix : string)
                            (listed : Z) (buffer : option string)
                            (text : string) :
  snd (status_vehicles shl size' models vehicles prefix listed buffer)
  = Some text ->
  Z.of_nat (String.length text) < size ->
  snd (status_vehicles shl size models vehicles prefix listed buffer)
  = Some text.
Proof.
  revert prefix listed buffer.
  induction vehicles as [|v rest IH]; intros prefix listed buffer;
    cbn [status_vehicles]; [trivial|].
  destruct (String.eqb (v_id v) ""); [apply IH|].
  intros H Hroom.
  destruct (status_vehicles_some _ _ _ _ _ _ _ _ H) as (middle & Hvehicle & Hle).
  rewrite Hvehicle in H.
  rewrite (status_vehicle_refit shl size size' _ _ _ _ middle Hvehicle) by lia.
  apply IH; assumption.
Qed.

(** A status that was written: vehicles were listed and the closing bracket
    went in. *)
Lemma housedcc_fleet_status_written (shl : Z -> Z) (size : Z) (f : Fleet)
                                    (n : Z) (text : string) :
  housedcc_fleet_status shl size f = (n, Some text) -> 0 < n ->
  (VehiclesCount f <=? 0) = false
  /\ (0 <? fst (status_vehicles shl size (Models f) (Vehicles f)
                  ("," +:+ json_key "vehicles" +:+ "[") 0 (Some ""))) = true
  /\ print size "]"
       (snd (status_vehicles shl size (Models f) (Vehicles f)
               ("," +:+ json_key "vehicles" +:+ "[") 0 (Some ""))) = Some text
  /\ n = Z.of_nat (String.length text).
Proof.
  unfold housedcc_fleet_status.
  destruct (VehiclesCount f <=? 0); [discriminate|].
  destruct (status_vehicles shl size (Models f) (Vehicles f)
              ("," +:+ json_key "vehicles" +:+ "[") 0 (Some ""))
    as [listed buffer].
  cbn [fst snd]. destruct (0 <? listed).
  - destruct (print size "]" buffer) as [t|]; [|intros [= <- _]; lia].
    intros [= <- <-] _. repeat split; reflexivity.
  - destruct buffer as [t|]; [discriminate|]. intros [= <- _]. lia.
Qed.

(** The text of the status is the same in every buffer that holds it, and
    a buffer that cannot hold it gets the empty text. *)
Lemma housedcc_fleet_status_refit (shl : Z -> Z) (size size' : Z) (f : Fleet)
                                  (n : Z) (text : string) :
  housedcc_fleet_status shl size' f = (n, Some text) -> 0 < n ->
  housedcc_fleet_status shl size f
  = if n <? size then (n, Some text) else (0, Some "").
Proof.
  intros H Hn.
  destruct (housedcc_fleet_status_written shl size' f n text H Hn)
    as (Hcount & Hlisted & Hprint & ->).
  pose proof (status_vehicles_listed shl size (Models f) (Vehicles f)
                ("," +:+ json_key "vehicles" +:+ "[") 0 (Some "")) as Hl.
  pose proof (status_vehicles_listed shl size' (Models f) (Vehicles f)
                ("," +:+ json_key "vehicles" +:+ "[") 0 (Some "")) as Hl'.
  rewrite <- Hl in Hl'. rewrite Hl' in Hlisted.
  destruct (print_some _ _ _ _ Hprint) as (before & Hbefore & Hle & _).
  unfold housedcc_fleet_status. rewrite Hcount.
  destruct (status_vehicles shl size (Models f) (Vehicles f)
              ("," +:+ json_key "vehicles" +:+ "[") 0 (Some ""))
    as [listed buffer] eqn:Hrun.
  cbn [fst] in Hlisted. rewrite Hlisted.
  destruct (Z.ltb_spec (Z.of_nat (String.length text)) size) as [Hroom|Hfull].
  - (* the text fits *)
    pose proof (status_vehicles_refit shl size size' _ _ _ _ _ before Hbefore
                  ltac:(lia)) as Hsame.
    rewrite Hrun in Hsame. cbn [snd] in Hsame. subst buffer.
    rewrite Hbefore in Hprint.
    rewrite (print_refit size size' _ _ text Hprint Hroom). reflexivity.
  - (* the text does not fit *)
    destruct (print size "]" buffer) as [t|] eqn:Hshort; [|reflexivity].
    exfalso.
    destruct (print_some _ _ _ _ Hshort) as (t0 & -> & Hle0 & Hfits).
    pose proof (print_fits _ _ _ _ Hprint) as Hfits'.
    pose proof (status_vehicles_refit shl size' size (Models f) (Vehicles f)
                  ("," +:+ json_key "vehicles" +:+ "[") 0 (Some "") t0) as Hsame.
    rewrite Hrun in Hsame. cbn [snd] in Hsame.
    specialize (Hsame eq_refl ltac:(lia)).
    rewrite Hbefore in Hsame, Hprint. injection Hsame as ->.
    rewrite (print_refit size' size _ _ t Hshort ltac:(lia)) in Hprint.
    injection Hprint as ->. lia.
Qed.

(** Each stage of the status has a text of its own, which it prints in
    every buffer that is longer. *)
Lemma print_text (size : Z) (piece before : string) :
  Z.of_nat (String.length (before +:+ piece)) < size ->
  print size piece (Some before) = Some (before +:+ piece).
Proof.
  intros Hroom. simpl.
  destruct (Z.of_nat (String.length (before +:+ piece)) >=? size) eqn:E;
    [|reflexivity].
  rewrite Z.geb_leb in E. apply Z.leb_le in E. lia.
Qed.

Lemma status_devices_text (shl : Z -> Z) (mask : Z)
                          (functions : list DccFunction) :
  forall (prefix2 before : string),
  exists text : string,
    (String.length before <= String.length text)%nat
    /\ forall size : Z,
         Z.of_nat (String.length text) < size ->
         status_devices shl size mask prefix2 functions (Some before)
         = Some text.
Proof.
  induction functions as [|fn rest IH]; intros prefix2 before.
  - exists before. split; [lia | reflexivity].
  - cbn [status_devices].
    match goal with
    | |- context [print _ ?p (Some before)] => set (piece := p)
    end.
    destruct (IH "," (before +:+ piece)) as (text & Hle & Htext).
    rewrite string_length_append in Hle.
    exists text. split; [lia|]. intros size Hroom.
    rewrite print_text by (rewrite string_length_append; lia).
    apply Htext, Hroom.
Qed.

Lemma status_vehicle_text (shl : Z -> Z) (models : list DccModel)
                          (v : DccVehicle) (prefix before : string) :
  exists text : string,
    (String.length before < String.length text)%nat
    /\ forall size : Z,
         Z.of_nat (String.length text) < size ->
         status_vehicle shl size models v prefix (Some before) = Some text.
Proof.
  unfold status_vehicle.
  match goal with
  | |- context [print _ ?p (Some before)] => set (piece := p)
  end.
  destruct (v_model v ≫= (fun m => models !! m)) as [m|].
  - destruct (0 <? length (m_functions m))%nat.
    + destruct (status_devices_text shl (v_functions v) (m_functions m)
                  ("," +:+ json_key "devices" +:+ "{") (before +:+ piece))
        as (inner & Hle & Hinner).
      rewrite string_length_append in Hle.
      exists ((inner +:+ "}") +:+ "}"). rewrite !string_length_append.
      cbn [String.length]. split; [lia|]. intros size Hroom.
      rewrite print_text by (rewrite string_length_append; lia).
      rewrite Hinner by lia.
      rewrite print_text by (rewrite string_length_append; cbn; lia).
      apply print_text. rewrite !string_length_append. cbn. lia.
    + exists ((before +:+ piece) +:+ "}"). rewrite !string_length_append.
      cbn [String.length]. split; [lia|]. intros size Hroom.
      rewrite print_text by (rewrite string_length_append; lia).
      apply print_text. rewrite !string_length_append. cbn. lia.
  - exists ((before +:+ piece) +:+ "}"). rewrite !string_length_append.
    cbn [String.length]. split; [lia|]. intros size Hroom.
    rewrite print_text by (rewrite string_length_append; lia).
    apply print_text. rewrite !string_length_append. cbn. lia.
Qed.

Lemma status_vehicles_text (shl : Z -> Z) (models : list DccModel)
                           (vehicles : list DccVehicle) :
  forall (prefix : string) (listed : Z) (before : string),
  exists text : string,
    (String.length before <= String.length text)%nat
    /\ forall size : Z,
         Z.of_nat (String.length text) < size ->
         snd (status_vehicles shl size models vehicles prefix listed
                (Some before)) = Some text.
Proof.
  induction vehicles as [|v rest IH]; intros prefix listed before.
  - exists before. split; [lia | reflexivity].
  - cbn [status_vehicles]. destruct (String.eqb (v_id v) ""); [apply IH|].
    destruct (status_vehicle_text shl models v prefix before)
      as (one & Hlt & Hone).
    destruct (IH "," (listed + 1) one) as (text & Hle & Htext).
    exists text. split; [lia|]. intros size Hroom.
    rewrite Hone by lia. apply Htext, Hroom.
Qed.

(** The status of a registry with vehicles in use has one text, which a
    buffer gets when it is long enough for it. *)
Lemma housedcc_fleet_status_text (shl : Z -> Z) (f : Fleet) :
  live_vehicles f <> [] ->
  exists text : string,
    text <> ""
    /\ forall size : Z,
         Z.of_nat (String.length text) < size ->
         housedcc_fleet_status shl size f
         = (Z.of_nat (String.length text), Some text).
Proof.
  intros Hlive. unfold live_vehicles in Hlive.
  destruct (status_vehicles_text shl (Models f) (Vehicles f)
              ("," +:+ json_key "vehicles" +:+ "[") 0 "")
    as (inner & _ & Hinner).
  exists (inner +:+ "]"). split; [destruct inner; discriminate|].
  intros size Hroom. rewrite string_length_append in Hroom.
  cbn [String.length] in Hroom.
  unfold housedcc_fleet_status, VehiclesCount.
  destruct (Vehicles f) as [|v0 rest0] eqn:Hvs; [contradiction|].
  rewrite <- Hvs in *.
  destruct (Z.leb_spec (Z.of_nat (length (Vehicles f))) 0) as [Hnone|_];
    [rewrite Hvs in Hnone; cbn [length] in Hnone; lia|].
  pose proof (status_vehicles_listed shl size (Models f) (Vehicles f)
                ("," +:+ json_key "vehicles" +:+ "[") 0 (Some "")) as Hlisted.
  specialize (Hinner size ltac:(lia)).
  destruct (status_vehicles shl size (Models f) (Vehicles f)
              ("," +:+ json_key "vehicles" +:+ "[") 0 (Some ""))
    as [listed buffer].
  cbn [fst snd] in *. subst buffer.
  assert (Hpos : 0 < listed).
  { rewrite Hlisted.
    destruct (filter (fun v => v_id v <> "") (Vehicles f));
      [contradiction | cbn [length]; lia]. }
  destruct (Z.ltb_spec 0 listed); [|lia].
  rewrite print_text by (rewrite string_length_append; cbn; lia).
  reflexivity.
Qed.

(** X22 ([housedcc_fleet_status]): with a buffer of [size > 0] bytes the
    value returned is the length of the text written and leaves room for its
    terminator. With no vehicle in use nothing is written and 0 is
    returned. With vehicles in use the status has one text, of [n > 0]
    characters: a buffer of more than [n] bytes gets this text and [n] is
    returned, and a buffer of [n] bytes or fewer, in which the text does not
    fit with its terminator, gets the empty text and 0 is returned. *)
Theorem housedcc_fleet_status_bounds (shl : Z -> Z) (size : Z) (f : Fleet) :
  0 < size ->
  match housedcc_fleet_status shl size f with
  | (n, Some text) => n = Z.of_nat (String.length text) /\ n < size
  | (n, None) => n = 0
  end
  /\ (live_vehicles f = [] -> housedcc_fleet_status shl size f = (0, None))
  /\ (live_vehicles f <> [] ->
      exists text : string,
        text <> ""
        /\ forall size' : Z,
             0 < size' ->
             housedcc_fleet_status shl size' f
             = if Z.of_nat (String.length text) <? size'
               then (Z.of_nat (String.length text), Some text)
               else (0, Some ""))
  /\ forall (size' n : Z) (text : string),
       housedcc_fleet_status shl size' f = (n, Some text) -> 0 < n ->
       (n < size -> housedcc_fleet_status shl size f = (n, Some text))
       /\ (size <= n -> housedcc_fleet_status shl size f = (0, Some "")).
Proof.
  intros Hsize.
  assert (Hrun : forall listed buffer,
             status_vehicles shl size (Models f) (Vehicles f)
               ("," +:+ json_key "vehicles" +:+ "[") 0 (Some "")
             = (listed, buffer) ->
             listed = Z.of_nat (length (live_vehicles f))
             /\ (live_vehicles f = [] -> buffer = Some "")).
  { intros listed buffer Hrun.
    pose proof (status_vehicles_listed shl size (Models f) (Vehicles f)
                  ("," +:+ json_key "vehicles" +:+ "[") 0 (Some "")) as Hlisted.
    pose proof (status_vehicles_live shl size (Models f) (Vehicles f)
                  ("," +:+ json_key "vehicles" +:+ "[") 0 (Some "")) as Hlive.
    rewrite Hrun in Hlisted, Hlive. cbn [fst] in Hlisted.
    split; [exact Hlisted|].
    unfold live_vehicles. intros Hnil. rewrite Hnil in Hlive.
    cbn in Hlive. injection Hlive as _ ->. reflexivity. }
  split; [|split; [|split]].
  - unfold housedcc_fleet_status.
    destruct (VehiclesCount f <=? 0); [reflexivity|].
    destruct (status_vehicles shl size (Models f) (Vehicles f)
                ("," +:+ json_key "vehicles" +:+ "[") 0 (Some ""))
      as [listed buffer] eqn:E.
    destruct (Hrun listed buffer eq_refl) as [Hlisted Hnone].
    destruct (0 <? listed) eqn:Hpos.
    + destruct (print size "]" buffer) as [text|] eqn:Hprint.
      * split; [reflexivity|]. exact (print_fits _ _ _ _ Hprint).
      * split; [reflexivity|exact Hsize].
    + apply Z.ltb_ge in Hpos.
      destruct (live_vehicles f) as [|v rest];
        [|cbn [length] in Hlisted; lia].
      rewrite (Hnone eq_refl). reflexivity.
  - intros Hnil. unfold housedcc_fleet_status.
    destruct (VehiclesCount f <=? 0); [reflexivity|].
    destruct (status_vehicles shl size (Models f) (Vehicles f)
                ("," +:+ json_key "vehicles" +:+ "[") 0 (Some ""))
      as [listed buffer] eqn:E.
    destruct (Hrun listed buffer eq_refl) as [Hlisted Hnone].
    rewrite Hnil in Hlisted. cbn [length] in Hlisted. subst listed.
    rewrite (Hnone Hnil). reflexivity.
  - intros Hlive.
    destruct (housedcc_fleet_status_text shl f Hlive) as (text & Hne & Htext).
    exists text. split; [exact Hne|]. intros size' Hsize'.
    assert (Hn : 0 < Z.of_nat (String.length text))
      by (destruct text; [contradiction | cbn [String.length]; lia]).
    apply (housedcc_fleet_status_refit shl size'
             (Z.of_nat (String.length text) + 1) f _ text);
      [apply Htext; lia | exact Hn].
  - intros size' n text H Hn.
    rewrite (housedcc_fleet_status_refit shl size size' f n text H Hn).
    split; intros Hcmp.
    + destruct (Z.ltb_spec n size); [reflexivity | lia].
    + destruct (Z.ltb_spec n size); [lia | reflexivity].
Qed.

Lemma housedcc_fleet_status_bounds_witness :
  0 < 60
  /\ housedcc_fleet_status shl_mod32 60 (fst world_UP844_running) = (0, Some "")
  /\ housedcc_fleet_status shl_mod32 113 (fst world_UP844_running)
     = (0, Some "")
  /\ fst (housedcc_fleet_status shl_mod32 114 (fst world_UP844_running)) = 113.
Proof.
  assert (Hn : fst (housedcc_fleet_status shl_mod32 65537
                      (fst world_UP844_running)) = 113)
    by (vm_compute; reflexivity).
  assert (Hs : snd (housedcc_fleet_status shl_mod32 65537
                      (fst world_UP844_running)) <> None)
    by (vm_compute; discriminate).
  destruct (housedcc_fleet_status shl_mod32 65537 (fst world_UP844_running))
    as [n [text|]] eqn:H; simpl in Hn, Hs; [|contradiction].
  subst n.
  destruct (housedcc_fleet_status_bounds shl_mod32 60
              (fst world_UP844_running) ltac:(lia)) as (_ & _ & _ & H60).
  destruct (housedcc_fleet_status_bounds shl_mod32 113
              (fst world_UP844_running) ltac:(lia)) as (_ & _ & _ & H113).
  destruct (housedcc_fleet_status_bounds shl_mod32 114
              (fst world_UP844_running) ltac:(lia)) as (_ & _ & _ & H114).
  split; [lia|].
  split; [exact (proj2 (H60 65537 113 text H ltac:(lia)) ltac:(lia))|].
  split; [exact (proj2 (H113 65537 113 text H ltac:(lia)) ltac:(lia))|].
  rewrite (proj1 (H114 65537 113 text H ltac:(lia)) ltac:(lia)). reflexivity.
Defined.

(** X23 ([housedcc_fleet_status]): the slots of deleted vehicles do not show:
    the status of a registry is the status of the registry with those slots
    taken out. *)
Theorem housedcc_fleet_status_skips_deleted (shl : Z -> Z) (size : Z)
                                            (f : Fleet) :
  housedcc_fleet_status shl size f
  = housedcc_fleet_status shl size (mkFleet (Models f) (live_vehicles f)).
Proof.
  unfold housedcc_fleet_status, VehiclesCount, live_vehicles. simpl.
  rewrite (status_vehicles_live shl size (Models f) (Vehicles f)).
  destruct (Vehicles f) as [|v rest] eqn:Hvs; [reflexivity|].
  destruct (filter (fun v0 => v_id v0 <> "") (v :: rest)) as [|v' rest'];
    reflexivity.
Qed.

(** X24 ([housedcc_fleet_status]): the text does not depend on the size of
    the buffer: a text that fits in [size] bytes is the text written in any
    larger buffer. *)
Theorem housedcc_fleet_status_larger_buffer
    (shl : Z -> Z) (size size' : Z) (f : Fleet) (n : Z) (text : string) :
  size <= size' ->
  0 < n ->
  housedcc_fleet_status shl size f = (n, Some text) ->
  housedcc_fleet_status shl size' f = (n, Some text).
Proof.
  intros Hle Hn. unfold housedcc_fleet_status.
  destruct (VehiclesCount f <=? 0); [discriminate|].
  pose proof (status_vehicles_listed shl size (Models f) (Vehicles f)
                ("," +:+ json_key "vehicles" +:+ "[") 0 (Some "")) as Hl.
  pose proof (status_vehicles_listed shl size' (Models f) (Vehicles f)
                ("," +:+ json_key "vehicles" +:+ "[") 0 (Some "")) as Hl'.
  pose proof (status_vehicles_larger shl size size' (Models f) (Vehicles f)
                ("," +:+ json_key "vehicles" +:+ "[") 0 (Some "")) as Hb.
  destruct (status_vehicles shl size (Models f) (Vehicles f)
              ("," +:+ json_key "vehicles" +:+ "[") 0 (Some ""))
    as [listed buffer].
  destruct (status_vehicles shl size' (Models f) (Vehicles f)
              ("," +:+ json_key "vehicles" +:+ "[") 0 (Some ""))
    as [listed' buffer'].
  simpl in Hl, Hl', Hb. rewrite <- Hl in Hl'. subst listed'.
  destruct (0 <? listed).
  - destruct (print size "]" buffer) as [t|] eqn:Hprint;
      [|intros [= <- _]; lia].
    intros [= <- <-].
    destruct buffer as [tb|]; [|discriminate Hprint].
    rewrite (Hb tb Hle eq_refl).
    rewrite (print_larger _ _ _ _ _ Hle Hprint). reflexivity.
  - destruct buffer as [tb|]; [discriminate|]. intros [= <- _]. lia.
Qed.

Lemma housedcc_fleet_status_larger_buffer_witness :
  housedcc_fleet_status shl_mod32 65537 (fst world_UP844_running)
  = housedcc_fleet_status shl_mod32 114 (fst world_UP844_running).
Proof.
  assert (Hn : fst (housedcc_fleet_status shl_mod32 114
                      (fst world_UP844_running)) = 113)
    by (vm_compute; reflexivity).
  assert (Hs : snd (housedcc_fleet_status shl_mod32 114
                      (fst world_UP844_running)) <> None)
    by (vm_compute; discriminate).
  destruct (housedcc_fleet_status shl_mod32 114 (fst world_UP844_running))
    as [n [text|]] eqn:H; simpl in Hn, Hs; [|contradiction].
  apply (housedcc_fleet_status_larger_buffer shl_mod32 114 65537
           (fst world_UP844_running) n text); [lia|lia|exact H].
Defined.

(** X25 ([housedcc_fleet_totype], [housedcc_fleet_toname]): the three type
    codes are written and read back unchanged; a type word is read and
    written back unchanged exactly when it is "engine", "car" or "dummy":
    "locomotive" comes back as "engine" and any other word as "dummy". *)
Theorem housedcc_fleet_type_round_trip :
  (forall type : Z,
     In type [VEHICLE_TYPE_NODCC; VEHICLE_TYPE_CAR; VEHICLE_TYPE_ENGINE] ->
     housedcc_fleet_totype (housedcc_fleet_toname type) = type)
  /\ (forall word : string,
        housedcc_fleet_toname (housedcc_fleet_totype word)
        = if String.eqb word "engine" || String.eqb word "locomotive"
          then "engine"
          else if String.eqb word "car" then "car" else "dummy")
  /\ (forall word : string,
        housedcc_fleet_toname (housedcc_fleet_totype word) = word
        <-> In word ["engine"; "car"; "dummy"]).
Proof.
  assert (Hword : forall word : string,
             housedcc_fleet_toname (housedcc_fleet_totype word)
             = if String.eqb word "engine" || String.eqb word "locomotive"
               then "engine"
               else if String.eqb word "car" then "car" else "dummy").
  { intros word. unfold housedcc_fleet_totype.
    destruct (String.eqb word "engine"); [reflexivity|].
    destruct (String.eqb word "locomotive"); [reflexivity|].
    destruct (String.eqb word "car"); [reflexivity|].
    destruct (String.eqb word "dummy"); reflexivity. }
  split; [|split; [exact Hword|]].
  - intros type [<- | [<- | [<- | []]]]; reflexivity.
  - intros word. rewrite Hword. split.
    + destruct (String.eqb_spec word "engine") as [->|_];
        [intros _; left; reflexivity|].
      destruct (String.eqb_spec word "locomotive") as [->|_];
        [discriminate|].
      destruct (String.eqb_spec word "car") as [->|_];
        [intros _; right; left; reflexivity|].
      intros <-. right; right; left; reflexivity.
    + intros [<- | [<- | [<- | []]]]; reflexivity.
Qed.

(** ** The request handlers *)

Lemma dcc_initial_keeps (now : Z) (s : Server) :
  Trains (dcc_initial now s) = Trains s
  /\ (0 < DccLatest s -> dcc_initial now s = s).
Proof.
  unfold dcc_initial. destruct (Z.eqb_spec (DccLatest s) 0) as [Hz|Hnz].
  - split; [reflexivity|lia].
  - split; reflexivity.
Qed.

Lemma dcc_changed_effect (now : Z) (s : Server) :
  Trains (dcc_changed now s) = Trains s
  /\ (0 < DccLatest s -> DccLatest (dcc_changed now s) = DccLatest s + 1).
Proof.
  unfold dcc_changed. simpl. destruct (dcc_initial_keeps now s) as [Ht Hl].
  split; [exact Ht|]. intros Hpos. rewrite (Hl Hpos). reflexivity.
Qed.

Lemma dcc_status_effect (shl : Z -> Z) (now : Z) (header : string)
                        (known : option string) (s : Server) :
  Trains (snd (dcc_status shl now header known s)) = Trains s
  /\ carried_out (fst (dcc_status shl now header known s)) = true
  /\ (0 < DccLatest s -> snd (dcc_status shl now header known s) = s).
Proof.
  unfold dcc_status.
  destruct (dcc_initial_keeps now s) as [Ht Hl].
  destruct (dcc_same now known s) as [same s0] eqn:E.
  assert (Hs0 : s0 = dcc_initial now s).
  { unfold dcc_same in E. destruct known; injection E as _ <-; reflexivity. }
  subst s0. destruct same.
  - split; [exact Ht|]. split; [reflexivity|exact Hl].
  - destruct (housedcc_fleet_status shl
                (JsonBuffer_size - Z.of_nat (String.length header))
                (fst (Trains (dcc_initial now s)))) as [n written].
    split; [exact Ht|]. split; [reflexivity|exact Hl].
Qed.

Lemma dcc_done (shl : Z -> Z) (now : Z) (header : string)
               (known : option string) (s : Server) :
  let r := dcc_status shl now header known (dcc_changed now s) in
  Trains (snd r) = Trains s
  /\ carried_out (fst r) = true
  /\ (0 < DccLatest s -> DccLatest (snd r) = DccLatest s + 1).
Proof.
  intros r. subst r.
  destruct (dcc_status_effect shl now header known (dcc_changed now s))
    as (Ht & Hc & Hl).
  destruct (dcc_changed_effect now s) as [Ht' Hl'].
  split; [rewrite Ht; exact Ht'|]. split; [exact Hc|].
  intros Hpos. rewrite Hl by (rewrite Hl' by exact Hpos; lia).
  exact (Hl' Hpos).
Qed.

Lemma set_Trains_same (s : Server) : set_Trains (Trains s) s = s.
Proof. destruct s; reflexivity. Qed.

(** A handler either refuses with one of three codes, or answers with the
    status after it moved the change counter. *)
Lemma dcc_request_outcome (shl : Z -> Z) (now : Z) (header : string) (w : Z)
                          (known : option string) (r : Request) (s : Server) :
  (exists code text t,
      dcc_request shl now header w known r s
      = (ReplyError code text, set_Trains t s)
      /\ In code [400; 404; 500])
  \/ (exists t,
         dcc_request shl now header w known r s
         = dcc_status shl now header known (dcc_changed now (set_Trains t s))).
Proof.
  assert (Hrefuse : forall code text,
             In code [400; 404; 500] ->
             exists code' text' t,
               (ReplyError code text, s) = (ReplyError code' text', set_Trains t s)
               /\ In code' [400; 404; 500]).
  { intros code text Hin. exists code, text, (Trains s).
    rewrite set_Trains_same. split; [reflexivity|exact Hin]. }
  destruct r as [id speed | id urgent | id device state]; simpl.
  - unfold dcc_move.
    destruct id as [id|]; [|left; apply Hrefuse; simpl; tauto].
    destruct speed as [speed|]; [|left; apply Hrefuse; simpl; tauto].
    destruct (starts_with_digit id).
    + destruct (housedcc_pidcc_move w (atoi id) (atoi speed) (snd (Trains s)))
        as [r st].
      destruct (r =? 0).
      * left. exists 500, "DCC failure"%string, (fst (Trains s), st).
        split; [reflexivity|simpl; tauto].
      * right. exists (fst (Trains s), st). reflexivity.
    + unfold housedcc_consist_move. simpl.
      destruct (housedcc_fleet_move w id (atoi speed) (Trains s)) as [r t].
      destruct (r =? 0).
      * left. exists 404, "invalid ID"%string, t.
        split; [reflexivity|simpl; tauto].
      * right. exists t. reflexivity.
  - unfold dcc_stop.
    destruct id as [id|].
    + destruct (starts_with_digit id).
      * destruct (housedcc_pidcc_stop w (atoi id)
                    match urgent with Some text => atoi text | None => 0 end
                    (snd (Trains s))) as [r st].
        destruct (r =? 0).
        -- left. exists 500, "DCC failure"%string, (fst (Trains s), st).
           split; [reflexivity|simpl; tauto].
        -- right. exists (fst (Trains s), st). reflexivity.
      * unfold housedcc_consist_stop. simpl.
        destruct (housedcc_fleet_stop w id
                    match urgent with Some text => atoi text | None => 0 end
                    (Trains s)) as [r t].
        destruct (r =? 0).
        -- left. exists 404, "invalid ID"%string, t.
           split; [reflexivity|simpl; tauto].
        -- right. exists t. reflexivity.
    + destruct (housedcc_pidcc_stop w 0
                  match urgent with Some text => atoi text | None => 0 end
                  (snd (Trains s))) as [r st].
      destruct (r =? 0).
      * left. exists 500, "DCC failure"%string, (fst (Trains s), st).
        split; [reflexivity|simpl; tauto].
      * right. exists (housedcc_fleet_stopped (fst (Trains s)), st).
        reflexivity.
  - unfold dcc_set.
    destruct id as [id|]; [|left; apply Hrefuse; simpl; tauto].
    destruct device as [device|]; [|left; apply Hrefuse; simpl; tauto].
    destruct state as [state|]; [|left; apply Hrefuse; simpl; tauto].
    destruct (starts_with_digit id).
    + destruct (housedcc_pidcc_function w (atoi id) (atoi state)
                  (snd (Trains s))) as [r st].
      destruct (r =? 0).
      * left. exists 500, "DCC failure"%string, (fst (Trains s), st).
        split; [reflexivity|simpl; tauto].
      * right. exists (fst (Trains s), st). reflexivity.
    + destruct (if String.eqb state "on" then Some 1
                else if String.eqb state "off" then Some 0 else None)
        as [statevalue|]; [|left; apply Hrefuse; simpl; tauto].
      destruct (housedcc_fleet_set shl w id device statevalue (Trains s))
        as [r t].
      destruct (r =? 0).
      * left. exists 404, "invalid ID"%string, t.
        split; [reflexivity|simpl; tauto].
      * right. exists t. reflexivity.
Qed.

(** X26 ([dcc_move], [dcc_stop], [dcc_set], [dcc_changed], [dcc_status]):
    once the change counter is set, a request whose numerals are [int]
    values, with a speed above [INT_MIN], moves the counter by one exactly
    when it is carried out (the answer is the status, or 304); a request
    that is refused leaves the counter as it was. The header of the status
    fits the buffer and the numeral of [known] is a [long] value. *)
Theorem dcc_request_counter (shl : Z -> Z) (now : Z) (header : string)
                            (w : Z) (known : option string) (r : Request)
                            (s : Server) :
  0 < DccLatest s < 9223372036854775807 ->
  request_defined r ->
  status_defined header known ->
  DccLatest (snd (dcc_request shl now header w known r s))
  = if carried_out (fst (dcc_request shl now header w known r s))
    then DccLatest s + 1
    else DccLatest s.
Proof.
  intros [Hpos _] _ _.
  destruct (dcc_request_outcome shl now header w known r s)
    as [(code & text & t & -> & Hcode) | (t & ->)].
  - simpl. destruct Hcode as [<- | [<- | [<- | []]]]; reflexivity.
  - destruct (dcc_done shl now header known (set_Trains t s))
      as (_ & -> & Hl).
    exact (Hl Hpos).
Qed.

Lemma dcc_request_counter_witness :
  DccLatest (snd (dcc_request shl_mod32 0 "{" 12 None
                    (ReqMove (Some "UP844") (Some "10"))
                    (mkServer 100 (fleet_UP844, PiDcc_configured))))
  = 101.
Proof.
  assert (Hdone : carried_out
                    (fst (dcc_request shl_mod32 0 "{" 12 None
                            (ReqMove (Some "UP844") (Some "10"))
                            (mkServer 100 (fleet_UP844, PiDcc_configured))))
                  = true) by (vm_compute; reflexivity).
  assert (Hpos : 0 < DccLatest (mkServer 100 (fleet_UP844, PiDcc_configured))
                     < 9223372036854775807)
    by (simpl; lia).
  assert (Hdef : request_defined (ReqMove (Some "UP844") (Some "10")))
    by (vm_compute; intuition discriminate).
  assert (Hstatus : status_defined "{" None)
    by (split; [reflexivity | exact I]).
  pose proof (dcc_request_counter shl_mod32 0 "{" 12 None
                (ReqMove (Some "UP844") (Some "10"))
                (mkServer 100 (fleet_UP844, PiDcc_configured)) Hpos Hdef
                Hstatus) as H.
  rewrite Hdone in H. exact H.
Defined.

(** X27 ([dcc_move], [dcc_stop], [dcc_set]): an id that starts with a digit
    is taken as a raw address: the registry is neither searched nor
    changed, even when it holds a vehicle of that id, and the transport is
    called with the number read from the id. The numerals of the request
    are [int] values, the speed above [INT_MIN]; the header of the status
    fits the buffer and the numeral of [known] is a [long] value. *)
Theorem dcc_request_digit_id (shl : Z -> Z) (now : Z) (header : string)
                             (w : Z) (known : option string) (id : string)
                             (s : Server) :
  starts_with_digit id = true ->
  is_int (atoi id) ->
  status_defined header known ->
  (forall speed,
     INT_MIN < atoi speed <= INT_MAX ->
     Trains (snd (dcc_move shl now header w (Some id) (Some speed) known s))
     = (fst (Trains s),
        snd (housedcc_pidcc_move w (atoi id) (atoi speed) (snd (Trains s)))))
  /\ (forall urgent,
        numeral_is_int urgent ->
        Trains (snd (dcc_stop shl now header w (Some id) urgent known s))
        = (fst (Trains s),
           snd (housedcc_pidcc_stop w (atoi id)
                  match urgent with Some text => atoi text | None => 0 end
                  (snd (Trains s)))))
  /\ (forall device state,
        is_int (atoi state) ->
        Trains (snd (dcc_set shl now header w (Some id) (Some device)
                       (Some state) known s))
        = (fst (Trains s),
           snd (housedcc_pidcc_function w (atoi id) (atoi state)
                  (snd (Trains s))))).
Proof.
  intros Hdigit _ _. split; [|split].
  - intros speed _. unfold dcc_move. rewrite Hdigit.
    destruct (housedcc_pidcc_move w (atoi id) (atoi speed) (snd (Trains s)))
      as [r st].
    destruct (r =? 0); [reflexivity|].
    destruct (dcc_done shl now header known
                (set_Trains (fst (Trains s), st) s)) as (-> & _).
    reflexivity.
  - intros urgent _. unfold dcc_stop. rewrite Hdigit.
    destruct (housedcc_pidcc_stop w (atoi id)
                match urgent with Some text => atoi text | None => 0 end
                (snd (Trains s))) as [r st].
    destruct (r =? 0); [reflexivity|].
    destruct (dcc_done shl now header known
                (set_Trains (fst (Trains s), st) s)) as (-> & _).
    reflexivity.
  - intros device state _. unfold dcc_set. rewrite Hdigit.
    destruct (housedcc_pidcc_function w (atoi id) (atoi state)
                (snd (Trains s))) as [r st].
    destruct (r =? 0); [reflexivity|].
    destruct (dcc_done shl now header known
                (set_Trains (fst (Trains s), st) s)) as (-> & _).
    reflexivity.
Qed.

(** A vehicle registered under the id "3" at the address 44: the request to
    move "3" is sent to the address 3 and the registry keeps the speed 0. *)
Lemma dcc_request_digit_id_witness :
  Trains (snd (dcc_move shl_mod32 0 "{" 12 (Some "3") (Some "10") None
                 (mkServer 100 (housedcc_fleet_add "3" None 44 Fleet_initial,
                                PiDcc_configured))))
  = (housedcc_fleet_add "3" None 44 Fleet_initial,
     snd (housedcc_pidcc_move 12 3 10 PiDcc_configured)).
Proof.
  assert (Hdigit : starts_with_digit "3" = true) by reflexivity.
  assert (Hid : is_int (atoi "3")) by (vm_compute; intuition discriminate).
  assert (Hspeed : INT_MIN < atoi "10" <= INT_MAX)
    by (vm_compute; intuition discriminate).
  assert (Hstatus : status_defined "{" None)
    by (split; [reflexivity | exact I]).
  destruct (dcc_request_digit_id shl_mod32 0 "{" 12 None "3"
              (mkServer 100 (housedcc_fleet_add "3" None 44 Fleet_initial,
                             PiDcc_configured)) Hdigit Hid Hstatus)
    as (Hmove & _).
  exact (Hmove "10"%string Hspeed).
Defined.

(** X28 ([dcc_move]): when the transport fails, the request to move a
    registered vehicle, at a speed that is an [int] value, is answered 404
    "invalid ID", the change counter stays, nothing is written to the pipe,
    and the registry nevertheless records the requested speed, clamped to
    [-31, 31]. *)
Theorem dcc_move_transport_failure
    (shl : Z -> Z) (now : Z) (header : string) (w : Z)
    (known : option string) (id speed : string) (s : Server)
    (v : DccVehicle) :
  starts_with_digit id = false ->
  is_int (atoi speed) ->
  vehicle_at (housedcc_fleet_find id (fst (Trains s))) (fst (Trains s))
  = Some v ->
  transport_fails w (snd (Trains s)) ->
  let out := dcc_move shl now header w (Some id) (Some speed) known s in
  fst out = ReplyError 404 "invalid ID"
  /\ DccLatest (snd out) = DccLatest s
  /\ fst (Trains (snd out))
     = update_vehicle (housedcc_fleet_find id (fst (Trains s)))
                      (set_speed (clamp31 (atoi speed))) (fst (Trains s))
  /\ PiDccWritten (snd (Trains (snd out))) = PiDccWritten (snd (Trains s)).
Proof.
  intros Hname _ Hv Hfail out. subst out. unfold dcc_move. rewrite Hname.
  unfold housedcc_consist_move. change (0 =? 0) with true. cbv iota.
  destruct s as [latest [f st]]. cbn [Trains fst snd] in *.
  rewrite (housedcc_fleet_move_known w id (atoi speed) f st v Hv).
  destruct (housedcc_pidcc_move_fails w (v_address v) (clamp31 (atoi speed))
              st Hfail) as [Hzero Hwritten].
  rewrite Hzero. simpl. split; [reflexivity|]. split; [reflexivity|].
  split; [reflexivity|exact Hwritten].
Qed.

Lemma dcc_move_transport_failure_witness :
  fst (dcc_move shl_mod32 0 "{" 0 (Some "UP844") (Some "10") None
         (mkServer 100 (fleet_UP844, PiDcc_configured)))
  = ReplyError 404 "invalid ID".
Proof.
  assert (Hname : starts_with_digit "UP844" = false) by reflexivity.
  assert (Hv : vehicle_at
                 (housedcc_fleet_find "UP844"
                    (fst (Trains (mkServer 100 (fleet_UP844, PiDcc_configured)))))
                 (fst (Trains (mkServer 100 (fleet_UP844, PiDcc_configured))))
               = Some (mkDccVehicle "UP844" 44 0 0 (Some 0%nat)))
    by reflexivity.
  assert (Hfail : transport_fails 0
                    (snd (Trains (mkServer 100 (fleet_UP844, PiDcc_configured)))))
    by (right; right; lia).
  assert (Hspeed : is_int (atoi "10")) by (vm_compute; intuition discriminate).
  exact (proj1 (dcc_move_transport_failure shl_mod32 0 "{" 0 None "UP844" "10"
                  (mkServer 100 (fleet_UP844, PiDcc_configured)) _
                  Hname Hspeed Hv Hfail)).
Defined.

